(** * Ameena AI: the resilient-call and response-parsing layer

    A shallow embedding of [src/services/geminiService.ts]: the retry
    executor [withRetry], the response normalizers [parseJsonFromText] and
    [parseMermaidFromText], the content generation operations and the media
    enrichment loops [generatePresentationImages] and [generateVideoAssets];
    and of the store of study materials of the provider of
    [UploadedContentContext]; followed by the properties established about
    them.

    Conventions of the embedding.
    - A JavaScript string is a list of code units; the code units are those
      below 256 ([ascii]).  Characters above that range are outside the model,
      except in the image prompts: they are handed to [encodeURIComponent],
      which fails on some texts, and are kept in all their sixteen bits
      ([wideString]).
    - A JavaScript number is an integer ([Z]); floating point is outside the
      model.  [delay *= 2] and [delay / 1000] are exact on the values the
      code uses.
    - An asynchronous function is a function from the trace of effects so far
      to an outcome (resolved or rejected) and the extended trace.
    - [console.*] output is not recorded. *)

From Stdlib Require Import ZArith NArith String Ascii List Bool Arith Lia.
From Stdlib Require QArith_base.
From Stdlib Require Import DecimalString DecimalZ DecimalPos DecimalFacts.
Import ListNotations.

Set Implicit Arguments.
Set Warnings "-register-all,-abstract-large-number".

(* ===================================================================== *)
(** * Strings *)
(* ===================================================================== *)

Definition jsstring := list ascii.

Definition lit (s : string) : jsstring := list_ascii_of_string s.

Definition dquote : ascii := "034"%char.
Definition backslash : ascii := "\"%char.
Definition newline : ascii := "010"%char.
Definition backtick : ascii := "`"%char.

(** [WhiteSpace] and [LineTerminator] of ECMAScript, as used by
    [String.prototype.trim] and by the regular expression class [\s]:
    TAB, LF, VT, FF, CR, SPACE and NBSP are the ones below 256. *)
Definition isWhiteSpace (c : ascii) : bool :=
  let n := nat_of_ascii c in
  ((9 <=? n) && (n <=? 13)) || (n =? 32) || (n =? 160).

(** The regular expression class [\w]: [A-Za-z0-9_]. *)
Definition isWordChar (c : ascii) : bool :=
  let n := nat_of_ascii c in
  ((48 <=? n) && (n <=? 57)) || ((65 <=? n) && (n <=? 90))
  || (n =? 95) || ((97 <=? n) && (n <=? 122)).

Definition isDigit (c : ascii) : bool :=
  let n := nat_of_ascii c in (48 <=? n) && (n <=? 57).

Fixpoint trimStart (s : jsstring) : jsstring :=
  match s with
  | c :: r => if isWhiteSpace c then trimStart r else s
  | [] => []
  end.

Definition trimEnd (s : jsstring) : jsstring := rev (trimStart (rev s)).

(** [String.prototype.trim] *)
Definition trim (s : jsstring) : jsstring := trimEnd (trimStart s).

(** [String.prototype.startsWith] *)
Fixpoint startsWith (s p : jsstring) : bool :=
  match p, s with
  | [], _ => true
  | a :: p', b :: s' => Ascii.eqb a b && startsWith s' p'
  | _ :: _, [] => false
  end.

(** [String.prototype.includes] *)
Fixpoint includes (s sub : jsstring) : bool :=
  startsWith s sub ||
  match s with
  | [] => false
  | _ :: r => includes r sub
  end.

(** A text in all its sixteen bits: the list of its UTF-16 code units, the
    numbers below 65536. *)
Definition wideString := list N.

(** A text of the embedding as a text in sixteen bits. *)
Definition widen (s : jsstring) : wideString := map N_of_ascii s.

(** [s.substring(0, n)] *)
Definition substring0 (n : nat) (s : jsstring) : jsstring := firstn n s.

Definition digitChar (d : nat) : ascii := ascii_of_nat (48 + d).

Fixpoint uintChars (u : Decimal.uint) : jsstring :=
  match u with
  | Decimal.Nil => []
  | Decimal.D0 r => digitChar 0 :: uintChars r
  | Decimal.D1 r => digitChar 1 :: uintChars r
  | Decimal.D2 r => digitChar 2 :: uintChars r
  | Decimal.D3 r => digitChar 3 :: uintChars r
  | Decimal.D4 r => digitChar 4 :: uintChars r
  | Decimal.D5 r => digitChar 5 :: uintChars r
  | Decimal.D6 r => digitChar 6 :: uintChars r
  | Decimal.D7 r => digitChar 7 :: uintChars r
  | Decimal.D8 r => digitChar 8 :: uintChars r
  | Decimal.D9 r => digitChar 9 :: uintChars r
  end.

(** [Number.prototype.toString] on an integer: decimal digits, a leading
    minus sign for negative values.  This is what JavaScript prints for the
    integers below 10^21 in absolute value. *)
Definition numberToString (z : Z) : jsstring :=
  match Z.to_int z with
  | Decimal.Pos u => uintChars u
  | Decimal.Neg u => "-"%char :: uintChars u
  end.

(* ===================================================================== *)
(** * Regular expressions: a backtracking matcher *)
(* ===================================================================== *)

(** The two fence expressions of the source are sequences of single
    characters and of quantified character classes, anchored at both ends.
    The matcher below follows the backtracking order of ECMAScript: a greedy
    quantifier tries the longest repetition first, a lazy one the shortest. *)

Inductive CharClass : Type :=
| Chr (c : ascii)      (* a literal character *)
| Word                 (* the class w *)
| Space                (* the class s *)
| AnyChar.             (* the dot under the s flag *)

Definition inClass (k : CharClass) (x : ascii) : bool :=
  match k with
  | Chr c => Ascii.eqb c x
  | Word => isWordChar x
  | Space => isWhiteSpace x
  | AnyChar => true
  end.

Inductive Item : Type :=
| IChar (k : CharClass)                 (* one character of k *)
| IOptChar (k : CharClass)              (* at most one, greedy *)
| IOptLit (l : jsstring)                (* the literal l or nothing, greedy *)
| IStar (k : CharClass) (cap : bool)    (* greedy run, captured when cap *)
| ILazy (k : CharClass) (cap : bool).   (* lazy run, captured when cap *)

Definition Captures := list jsstring.

Definition orElse {A} (a b : option A) : option A :=
  match a with Some _ => a | None => b end.

Definition withCapture (cap : bool) (taken : jsstring) (m : option Captures)
  : option Captures :=
  if cap then option_map (cons (rev taken)) m else m.

Fixpoint stripPrefix (p s : jsstring) : option jsstring :=
  match p, s with
  | [], _ => Some s
  | a :: p', b :: s' => if Ascii.eqb a b then stripPrefix p' s' else None
  | _ :: _, [] => None
  end.

(** A greedy run of [k] followed by [cont]: longest repetition first. *)
Fixpoint greedyStar (k : CharClass) (cont : jsstring -> jsstring -> option Captures)
  (s taken : jsstring) : option Captures :=
  match s with
  | x :: s' =>
      if inClass k x
      then orElse (greedyStar k cont s' (x :: taken)) (cont taken s)
      else cont taken s
  | [] => cont taken s
  end.

(** A lazy run of [k] followed by [cont]: shortest repetition first. *)
Fixpoint lazyStar (k : CharClass) (cont : jsstring -> jsstring -> option Captures)
  (s taken : jsstring) : option Captures :=
  match cont taken s with
  | Some m => Some m
  | None =>
      match s with
      | x :: s' => if inClass k x then lazyStar k cont s' (x :: taken) else None
      | [] => None
      end
  end.

(** [exec r s]: match the whole of [s] against [^r$]; the result lists the
    captured groups from left to right. *)
Fixpoint exec (r : list Item) (s : jsstring) {struct r} : option Captures :=
  match r with
  | [] => match s with [] => Some [] | _ :: _ => None end
  | IChar k :: r' =>
      match s with
      | x :: s' => if inClass k x then exec r' s' else None
      | [] => None
      end
  | IOptChar k :: r' =>
      match s with
      | x :: s' => if inClass k x then orElse (exec r' s') (exec r' s) else exec r' s
      | [] => exec r' s
      end
  | IOptLit l :: r' =>
      match stripPrefix l s with
      | Some s' => orElse (exec r' s') (exec r' s)
      | None => exec r' s
      end
  | IStar k cap :: r' =>
      greedyStar k (fun taken rest => withCapture cap taken (exec r' rest)) s []
  | ILazy k cap :: r' =>
      lazyStar k (fun taken rest => withCapture cap taken (exec r' rest)) s []
  end.

Definition fence : list Item := [IChar (Chr backtick); IChar (Chr backtick); IChar (Chr backtick)].

(** The expression of [parseJsonFromText], under the s flag: an opening
    fence, an optional group holding a greedy run of word characters (group
    1), a greedy run of white space, an optional line feed, a lazy run of any
    characters (group 2), an optional line feed, a greedy run of white space
    and the closing fence.  The optional group around the greedy run consumes
    the same lengths in the same order as the run alone. *)
Definition jsonFenceRegex : list Item :=
  fence ++
  [IStar Word true; IStar Space false; IOptChar (Chr newline);
   ILazy AnyChar true; IOptChar (Chr newline); IStar Space false] ++
  fence.

(** The expression of [parseMermaidFromText], under the s flag: an opening
    fence, the optional word mermaid, a greedy run of white space, a line
    feed, a lazy run of any characters (group 1), a line feed, a greedy run
    of white space and the closing fence. *)
Definition mermaidFenceRegex : list Item :=
  fence ++
  [IOptLit (lit "mermaid"); IStar Space false; IChar (Chr newline);
   ILazy AnyChar true; IChar (Chr newline); IStar Space false] ++
  fence.

(** The global replacement of a closing brace, a run of white space and an
    opening brace by the three characters closing brace, comma, opening
    brace.  [repairMatchAt s] is the length of the match at the head of [s];
    the scan replaces a match and resumes behind it, and otherwise copies one
    character. *)
Fixpoint spacesThenBrace (s : jsstring) : option nat :=
  match s with
  | c :: r =>
      if Ascii.eqb c "{"%char then Some 1
      else if isWhiteSpace c then option_map S (spacesThenBrace r)
      else None
  | [] => None
  end.

Definition repairMatchAt (s : jsstring) : option nat :=
  match s with
  | c :: r => if Ascii.eqb c "}"%char then option_map S (spacesThenBrace r) else None
  | [] => None
  end.

Fixpoint replaceFrom (skip : nat) (s : jsstring) : jsstring :=
  match s with
  | [] => []
  | c :: r =>
      match skip with
      | S k => replaceFrom k r
      | O =>
          match repairMatchAt s with
          | Some n => lit "},{" ++ replaceFrom (n - 1) r
          | None => c :: replaceFrom 0 r
          end
      end
  end.

Definition insertMissingCommas (s : jsstring) : jsstring := replaceFrom 0 s.

(* ===================================================================== *)
(** * JSON values, [JSON.stringify] and [JSON.parse] *)
(* ===================================================================== *)

(** A JSON value.  An object is the list of its members in insertion order,
    with distinct keys when it is a value of the language; a number is an
    integer, and a value of the language when it is a safe integer. *)
Inductive json : Type :=
| JNull
| JBool (b : bool)
| JNumber (z : Z)
| JString (s : jsstring)
| JArray (items : list json)
| JObject (members : list (jsstring * json)).

Definition maxSafeInteger : Z := 9007199254740991.

Fixpoint jsEqb (a b : jsstring) : bool :=
  match a, b with
  | [], [] => true
  | x :: a', y :: b' => Ascii.eqb x y && jsEqb a' b'
  | _, _ => false
  end.

Fixpoint distinctKeys (ks : list jsstring) : bool :=
  match ks with
  | [] => true
  | k :: r => negb (existsb (jsEqb k) r) && distinctKeys r
  end.

(** The values of the language among the terms of [json]. *)
Fixpoint wellFormed (v : json) : bool :=
  match v with
  | JNull | JBool _ | JString _ => true
  | JNumber z => (- maxSafeInteger <=? z)%Z && (z <=? maxSafeInteger)%Z
  | JArray l => forallb wellFormed l
  | JObject m =>
      distinctKeys (map fst m) && forallb (fun kv => wellFormed (snd kv)) m
  end.

(** ToBoolean on a JSON value, as used by [value || fallback]. *)
Definition truthy (v : json) : bool :=
  match v with
  | JNull => false
  | JBool b => b
  | JNumber z => negb (z =? 0)%Z
  | JString s => match s with [] => false | _ :: _ => true end
  | JArray _ | JObject _ => true
  end.

Definition hexDigit (n : nat) : ascii :=
  if n <? 10 then ascii_of_nat (48 + n) else ascii_of_nat (87 + n).

(** QuoteJSONString, one code unit at a time. *)
Definition quoteChar (c : ascii) : jsstring :=
  let n := nat_of_ascii c in
  if n =? 8 then lit "\b"
  else if n =? 9 then lit "\t"
  else if n =? 10 then lit "\n"
  else if n =? 12 then lit "\f"
  else if n =? 13 then lit "\r"
  else if n =? 34 then [backslash; dquote]
  else if n =? 92 then [backslash; backslash]
  else if n <? 32 then lit "\u00" ++ [hexDigit (n / 16); hexDigit (n mod 16)]
  else [c].

Definition quoteJSONString (s : jsstring) : jsstring :=
  dquote :: flat_map quoteChar s ++ [dquote].

Fixpoint joinComma (l : list jsstring) : jsstring :=
  match l with
  | [] => []
  | x :: r =>
      match r with
      | [] => x
      | _ :: _ => x ++ ","%char :: joinComma r
      end
  end.

(** [JSON.stringify(v)] without indentation. *)
Fixpoint JSON_stringify (v : json) : jsstring :=
  match v with
  | JNull => lit "null"
  | JBool true => lit "true"
  | JBool false => lit "false"
  | JNumber z => numberToString z
  | JString s => quoteJSONString s
  | JArray l => "["%char :: joinComma (map JSON_stringify l) ++ ["]"%char]
  | JObject m =>
      "{"%char ::
      joinComma (map (fun kv => quoteJSONString (fst kv) ++ ":"%char :: JSON_stringify (snd kv)) m)
      ++ ["}"%char]
  end.

(** The result of a parsing step.  [Unmodelled] marks input whose value is
    outside the embedding (a number with a fraction or an exponent or beyond
    the safe integers, an escape above 255); [OutOfFuel] an exhausted
    recursion budget. *)
Inductive Parse (A : Type) : Type :=
| Parsed (a : A) (rest : jsstring)
| SyntaxError
| Unmodelled
| OutOfFuel.

Arguments SyntaxError {A}.
Arguments Unmodelled {A}.
Arguments OutOfFuel {A}.

Definition parseBind {A B} (p : Parse A) (f : A -> jsstring -> Parse B) : Parse B :=
  match p with
  | Parsed a r => f a r
  | SyntaxError => SyntaxError
  | Unmodelled => Unmodelled
  | OutOfFuel => OutOfFuel
  end.

(** The white space of the JSON grammar: TAB, LF, CR, SPACE. *)
Definition isJsonSpace (c : ascii) : bool :=
  let n := nat_of_ascii c in
  (n =? 9) || (n =? 10) || (n =? 13) || (n =? 32).

Fixpoint skipWs (s : jsstring) : jsstring :=
  match s with
  | c :: r => if isJsonSpace c then skipWs r else s
  | [] => []
  end.

Definition simpleEscape (e : ascii) : option ascii :=
  let n := nat_of_ascii e in
  if n =? 34 then Some dquote
  else if n =? 92 then Some backslash
  else if n =? 47 then Some "/"%char
  else if n =? 98 then Some (ascii_of_nat 8)
  else if n =? 102 then Some (ascii_of_nat 12)
  else if n =? 110 then Some (ascii_of_nat 10)
  else if n =? 114 then Some (ascii_of_nat 13)
  else if n =? 116 then Some (ascii_of_nat 9)
  else None.

Definition hexValue (c : ascii) : option nat :=
  let n := nat_of_ascii c in
  if (48 <=? n) && (n <=? 57) then Some (n - 48)
  else if (65 <=? n) && (n <=? 70) then Some (n - 55)
  else if (97 <=? n) && (n <=? 102) then Some (n - 87)
  else None.

Definition hexValue4 (a b c d : ascii) : option nat :=
  match hexValue a, hexValue b, hexValue c, hexValue d with
  | Some x, Some y, Some z, Some w => Some (((x * 16 + y) * 16 + z) * 16 + w)
  | _, _, _, _ => None
  end.

(** The characters of a string literal behind its opening quote. *)
Fixpoint parseStringBody (s acc : jsstring) : Parse jsstring :=
  match s with
  | [] => SyntaxError
  | c :: r =>
      if Ascii.eqb c dquote then Parsed (rev acc) r
      else if Ascii.eqb c backslash then
        match r with
        | [] => SyntaxError
        | e :: r' =>
            match simpleEscape e with
            | Some x => parseStringBody r' (x :: acc)
            | None =>
                if Ascii.eqb e "u"%char then
                  match r' with
                  | h1 :: h2 :: h3 :: h4 :: r'' =>
                      match hexValue4 h1 h2 h3 h4 with
                      | Some n =>
                          if n <? 256 then parseStringBody r'' (ascii_of_nat n :: acc)
                          else Unmodelled
                      | None => SyntaxError
                      end
                  | _ => SyntaxError
                  end
                else SyntaxError
            end
        end
      else if nat_of_ascii c <? 32 then SyntaxError
      else parseStringBody r (c :: acc)
  end.

Definition digitCons (c : ascii) : option (Decimal.uint -> Decimal.uint) :=
  match nat_of_ascii c - 48 with
  | 0 => if isDigit c then Some Decimal.D0 else None
  | 1 => Some Decimal.D1
  | 2 => Some Decimal.D2
  | 3 => Some Decimal.D3
  | 4 => Some Decimal.D4
  | 5 => Some Decimal.D5
  | 6 => Some Decimal.D6
  | 7 => Some Decimal.D7
  | 8 => Some Decimal.D8
  | 9 => Some Decimal.D9
  | _ => None
  end.

(** The longest run of decimal digits at the head of [s]. *)
Fixpoint digitRun (s : jsstring) : Decimal.uint * jsstring :=
  match s with
  | c :: r =>
      match digitCons c with
      | Some d => let (u, r') := digitRun r in (d u, r')
      | None => (Decimal.Nil, s)
      end
  | [] => (Decimal.Nil, [])
  end.

(** The integer part of a number: a single zero, or a run of digits that
    starts with a digit from 1 to 9. *)
Definition parseIntPart (s : jsstring) : Parse Decimal.uint :=
  match s with
  | c :: r =>
      if Ascii.eqb c "0"%char then Parsed (Decimal.D0 Decimal.Nil) r
      else if isDigit c then let (u, r') := digitRun s in Parsed u r'
      else SyntaxError
  | [] => SyntaxError
  end.

Definition startsFraction (s : jsstring) : bool :=
  match s with
  | c :: _ => Ascii.eqb c "."%char || Ascii.eqb c "e"%char || Ascii.eqb c "E"%char
  | [] => false
  end.

Definition parseNumber (s : jsstring) : Parse json :=
  let (negative, s1) :=
    match s with
    | c :: r => if Ascii.eqb c "-"%char then (true, r) else (false, s)
    | [] => (false, s)
    end in
  parseBind (parseIntPart s1) (fun u r =>
    if startsFraction r then Unmodelled
    else
      let z := Z.of_uint u in
      if (z <=? maxSafeInteger)%Z
      then Parsed (JNumber (if negative then - z else z)%Z) r
      else Unmodelled).

(** CreateDataProperty on the members read so far: a repeated key keeps its
    place and takes the later value. *)
Fixpoint defineProperty (m : list (jsstring * json)) (k : jsstring) (v : json)
  : list (jsstring * json) :=
  match m with
  | [] => [(k, v)]
  | (k', v') :: r =>
      if jsEqb k' k then (k', v) :: r else (k', v') :: defineProperty r k v
  end.

Definition parseLiteral (word : jsstring) (v : json) (s : jsstring) : Parse json :=
  match stripPrefix word s with
  | Some r => Parsed v r
  | None => SyntaxError
  end.

(** Recursive descent over the JSON grammar.  [fuel] bounds the depth of the
    recursion; two units for each character of the input are enough, as
    [parse_within_fuel] shows. *)
Fixpoint parseValue (fuel : nat) (s : jsstring) {struct fuel} : Parse json :=
  match fuel with
  | O => OutOfFuel
  | S f =>
      match skipWs s with
      | [] => SyntaxError
      | c :: r =>
          if Ascii.eqb c "{"%char then
            match skipWs r with
            | c' :: r' =>
                if Ascii.eqb c' "}"%char then Parsed (JObject []) r'
                else parseMembers f (c' :: r') []
            | [] => SyntaxError
            end
          else if Ascii.eqb c "["%char then
            match skipWs r with
            | c' :: r' =>
                if Ascii.eqb c' "]"%char then Parsed (JArray []) r'
                else parseElements f (c' :: r') []
            | [] => SyntaxError
            end
          else if Ascii.eqb c dquote then
            parseBind (parseStringBody r []) (fun str r' => Parsed (JString str) r')
          else if Ascii.eqb c "-"%char || isDigit c then parseNumber (c :: r)
          else if Ascii.eqb c "t"%char then parseLiteral (lit "true") (JBool true) (c :: r)
          else if Ascii.eqb c "f"%char then parseLiteral (lit "false") (JBool false) (c :: r)
          else if Ascii.eqb c "n"%char then parseLiteral (lit "null") JNull (c :: r)
          else SyntaxError
      end
  end

with parseElements (fuel : nat) (s : jsstring) (acc : list json) {struct fuel}
  : Parse json :=
  match fuel with
  | O => OutOfFuel
  | S f =>
      parseBind (parseValue f s) (fun v r =>
        match skipWs r with
        | c :: r' =>
            if Ascii.eqb c ","%char then parseElements f r' (v :: acc)
            else if Ascii.eqb c "]"%char then Parsed (JArray (rev (v :: acc))) r'
            else SyntaxError
        | [] => SyntaxError
        end)
  end

with parseMembers (fuel : nat) (s : jsstring) (acc : list (jsstring * json))
  {struct fuel} : Parse json :=
  match fuel with
  | O => OutOfFuel
  | S f =>
      match skipWs s with
      | c :: r =>
          if Ascii.eqb c dquote then
            parseBind (parseStringBody r []) (fun k r1 =>
              match skipWs r1 with
              | c1 :: r2 =>
                  if Ascii.eqb c1 ":"%char then
                    parseBind (parseValue f r2) (fun v r3 =>
                      match skipWs r3 with
                      | c3 :: r4 =>
                          if Ascii.eqb c3 ","%char
                          then parseMembers f r4 (defineProperty acc k v)
                          else if Ascii.eqb c3 "}"%char
                          then Parsed (JObject (defineProperty acc k v)) r4
                          else SyntaxError
                      | [] => SyntaxError
                      end)
                  else SyntaxError
              | [] => SyntaxError
              end)
          else SyntaxError
      | [] => SyntaxError
      end
  end.

(** [JSON.parse(s)]: one value, white space around it, nothing else. *)
Definition JSON_parse (s : jsstring) : Parse json :=
  parseBind (parseValue (S (2 * length s)) s) (fun v r =>
    match skipWs r with
    | [] => Parsed v []
    | _ :: _ => SyntaxError
    end).

(* ===================================================================== *)
(** * The response normalizers *)
(* ===================================================================== *)

(** What a normalizer hands back: a value, JavaScript's [null], or
    [NotModelled] when the text leaves the embedded fragment of JSON. *)
Inductive Normalized (A : Type) : Type :=
| Value (a : A)
| Null
| NotModelled.

Arguments Null {A}.
Arguments NotModelled {A}.

Definition isEmpty (s : jsstring) : bool :=
  match s with [] => true | _ :: _ => false end.

Definition parseJsonFromText (text : jsstring) : Normalized json :=
  let jsonStr := trim text in
  let jsonStr :=
    match exec jsonFenceRegex jsonStr with
    | Some captures =>
        let group2 := nth 1 captures [] in
        if isEmpty group2 then jsonStr else trim group2
    | None => jsonStr
    end in
  (* Fix for common JSON error where a comma is missing between objects *)
  let jsonStr := insertMissingCommas jsonStr in
  match JSON_parse jsonStr with
  | Parsed v _ => Value v
  | SyntaxError => Null
  | Unmodelled | OutOfFuel => NotModelled
  end.

Definition parseMermaidFromText (text : jsstring) : option jsstring :=
  let mermaidCode := trim text in
  let mermaidCode :=
    match exec mermaidFenceRegex mermaidCode with
    | Some captures =>
        let group1 := nth 0 captures [] in
        if isEmpty group1 then mermaidCode else trim group1
    | None => mermaidCode
    end in
  if startsWith mermaidCode (lit "graph TD") || startsWith mermaidCode (lit "graph LR")
  then Some mermaidCode
  else None.

(* ===================================================================== *)
(** * Errors, outcomes and effects *)
(* ===================================================================== *)

(** What [JSON.stringify] does with a thrown value: a text, [undefined] (for
    [undefined], a function or a symbol), or an exception of its own (a
    circular structure, a BigInt). *)
Inductive Serialized : Type :=
| SerText (s : jsstring)
| SerUndefined
| SerThrows.

(** A thrown value.  [Thrown] is a value raised by a collaborator, known by
    a tag and by its serialization; the others are the errors this module
    and the runtime create.  An [Error] has no enumerable property of its
    own, so it serializes to an empty object. *)
Inductive JsError : Type :=
| Thrown (tag : nat) (serialized : Serialized)
| ErrorObject (message : jsstring)
| TypeErrorObject (message : jsstring)
| URIErrorObject (message : jsstring).

Definition JSON_stringify_error (err : JsError) : Serialized :=
  match err with
  | Thrown _ ser => ser
  | ErrorObject _ | TypeErrorObject _ | URIErrorObject _ => SerText (lit "{}")
  end.

(** How a promise settles. *)
Inductive Outcome (A : Type) : Type :=
| Resolved (a : A)
| Rejected (e : JsError).

Arguments Rejected {A}.

(** ** The collaborators' requests and responses *)

Inductive Schema : Type :=
| SString
| SStringEnum (enum : list jsstring)
| SStringDescribed (description : jsstring)
| SArray (items : Schema)
| SObject (properties : list (jsstring * Schema)) (required : list jsstring).

Record GenerationConfig : Type := {
  responseMimeType : option jsstring;
  responseSchema : option Schema;
  temperature : option QArith_base.Q;
  topP : option QArith_base.Q;
  topK : option Z
}.

Module GenerateContentParameters.
Record t : Type := {
  model : jsstring;
  contents : jsstring;
  config : option GenerationConfig
}.
End GenerateContentParameters.

(** The [text] of a response is a string, as the source types it. *)
Record GenerateContentResponse : Type := { text : jsstring }.

Module GenerateImagesParameters.
Record t : Type := {
  model : jsstring;
  prompt : wideString;
  numberOfImages : Z;
  outputMimeType : jsstring;
  aspectRatio : jsstring
}.
End GenerateImagesParameters.

Record Image : Type := {
  imageBytes : option jsstring;
  mimeType : option jsstring
}.

Record GeneratedImage : Type := { image : option Image }.

Record GenerateImagesResponse : Type := {
  generatedImages : option (list GeneratedImage)
}.

(** ** The trace of effects *)

Inductive Event : Type :=
| EvInvoke
| EvGenerateContent (request : GenerateContentParameters.t)
| EvGenerateImages (request : GenerateImagesParameters.t)
| EvSleep (ms : Z)
| EvRetry (attempt : nat) (delay : Z)
| EvProgress (message : jsstring)
| EvDateNow
| EvRandom.

(** The newest event comes first. *)
Definition Trace := list Event.

Definition Async (A : Type) : Type := Trace -> Outcome A * Trace.

Definition ret {A} (a : A) : Async A := fun w => (Resolved a, w).

Definition throw {A} (e : JsError) : Async A := fun w => (Rejected e, w).

Definition bind {A B} (m : Async A) (f : A -> Async B) : Async B :=
  fun w =>
    match m w with
    | (Resolved a, w') => f a w'
    | (Rejected e, w') => (Rejected e, w')
    end.

(** [try { m } catch (e) { handler e }] *)
Definition tryCatch {A} (m : Async A) (handler : JsError -> Async A) : Async A :=
  fun w =>
    match m w with
    | (Resolved a, w') => (Resolved a, w')
    | (Rejected e, w') => handler e w'
    end.

Definition emit (ev : Event) : Async unit := fun w => (Resolved tt, ev :: w).

Notation "x <- m ;; k" := (bind m (fun x => k))
  (at level 61, m at next level, right associativity).
Notation "m ;;; k" := (bind m (fun _ => k))
  (at level 61, right associativity).

(** [await sleep(ms)] *)
Definition sleep (ms : Z) : Async unit := emit (EvSleep ms).

(** The model collaborator: what a call settles to may depend on everything
    that happened before it. *)
Record GoogleGenAI : Type := {
  generateContent : Trace -> GenerateContentParameters.t -> Outcome GenerateContentResponse;
  generateImages : Trace -> GenerateImagesParameters.t -> Outcome GenerateImagesResponse
}.

Definition models_generateContent (client : GoogleGenAI)
  (request : GenerateContentParameters.t) : Async GenerateContentResponse :=
  fun w => (generateContent client w request, EvGenerateContent request :: w).

Definition models_generateImages (client : GoogleGenAI)
  (request : GenerateImagesParameters.t) : Async GenerateImagesResponse :=
  fun w => (generateImages client w request, EvGenerateImages request :: w).

(** The clock and the random source: [Date.now()] and the text of
    [Math.random().toString(36).slice(2)]. *)
Record Runtime : Type := {
  clock : Trace -> Z;
  randomBase36 : Trace -> jsstring
}.

Definition Date_now (rt : Runtime) : Async Z :=
  fun w => (Resolved (clock rt w), EvDateNow :: w).

Definition Math_random_suffix (rt : Runtime) : Async jsstring :=
  fun w => (Resolved (randomBase36 rt w), EvRandom :: w).

(** An operation whose outcomes are fixed in advance, one for each
    invocation; it records each invocation in the trace. *)
Fixpoint invocations (w : Trace) : nat :=
  match w with
  | [] => 0
  | EvInvoke :: r => S (invocations r)
  | _ :: r => invocations r
  end.

Definition scripted {T} (outcomes : nat -> Outcome T) : Async T :=
  fun w => (outcomes (invocations w), EvInvoke :: w).

(** An observer for [onRetry] that records its calls. *)
Definition recordRetry (attempt : nat) (delay : Z) : Async unit :=
  emit (EvRetry attempt delay).

(** An observer for [onProgress] that records its calls. *)
Definition recordProgress (message : jsstring) : Async unit :=
  emit (EvProgress message).

(* ===================================================================== *)
(** * The retry executor *)
(* ===================================================================== *)

Definition isRateLimitText (errorMessage : jsstring) : bool :=
  includes errorMessage (lit "429") || includes errorMessage (lit "503")
  || includes errorMessage (lit "RESOURCE_EXHAUSTED")
  || includes errorMessage (lit "UNAVAILABLE").

Section WithRetry.
Variable T : Type.
Variable fn : Async T.
Variable maxAttempts : nat.
Variable onRetry : option (nat -> Z -> Async unit).

(** The body of the catch clause, up to the point where the loop goes on:
    it resolves when the loop is to go on and rejects otherwise. *)
Definition catchClause (attempt : nat) (delay : Z) (err : JsError) : Async unit :=
  match JSON_stringify_error err with
  | SerText errorMessage =>
      let isRateLimitError := isRateLimitText errorMessage in
      if isRateLimitError && (attempt <? maxAttempts) then
        match onRetry with
        | Some callback => callback attempt delay
        | None => ret tt
        end ;;;
        sleep delay
      else throw err
  | SerUndefined =>
      throw (TypeErrorObject (lit "Cannot read properties of undefined (reading 'includes')"))
  | SerThrows =>
      throw (TypeErrorObject (lit "Converting circular structure to JSON"))
  end.

(** The while loop.  [remaining] is [maxAttempts - attempt]: the loop test
    [attempt < maxAttempts] fails exactly when it is zero. *)
Fixpoint retryLoop (remaining attempt : nat) (delay : Z) {struct remaining} : Async T :=
  match remaining with
  | O => throw (ErrorObject (lit "Exceeded retry attempts."))
  | S remaining' =>
      fun w =>
        match fn w with
        | (Resolved v, w') => (Resolved v, w')
        | (Rejected err, w') =>
            let attempt := S attempt in
            match catchClause attempt delay err w' with
            | (Resolved _, w'') => retryLoop remaining' attempt (delay * 2) w''
            | (Rejected e, w'') => (Rejected e, w'')
            end
        end
  end.

End WithRetry.

(** [withRetry(fn, maxAttempts, initialDelay, onRetry)].  The callers that
    leave out a parameter are given its default here: 3 attempts, a delay
    of 1000 and no observer. *)
Definition withRetry {T} (fn : Async T) (maxAttempts : nat) (initialDelay : Z)
  (onRetry : option (nat -> Z -> Async unit)) : Async T :=
  let attempt := 0 in
  let delay := initialDelay in
  retryLoop fn maxAttempts onRetry (maxAttempts - attempt) attempt delay.

(* ===================================================================== *)
(** * The data model of the application *)
(* ===================================================================== *)

Inductive NoteLength : Type := SHORT | MEDIUM | DETAILED.

Record AiGeneratedFeedback : Type := { feedbackText : jsstring }.

Module SlideContent.
Record t : Type := {
  title : jsstring;
  content : list jsstring;
  imagePrompt : wideString;
  imageUrl : option jsstring
}.
End SlideContent.

Module PresentationContent.
Record t : Type := {
  title : jsstring;
  slides : list SlideContent.t
}.
End PresentationContent.

Module VideoScene.
Record t : Type := {
  script : jsstring;
  imagePrompt : wideString;
  imageUrl : option jsstring
}.
End VideoScene.

(** The spread of a slide with a new [imageUrl]. *)
Definition slideWithImageUrl (slide : SlideContent.t) (url : jsstring) : SlideContent.t :=
  {| SlideContent.title := SlideContent.title slide;
     SlideContent.content := SlideContent.content slide;
     SlideContent.imagePrompt := SlideContent.imagePrompt slide;
     SlideContent.imageUrl := Some url |}.

(** The spread of a presentation with new [slides]. *)
Definition presentationWithSlides (presentation : PresentationContent.t)
  (updatedSlides : list SlideContent.t) : PresentationContent.t :=
  {| PresentationContent.title := PresentationContent.title presentation;
     PresentationContent.slides := updatedSlides |}.

Definition sceneWithImageUrl (scene : VideoScene.t) (url : jsstring) : VideoScene.t :=
  {| VideoScene.script := VideoScene.script scene;
     VideoScene.imagePrompt := VideoScene.imagePrompt scene;
     VideoScene.imageUrl := Some url |}.

(** ** Reading typed data out of parsed JSON

    The source casts the parsed value to the type it expects.  The readers
    below accept the values of that type; any other value is outside the
    embedding. *)

Fixpoint lookupMember (k : jsstring) (m : list (jsstring * json)) : option json :=
  match m with
  | [] => None
  | (k', v) :: r => if jsEqb k' k then Some v else lookupMember k r
  end.

Definition asString (v : json) : option jsstring :=
  match v with JString s => Some s | _ => None end.

Fixpoint allSome {A} (l : list (option A)) : option (list A) :=
  match l with
  | [] => Some []
  | Some a :: r => option_map (cons a) (allSome r)
  | None :: _ => None
  end.

Definition asStringArray (v : json) : option (list jsstring) :=
  match v with JArray l => allSome (map asString l) | _ => None end.

Definition optBind {A B} (o : option A) (f : A -> option B) : option B :=
  match o with Some a => f a | None => None end.

Definition onlyKeys (allowed : list jsstring) (m : list (jsstring * json)) : bool :=
  forallb (fun kv => existsb (jsEqb (fst kv)) allowed) m.

Definition readSlide (v : json) : option SlideContent.t :=
  match v with
  | JObject m =>
      if onlyKeys [lit "title"; lit "content"; lit "imagePrompt"; lit "imageUrl"] m then
        optBind (optBind (lookupMember (lit "title") m) asString) (fun t =>
        optBind (optBind (lookupMember (lit "content") m) asStringArray) (fun c =>
        optBind (optBind (lookupMember (lit "imagePrompt") m) asString) (fun p =>
        match lookupMember (lit "imageUrl") m with
        | None =>
            Some {| SlideContent.title := t; SlideContent.content := c;
                    SlideContent.imagePrompt := widen p; SlideContent.imageUrl := None |}
        | Some u =>
            option_map (fun url =>
              {| SlideContent.title := t; SlideContent.content := c;
                 SlideContent.imagePrompt := widen p; SlideContent.imageUrl := Some url |})
              (asString u)
        end)))
      else None
  | _ => None
  end.

Definition readPresentation (v : json) : option PresentationContent.t :=
  match v with
  | JObject m =>
      if onlyKeys [lit "title"; lit "slides"] m then
        optBind (optBind (lookupMember (lit "title") m) asString) (fun t =>
        match lookupMember (lit "slides") m with
        | Some (JArray l) =>
            option_map (fun s =>
              {| PresentationContent.title := t; PresentationContent.slides := s |})
              (allSome (map readSlide l))
        | _ => None
        end)
      else None
  | _ => None
  end.

Definition readScene (v : json) : option VideoScene.t :=
  match v with
  | JObject m =>
      if onlyKeys [lit "script"; lit "imagePrompt"] m then
        optBind (optBind (lookupMember (lit "script") m) asString) (fun s =>
        optBind (optBind (lookupMember (lit "imagePrompt") m) asString) (fun p =>
        Some {| VideoScene.script := s; VideoScene.imagePrompt := widen p;
                VideoScene.imageUrl := None |}))
      else None
  | _ => None
  end.

Definition readScenes (v : json) : option (list VideoScene.t) :=
  match v with
  | JArray l => allSome (map readScene l)
  | _ => None
  end.

(** A parsed value read at a type [A]: JavaScript's [null] and the JSON
    literal null both give [Null]. *)
Definition readAs {A} (reader : json -> option A) (n : Normalized json) : Normalized A :=
  match n with
  | Value JNull => Null
  | Value v => match reader v with Some a => Value a | None => NotModelled end
  | Null => Null
  | NotModelled => NotModelled
  end.

(* ===================================================================== *)
(** * Constants and prompts *)
(* ===================================================================== *)

Definition GEMINI_API_PRO_TEXT_MODEL : jsstring := lit "gemini-2.5-flash".
Definition GEMINI_API_PRO_IMAGE_MODEL : jsstring := lit "imagen-4.0-generate-001".
Definition DEFAULT_QUIZ_QUESTIONS_count : Z := 5.

Definition MIN_CONTENT_LENGTH_FOR_GENERATION : nat := 20.
Definition MAX_CONTENT_LENGTH_FOR_GENERATION : nat := 8000.

(** An optional text inside a template literal. *)
Definition optionalText (o : option jsstring) : jsstring :=
  match o with Some s => s | None => lit "undefined" end.

Definition fallbackTitle (content : jsstring): jsstring :=
  lit "Content Analysis: " ++
  substring0 30 content ++
  lit "...".

Definition suggestMetadataPrompt (content : jsstring): jsstring :=
  lit "Analyze the following content and suggest metadata.
    - title: A concise, descriptive title.
    - subject: The main academic or professional subject (e.g., Biology, Computer Science, History).
    - topic: The specific topic within the subject (e.g., Photosynthesis, Data Structures, World War II).
    - difficulty: Choose one: 'Easy', 'Medium', or 'Hard'.

    Content: " ++
  [dquote] ++
  substring0 500 content ++
  lit "..." ++
  [dquote].

Definition summaryPrompt (content : jsstring): jsstring :=
  lit "Generate a concise summary (around 100-150 words) of the following content. Focus on the main ideas and key takeaways.

Content:
" ++
  substring0 MAX_CONTENT_LENGTH_FOR_GENERATION content.

Definition explanationPrompt (content : jsstring): jsstring :=
  lit "You are an expert teacher. Your goal is to explain the core concepts from the following study material in a clear, simple, and easy-to-understand way.
Break down complex topics, use analogies if helpful, and structure the explanation logically. Avoid simply rephrasing the text; provide genuine clarification and insight.

Content to explain:
" ++
  substring0 MAX_CONTENT_LENGTH_FOR_GENERATION content.

Definition notesPrompt (promptDetail content : jsstring): jsstring :=
  lit "Generate notes for the following content. The desired level of detail is: " ++
  promptDetail ++
  lit "

Content:
" ++
  substring0 MAX_CONTENT_LENGTH_FOR_GENERATION content.

Definition quizPrompt (count : Z) (content : jsstring): jsstring :=
  lit "Generate a quiz with exactly " ++
  numberToString count ++
  lit " questions based on the provided content. The quiz should include a mix of multiple-choice (MCQ) and short-answer questions. For MCQs, provide 4 distinct options.

Content:
" ++
  substring0 MAX_CONTENT_LENGTH_FOR_GENERATION content.

Definition feedbackPrompt (score total : Z) (content : option jsstring): jsstring :=
  lit "A student just completed a quiz on the following material. They scored " ++
  numberToString score ++
  lit " out of " ++
  numberToString total ++
  lit ". 
    Provide some brief, encouraging feedback. If their score is low, gently suggest which areas from the material they might want to review.
    
    Study Material (for context):
    " ++
  optionalText (option_map (substring0 1000) content) ++
  lit "...".

Definition presentationPrompt (explanation : jsstring): jsstring :=
  lit "Based on the following explanation, create content for a PowerPoint presentation.
    The presentation should have a main title and 5-7 content slides.
    For each slide, provide:
    1. A concise 'title'.
    2. 3-4 'content' bullet points.
    3. A visually descriptive 'imagePrompt' for an AI image generator. The prompt must describe a **professional and minimalist illustration** with a clean aesthetic. The image should be relevant to the slide's content, visually engaging, and suitable for a widescreen (16:9) presentation. **Do not include any text in the image description.**

    Explanation:
    " ++
  explanation.

Definition blockDiagramPrompt (explanation : jsstring): jsstring :=
  lit "You are an expert in creating flawless Mermaid.js diagrams. Your task is to create a " ++
  [dquote] ++
  lit "graph TD" ++
  [dquote] ++
  lit " (top-down) block diagram from the given text.

You MUST follow these rules STRICTLY:
1.  **SYNTAX:** Use only " ++
  [dquote] ++
  lit "graph TD" ++
  [dquote] ++
  lit " format.
2.  **CONCISENESS:** Keep node labels short and to the point. Do not use full sentences.
3.  **QUOTES ARE MANDATORY:** If a node's text contains ANY special characters (parentheses, commas, dashes, etc.) or spaces, you MUST enclose the entire text in double quotes.
    -   CORRECT: `A[" ++
  [dquote] ++
  lit "Node with (details)" ++
  [dquote] ++
  lit "] --> B[" ++
  [dquote] ++
  lit "Another, one" ++
  [dquote] ++
  lit "]`
    -   INCORRECT: `A[Node with (details)] --> B[Another, one]`
4.  **CONNECTIONS:** All connections must be complete using `-->`. Do not leave dangling arrows or use other arrow types.
5.  **NO SUBGRAPHS:** Do not use the `subgraph` keyword. Keep the diagram simple.
6.  **FINAL OUTPUT:** Enclose the final, complete Mermaid code in a single markdown code block like ```mermaid ... ```.

Explanation to visualize:
" ++
  explanation.

Definition videoScriptPrompt (explanation : jsstring): jsstring :=
  lit "You are an expert educator and creative director. Your task is to turn the following educational text into a script for a short, engaging video (around 1-2 minutes). Break it down into exactly 5 key scenes.

For each scene, provide:
1.  A concise " ++
  [dquote] ++
  lit "script" ++
  [dquote] ++
  lit " for the voice-over narration. Each script should be 2-3 sentences long.
2.  A detailed, visually rich " ++
  [dquote] ++
  lit "imagePrompt" ++
  [dquote] ++
  lit " for an AI image generator. The prompt must describe a **cinematic and photorealistic image** that is visually stunning. Describe the style (e.g., dramatic lighting, soft focus), composition, and content clearly. The image must be relevant to the script and suitable for a widescreen educational video. **Do not include any text in the image description.**

Educational Text:
" ++
  explanation.

(* ===================================================================== *)
(** * Content generation *)
(* ===================================================================== *)

Definition jsonConfig (schema : Schema) : option GenerationConfig :=
  Some {| responseMimeType := Some (lit "application/json");
          responseSchema := Some schema;
          temperature := None; topP := None; topK := None |}.

Definition samplingConfig (t p : QArith_base.Q) (k : Z) : option GenerationConfig :=
  Some {| responseMimeType := None; responseSchema := None;
          temperature := Some t; topP := Some p; topK := Some k |}.

Definition textRequest (prompt : jsstring) (config : option GenerationConfig)
  : GenerateContentParameters.t :=
  {| GenerateContentParameters.model := GEMINI_API_PRO_TEXT_MODEL;
     GenerateContentParameters.contents := prompt;
     GenerateContentParameters.config := config |}.

Definition metadataSchema : Schema :=
  SObject
    [(lit "title", SString); (lit "subject", SString); (lit "topic", SString);
     (lit "difficulty", SStringEnum [lit "Easy"; lit "Medium"; lit "Hard"])]
    [lit "title"; lit "subject"; lit "topic"; lit "difficulty"].

Definition quizSchema : Schema :=
  SArray
    (SObject
       [(lit "id", SString);
        (lit "type", SStringEnum [lit "mcq"; lit "short_answer"]);
        (lit "questionText", SString);
        (lit "options", SArray SString);
        (lit "correctAnswer", SString)]
       [lit "id"; lit "type"; lit "questionText"; lit "correctAnswer"]).

Definition presentationSchema : Schema :=
  SObject
    [(lit "title", SString);
     (lit "slides",
      SArray
        (SObject
           [(lit "title", SString);
            (lit "content", SArray SString);
            (lit "imagePrompt",
             SStringDescribed
               (lit "A detailed prompt for an AI to generate a relevant image for this slide."))]
           [lit "title"; lit "content"; lit "imagePrompt"]))]
    [lit "title"; lit "slides"].

Definition scriptSchema : Schema :=
  SArray
    (SObject [(lit "script", SString); (lit "imagePrompt", SString)]
             [lit "script"; lit "imagePrompt"]).

(** The error the guarded operations throw when the API key is missing. *)
Definition apiKeyError : JsError := ErrorObject (lit "API Key not configured.").

(** The request of each operation: the model, the prompt and the
    configuration. *)
Definition metadataRequest (content : jsstring) : GenerateContentParameters.t :=
  textRequest (suggestMetadataPrompt content) (jsonConfig metadataSchema).

Definition summaryRequest (content : jsstring) : GenerateContentParameters.t :=
  textRequest (summaryPrompt content)
    (samplingConfig (QArith_base.Qmake 5 10) (QArith_base.Qmake 9 10) 40).

Definition explanationRequest (content : jsstring) : GenerateContentParameters.t :=
  textRequest (explanationPrompt content)
    (samplingConfig (QArith_base.Qmake 6 10) (QArith_base.Qmake 95 100) 50).

Definition notesPromptDetail (length : NoteLength) : jsstring :=
  match length with
  | SHORT =>
      lit "Provide a concise summary in 3-5 bullet points. Focus only on the absolute main ideas."
  | MEDIUM =>
      lit "Outline the core concepts and key supporting details in a structured list. Use nested bullets if necessary."
  | DETAILED =>
      lit "Create comprehensive, detailed notes covering all significant topics, definitions, and examples. Structure it with clear headings and bullet points."
  end.

Definition notesRequest (content : jsstring) (length : NoteLength)
  : GenerateContentParameters.t :=
  textRequest (notesPrompt (notesPromptDetail length) content) None.

Definition quizRequest (content : jsstring) (count : Z) : GenerateContentParameters.t :=
  textRequest (quizPrompt count content) (jsonConfig quizSchema).

Definition feedbackRequest (score total : Z) (content : option jsstring)
  : GenerateContentParameters.t :=
  textRequest (feedbackPrompt score total content) None.

Definition presentationRequest (explanation : jsstring) : GenerateContentParameters.t :=
  textRequest (presentationPrompt explanation) (jsonConfig presentationSchema).

Definition blockDiagramRequest (explanation : jsstring) : GenerateContentParameters.t :=
  textRequest (blockDiagramPrompt explanation) None.

Definition videoScriptRequest (explanation : jsstring) : GenerateContentParameters.t :=
  textRequest (videoScriptPrompt explanation) (jsonConfig scriptSchema).

(** The fixed texts the display operations fall back on. *)
Definition summaryUnavailable : jsstring := lit "API Key not configured. Summary unavailable.".
Definition summaryTooShort : jsstring :=
  lit "Content is too short to generate a meaningful summary.".
Definition summaryFailed : jsstring := lit "Failed to generate summary. Please try again.".
Definition explanationUnavailable : jsstring :=
  lit "API Key not configured. Explanation unavailable.".
Definition explanationTooShort : jsstring :=
  lit "Content is too short to generate a meaningful explanation.".
Definition explanationFailed : jsstring :=
  lit "Failed to generate explanation. Please try again.".
Definition feedbackUnavailable : jsstring :=
  lit "AI feedback is unavailable as the API key is not configured.".

Section Service.
(** The client handle of the module: [None] when the API key is absent. *)
Variable ai : option GoogleGenAI.

Definition metadataFallback (content : jsstring) : json :=
  JObject
    [(lit "title", JString (fallbackTitle content));
     (lit "subject", JString (lit "General"));
     (lit "topic", JString (lit "Automated Analysis"));
     (lit "difficulty", JString (lit "Medium"))].

(** [value || fallback] on a parsed value. *)
Definition orFallback (n : Normalized json) (fallback : json) : Normalized json :=
  match n with
  | Value v => if truthy v then Value v else Value fallback
  | Null => Value fallback
  | NotModelled => NotModelled
  end.

Definition suggestMetadata (content : jsstring) : Async (Normalized json) :=
  let fallback := metadataFallback content in
  match ai with
  | None => ret (Value fallback)
  | Some client =>
      tryCatch
        (response <- models_generateContent client (metadataRequest content) ;;
         let metadata := parseJsonFromText (text response) in
         ret (orFallback metadata fallback))
        (fun error => ret (Value fallback))
  end.

Definition generateSummary (content : jsstring) : Async jsstring :=
  match ai with
  | None => ret summaryUnavailable
  | Some client =>
      if length content <? MIN_CONTENT_LENGTH_FOR_GENERATION
      then ret summaryTooShort
      else
        tryCatch
          (response <- models_generateContent client (summaryRequest content) ;;
           ret (text response))
          (fun error => ret summaryFailed)
  end.

Definition generateExplanation (content : jsstring) : Async jsstring :=
  match ai with
  | None => ret explanationUnavailable
  | Some client =>
      if length content <? MIN_CONTENT_LENGTH_FOR_GENERATION
      then ret explanationTooShort
      else
        tryCatch
          (response <- models_generateContent client (explanationRequest content) ;;
           ret (text response))
          (fun error => ret explanationFailed)
  end.

Definition generateNotes (content : jsstring) (length : NoteLength) : Async jsstring :=
  match ai with
  | None => throw apiKeyError
  | Some client =>
      response <- models_generateContent client (notesRequest content length) ;;
      ret (text response)
  end.

Definition generateQuizQuestions (content : jsstring) (count : Z)
  : Async (Normalized json) :=
  match ai with
  | None => throw apiKeyError
  | Some client =>
      response <- models_generateContent client (quizRequest content count) ;;
      let questions := parseJsonFromText (text response) in
      ret (orFallback questions (JArray []))
  end.

Definition generateFeedbackOnQuiz (score total : Z) (content : option jsstring)
  : Async AiGeneratedFeedback :=
  match ai with
  | None =>
      ret {| feedbackText := feedbackUnavailable |}
  | Some client =>
      response <- models_generateContent client (feedbackRequest score total content) ;;
      ret {| feedbackText := text response |}
  end.

Definition generatePresentationContent (explanation : jsstring)
  : Async (Normalized PresentationContent.t) :=
  match ai with
  | None => throw apiKeyError
  | Some client =>
      tryCatch
        (response <- withRetry
           (models_generateContent client (presentationRequest explanation))
           4 1000 None ;;
         ret (readAs readPresentation (parseJsonFromText (text response))))
        (fun error => ret Null)
  end.

Definition generateBlockDiagram (explanation : jsstring) : Async (option jsstring) :=
  match ai with
  | None => ret None
  | Some client =>
      response <- models_generateContent client (blockDiagramRequest explanation) ;;
      ret (parseMermaidFromText (text response))
  end.

(* =================================================================== *)
(** * Media enrichment *)
(* =================================================================== *)

Definition hexUpper (n : nat) : ascii :=
  if n <? 10 then ascii_of_nat (48 + n) else ascii_of_nat (55 + n).

Definition percentByte (n : nat) : jsstring :=
  ["%"%char; hexUpper (n / 16); hexUpper (n mod 16)].

Definition isUriUnreserved (c : ascii) : bool :=
  isWordChar c || existsb (Ascii.eqb c) (lit "-.!~*'()").

(** The code units D800 to DBFF and DC00 to DFFF. *)
Definition isLeadSurrogate (u : N) : bool := ((55296 <=? u) && (u <=? 56319))%N.

Definition isTrailSurrogate (u : N) : bool := ((56320 <=? u) && (u <=? 57343))%N.

Definition isUnreservedUnit (u : N) : bool :=
  (u <? 128)%N && isUriUnreserved (ascii_of_N u).

(** The octets of the UTF-8 encoding of a code point. *)
Definition utf8Octets (cp : N) : list N :=
  (if cp <? 128 then [cp]
   else if cp <? 2048 then [192 + cp / 64; 128 + cp mod 64]
   else if cp <? 65536 then
     [224 + cp / 4096; 128 + (cp / 64) mod 64; 128 + cp mod 64]
   else
     [240 + cp / 262144; 128 + (cp / 4096) mod 64; 128 + (cp / 64) mod 64;
      128 + cp mod 64])%N.

Definition percentOctets (octets : list N) : jsstring :=
  flat_map (fun octet => percentByte (N.to_nat octet)) octets.

(** The code point of a surrogate pair. *)
Definition pairCodePoint (lead trail : N) : N :=
  (65536 + (lead - 55296) * 1024 + (trail - 56320))%N.

(** [encodeURIComponent], the operation Encode of the language: an
    unreserved character stays; any other code point, read from one code
    unit or from a surrogate pair, becomes the escaped octets of its UTF-8
    encoding; a surrogate that has no partner makes the function throw a
    URIError, which [None] stands for. *)
Fixpoint encodeURIComponent (s : wideString) : option jsstring :=
  match s with
  | [] => Some []
  | u :: rest =>
      if isUnreservedUnit u then
        option_map (cons (ascii_of_N u)) (encodeURIComponent rest)
      else if isLeadSurrogate u then
        match rest with
        | v :: rest' =>
            if isTrailSurrogate v then
              option_map (app (percentOctets (utf8Octets (pairCodePoint u v))))
                (encodeURIComponent rest')
            else None
        | [] => None
        end
      else if isTrailSurrogate u || (65536 <=? u)%N then None
      else option_map (app (percentOctets (utf8Octets u))) (encodeURIComponent rest)
  end.

Definition uriError : JsError := URIErrorObject (lit "URI malformed").

(** A call that gives a value or throws. *)
Definition orThrow {A} (e : JsError) (o : option A) : Async A :=
  match o with
  | Some a => ret a
  | None => throw e
  end.

Definition imagesRequest (prompt : wideString) : GenerateImagesParameters.t :=
  {| GenerateImagesParameters.model := GEMINI_API_PRO_IMAGE_MODEL;
     GenerateImagesParameters.prompt := prompt;
     GenerateImagesParameters.numberOfImages := 1;
     GenerateImagesParameters.outputMimeType := lit "image/jpeg";
     GenerateImagesParameters.aspectRatio := lit "16:9" |}.

(** [imageResponse.generatedImages?.[0]?.image] *)
Definition firstImage (imageResponse : GenerateImagesResponse) : option Image :=
  match generatedImages imageResponse with
  | Some (first :: _) => image first
  | _ => None
  end.

(** The data URL of an image whose [imageBytes] is a non-empty text. *)
Definition dataUrl (img : option Image) : option jsstring :=
  match img with
  | Some i =>
      match imageBytes i with
      | Some (b :: bytes) =>
          Some (lit "data:" ++ optionalText (mimeType i) ++ lit ";base64," ++ b :: bytes)
      | _ => None
      end
  | None => None
  end.

Definition natToString (n : nat) : jsstring := numberToString (Z.of_nat n).

(** The two local functions [getFallbackImageUrl]; [kind] is the text
    before the seed suffix.  A URIError of [encodeURIComponent] leaves the
    function as an exception. *)
Definition fallbackImageUrl (kind : jsstring) (prompt : wideString)
  (seedSuffix : jsstring) : Async jsstring :=
  encoded <- orThrow uriError (encodeURIComponent prompt) ;;
  seed <- orThrow uriError (encodeURIComponent (widen (kind ++ seedSuffix))) ;;
  ret (lit "https://image.pollinations.ai/prompt/" ++ encoded ++
       lit "?width=1280&height=720&seed=" ++ seed).

Variable runtime : Runtime.
Variable onProgress : jsstring -> Async unit.

Section PresentationImages.
Definition getFallbackImageUrl (prompt : wideString) (seedSuffix : jsstring)
  : Async jsstring :=
  fallbackImageUrl (lit "presentation-") prompt seedSuffix.

(** The branch without a client: every slide takes the fallback URL, made
    in the order of the slides. *)
Fixpoint fallbackSlides (slides : list SlideContent.t) (idx : nat)
  : Async (list SlideContent.t) :=
  match slides with
  | [] => ret []
  | slide :: rest =>
      now <- Date_now runtime ;;
      url <- getFallbackImageUrl (SlideContent.imagePrompt slide)
               (natToString idx ++ lit "-" ++ numberToString now) ;;
      let updated := slideWithImageUrl slide url in
      others <- fallbackSlides rest (S idx) ;;
      ret (updated :: others)
  end.

Definition randomFallbackUrl (prompt : wideString) (i : nat) : Async jsstring :=
  suffix <- Math_random_suffix runtime ;;
  getFallbackImageUrl prompt (natToString i ++ lit "-" ++ suffix).

(** The try statement of the loop body: it leaves [updatedSlides] with
    one more slide, unless the fallback URL cannot be made. *)
Definition slideVisual (client : GoogleGenAI) (slide : SlideContent.t) (i : nat)
  (updatedSlides : list SlideContent.t) : Async (list SlideContent.t) :=
  tryCatch
    (imageResponse <-
       withRetry
         (models_generateImages client
            (imagesRequest (SlideContent.imagePrompt slide)))
         3 1000
         (Some (fun attempt delay =>
            onProgress (lit "Rate limit on slide " ++ natToString (i + 1) ++
                        lit ". Retrying in " ++ numberToString (delay / 1000) ++
                        lit "s..."))) ;;
     imageUrl <-
       match dataUrl (firstImage imageResponse) with
       | Some url => ret url
       | None => randomFallbackUrl (SlideContent.imagePrompt slide) i
       end ;;
     ret (updatedSlides ++ [slideWithImageUrl slide imageUrl]))
    (fun error =>
       url <- randomFallbackUrl (SlideContent.imagePrompt slide) i ;;
       ret (updatedSlides ++ [slideWithImageUrl slide url])).

(** The for loop over the slides; [total] is [slides.length]. *)
Fixpoint slidesLoop (client : GoogleGenAI) (total : nat)
  (remaining : list SlideContent.t) (i : nat) (updatedSlides : list SlideContent.t)
  : Async (list SlideContent.t) :=
  match remaining with
  | [] => ret updatedSlides
  | slide :: rest =>
      (if 0 <? i then sleep 1000 else ret tt) ;;;
      onProgress (lit "Creating visual for slide " ++ natToString (i + 1) ++
                  lit " of " ++ natToString total ++ lit "...") ;;;
      updatedSlides' <- slideVisual client slide i updatedSlides ;;
      onProgress (lit "Visuals processing complete for " ++ natToString (i + 1) ++
                  lit "/" ++ natToString total ++ lit " slides.") ;;;
      slidesLoop client total rest (S i) updatedSlides'
  end.

Definition generatePresentationImages (presentation : PresentationContent.t)
  : Async PresentationContent.t :=
  match ai with
  | None =>
      (* Fallback entirely to Pollinations if API is unavailable *)
      updatedSlides <- fallbackSlides (PresentationContent.slides presentation) 0 ;;
      onProgress (lit "Using fallback image provider.") ;;;
      ret (presentationWithSlides presentation updatedSlides)
  | Some client =>
      onProgress (lit "Starting visual generation for slides...") ;;;
      let slides := PresentationContent.slides presentation in
      updatedSlides <- slidesLoop client (length slides) slides 0 [] ;;
      onProgress (lit "Visual generation complete!") ;;;
      ret (presentationWithSlides presentation updatedSlides)
  end.
End PresentationImages.

Section VideoAssets.
Definition sceneFallbackUrl (prompt : wideString) (i : nat) : Async jsstring :=
  suffix <- Math_random_suffix runtime ;;
  fallbackImageUrl (lit "video-") prompt (natToString i ++ lit "-" ++ suffix).

Definition sceneVisual (client : GoogleGenAI) (sceneData : VideoScene.t) (i : nat)
  (generatedScenes : list VideoScene.t) : Async (list VideoScene.t) :=
  tryCatch
    (imageResponse <-
       withRetry
         (models_generateImages client
            (imagesRequest (VideoScene.imagePrompt sceneData)))
         3 1000
         (Some (fun attempt delay =>
            onProgress (lit "Rate limit hit on scene " ++ natToString (i + 1) ++
                        lit ". Retrying in " ++ numberToString (delay / 1000) ++
                        lit "s..."))) ;;
     imageUrl <-
       match dataUrl (firstImage imageResponse) with
       | Some url => ret url
       | None => sceneFallbackUrl (VideoScene.imagePrompt sceneData) i
       end ;;
     ret (generatedScenes ++ [sceneWithImageUrl sceneData imageUrl]))
    (fun error =>
       url <- sceneFallbackUrl (VideoScene.imagePrompt sceneData) i ;;
       ret (generatedScenes ++ [sceneWithImageUrl sceneData url])).

Fixpoint scenesLoop (client : GoogleGenAI) (total : nat)
  (remaining : list VideoScene.t) (i : nat) (generatedScenes : list VideoScene.t)
  : Async (list VideoScene.t) :=
  match remaining with
  | [] => ret generatedScenes
  | sceneData :: rest =>
      (if 0 <? i then sleep 1000 else ret tt) ;;;
      onProgress (lit "Creating visual for scene " ++ natToString (i + 1) ++
                  lit " of " ++ natToString total ++ lit "...") ;;;
      generatedScenes' <- sceneVisual client sceneData i generatedScenes ;;
      scenesLoop client total rest (S i) generatedScenes'
  end.

Definition generateVideoAssets (explanation : jsstring)
  : Async (Normalized (list VideoScene.t)) :=
  match ai with
  | None =>
      onProgress (lit "Using fallback image provider for scenes.") ;;;
      ret Null
  | Some client =>
      onProgress (lit "Generating video script and image prompts...") ;;;
      tryCatch
        (response <- models_generateContent client (videoScriptRequest explanation) ;;
         match readAs readScenes (parseJsonFromText (text response)) with
         | Value (first :: others) =>
             let scenesData := first :: others in
             generatedScenes <- scenesLoop client (length scenesData) scenesData 0 [] ;;
             onProgress (lit "Video generation complete!") ;;;
             ret (Value generatedScenes)
         | Value [] | Null =>
             onProgress (lit "Error: Could not generate video script.") ;;;
             ret Null
         | NotModelled => ret NotModelled
         end)
        (fun error =>
           onProgress (lit "Error: A problem occurred during video generation.") ;;;
           ret Null)
  end.
End VideoAssets.
End Service.

Unset Implicit Arguments.

(* ===================================================================== *)
(** * Vocabulary of the properties *)
(* ===================================================================== *)

(** ** The retry executor *)

(** The classification made by the catch clause of [withRetry]: an error is
    transient when its serialization is a text that holds one of the four
    markers, fatal when it is a text that holds none. *)
Definition classifiedTransient (err : JsError) : bool :=
  match JSON_stringify_error err with
  | SerText errorMessage => isRateLimitText errorMessage
  | SerUndefined | SerThrows => false
  end.

Definition classifiedFatal (err : JsError) : bool :=
  match JSON_stringify_error err with
  | SerText errorMessage => negb (isRateLimitText errorMessage)
  | SerUndefined | SerThrows => false
  end.

(** The two observers the properties are stated for: the recording one, or
    none. *)
Definition retryObserver (observed : bool) : option (nat -> Z -> Async unit) :=
  if observed then Some recordRetry else None.

(** The events, oldest first, of [k] failed attempts that are retried,
    starting behind [attempt] earlier attempts with the delay [delay]. *)
Fixpoint backoffEvents (observed : bool) (attempt : nat) (delay : Z) (k : nat)
  : list Event :=
  match k with
  | O => []
  | S k' =>
      EvInvoke ::
      (if observed then [EvRetry (S attempt) delay] else []) ++
      EvSleep delay :: backoffEvents observed (S attempt) (delay * 2) k'
  end.

(** The time slept before the [n]-th invocation, over events listed oldest
    first. *)
Fixpoint sleptBeforeIn (n : nat) (events : list Event) : Z :=
  match events with
  | [] => 0
  | EvInvoke :: r =>
      match n with
      | S (S n') => sleptBeforeIn (S n') r
      | _ => 0
      end
  | EvSleep ms :: r => ms + sleptBeforeIn n r
  | _ :: r => sleptBeforeIn n r
  end.

Definition sleptBefore (n : nat) (w : Trace) : Z := sleptBeforeIn n (rev w).

(** ** Media enrichment *)

(** An observer that returns to its caller whatever it is told. *)
Definition observerReturns (onProgress : jsstring -> Async unit) : Prop :=
  forall message w, exists w', onProgress message w = (Resolved tt, w').

(** A client whose image generation rejects every request. *)
Definition imagesAlwaysFail (client : GoogleGenAI) : Prop :=
  forall w request, exists e, generateImages client w request = Rejected e.

(** Every image generation attempt fails: there is no client, or its image
    generation rejects every request. *)
Definition providerFails (ai : option GoogleGenAI) : Prop :=
  match ai with
  | Some client => imagesAlwaysFail client
  | None => True
  end.

(** Two slides that differ at most in their [imageUrl]. *)
Definition sameSlideText (a b : SlideContent.t) : Prop :=
  SlideContent.title a = SlideContent.title b /\
  SlideContent.content a = SlideContent.content b /\
  SlideContent.imagePrompt a = SlideContent.imagePrompt b.

(** What the loop does to one slide: the same slide with an image URL that
    satisfies [P]. *)
Definition enrichedWith (P : SlideContent.t -> jsstring -> Prop)
  (input output : SlideContent.t) : Prop :=
  exists url, output = slideWithImageUrl input url /\ P input url.

(** The characters that [encodeURIComponent] leaves in its result: the
    unreserved ones and the percent sign of an escape. *)
Definition urlSafe (c : ascii) : bool := isUriUnreserved c || Ascii.eqb c "%"%char.

(** ** Reading an escaped text back

    The way back from the result of [encodeURIComponent]: the octets that
    the escapes and the plain characters stand for, and the code units
    that these octets encode. *)

Fixpoint unescapeOctets (s : jsstring) : option (list N) :=
  match s with
  | [] => Some []
  | c :: rest =>
      if Ascii.eqb c "%"%char then
        match rest with
        | h :: l :: rest' =>
            match hexValue h, hexValue l with
            | Some a, Some b =>
                option_map (cons (N.of_nat (16 * a + b))) (unescapeOctets rest')
            | _, _ => None
            end
        | _ => None
        end
      else option_map (cons (N_of_ascii c)) (unescapeOctets rest)
  end.

(** The code units of a code point. *)
Definition codeUnits (cp : N) : wideString :=
  (if cp <? 65536 then [cp]
   else [55296 + (cp - 65536) / 1024; 56320 + (cp - 65536) mod 1024])%N.

Fixpoint utf8Units (octets : list N) : option wideString :=
  match octets with
  | [] => Some []
  | a :: r1 =>
      (if a <? 128 then option_map (app (codeUnits a)) (utf8Units r1)
       else if a <? 224 then
         match r1 with
         | b :: r2 =>
             option_map (app (codeUnits ((a - 192) * 64 + (b - 128)))) (utf8Units r2)
         | _ => None
         end
       else if a <? 240 then
         match r1 with
         | b :: c :: r3 =>
             option_map
               (app (codeUnits ((a - 224) * 4096 + (b - 128) * 64 + (c - 128))))
               (utf8Units r3)
         | _ => None
         end
       else
         match r1 with
         | b :: c :: d :: r4 =>
             option_map
               (app (codeUnits ((a - 240) * 262144 + (b - 128) * 4096 +
                                (c - 128) * 64 + (d - 128))))
               (utf8Units r4)
         | _ => None
         end)%N
  end.

Definition readBack (s : jsstring) : option wideString :=
  match unescapeOctets s with
  | Some octets => utf8Units octets
  | None => None
  end.

(** [String.prototype.isWellFormed]: no surrogate without its partner. *)
Fixpoint isWellFormed (s : wideString) : bool :=
  match s with
  | [] => true
  | u :: rest =>
      if isLeadSurrogate u then
        match rest with
        | v :: rest' => isTrailSurrogate v && isWellFormed rest'
        | [] => false
        end
      else negb (isTrailSurrogate u) && (u <? 65536)%N && isWellFormed rest
  end.

Definition wellFormedPrompts (slides : list SlideContent.t) : Prop :=
  Forall (fun slide => isWellFormed (SlideContent.imagePrompt slide) = true) slides.

Definition illFormedPrompt (slide : SlideContent.t) : Prop :=
  isWellFormed (SlideContent.imagePrompt slide) = false.

(** A URL of the fallback image service for [prompt]: the address of the
    service, the prompt as [encodeURIComponent] escapes it, from which the
    prompt can be read back, the fixed dimensions, and a seed that is the
    escaped text of [kind] and some suffix. *)
Definition fallbackUrl (kind : jsstring) (prompt : wideString) (url : jsstring) : Prop :=
  exists encoded seedSuffix seed,
    encodeURIComponent prompt = Some encoded /\
    readBack encoded = Some prompt /\
    encodeURIComponent (widen (kind ++ seedSuffix)) = Some seed /\
    url = lit "https://image.pollinations.ai/prompt/" ++ encoded ++
          lit "?width=1280&height=720&seed=" ++ seed.

(** A non-empty fallback URL made from the [imagePrompt] of [slide]. *)
Definition isFallbackUrl (slide : SlideContent.t) (url : jsstring) : Prop :=
  url <> [] /\
  fallbackUrl (lit "presentation-") (SlideContent.imagePrompt slide) url.

(** ** The JSON normalizer *)

(** A fenced code block around [body], with the language tag [tag]. *)
Definition fenced (tag body : jsstring) : jsstring :=
  lit "```" ++ tag ++ newline :: body ++ newline :: lit "```".

(** Whether the comma repair finds a place to apply in [s]. *)
Fixpoint repairApplies (s : jsstring) : bool :=
  match repairMatchAt s with
  | Some _ => true
  | None => match s with [] => false | _ :: r => repairApplies r end
  end.

(** A text with a first and a last character that are not white space. *)
Definition solid (s : jsstring) : Prop :=
  (exists c r, s = c :: r /\ isWhiteSpace c = false) /\
  (exists r c, s = r ++ [c] /\ isWhiteSpace c = false).

(** The closing part of both fence expressions: an optional line feed,
    white space and the fence. *)
Definition closing : list Item := [IOptChar (Chr newline); IStar Space false] ++ fence.

(** The characters a serialized value can start with. *)
Definition valueStart (c : ascii) : bool :=
  isDigit c || existsb (Ascii.eqb c) (dquote :: lit "-[{tfn").

(** The text of one member of a serialized object. *)
Definition memberText (kv : jsstring * json) : jsstring :=
  quoteJSONString (fst kv) ++ ":"%char :: JSON_stringify (snd kv).

Definition wellFormedMember (kv : jsstring * json) : bool := wellFormed (snd kv).

(** Text that cannot continue a number: it starts neither with a digit nor
    with a fraction or an exponent. *)
Definition noDigitAhead (rest : jsstring) : Prop :=
  match rest with
  | [] => True
  | c :: _ => isDigit c = false
  end.

Definition endsNumber (rest : jsstring) : Prop :=
  noDigitAhead rest /\ startsFraction rest = false.

(** A parsing step on [s] that ends within its fuel and, when it gives a
    value, leaves less text than it was given. *)
Definition consumes {A} (p : Parse A) (s : jsstring) : Prop :=
  match p with
  | Parsed _ rest => length rest < length s
  | OutOfFuel => False
  | SyntaxError | Unmodelled => True
  end.

(** ** Sample data *)

Definition rateLimited : JsError :=
  Thrown 0 (SerText (lit "{code:429,status:RESOURCE_EXHAUSTED}")).

Definition unauthorized : JsError :=
  Thrown 1 (SerText (lit "{code:401,status:UNAUTHENTICATED}")).

(** A client whose calls are all rejected with an authentication error. *)
Definition offline : GoogleGenAI :=
  {| generateContent := fun _ _ => Rejected unauthorized;
     generateImages := fun _ _ => Rejected unauthorized |}.

(** A client whose image generation succeeds and fails in turn. *)
Definition sampleImages : GoogleGenAI :=
  {| generateContent := fun _ _ => Rejected unauthorized;
     generateImages := fun w _ =>
       if Nat.even (length w) then
         Resolved {| generatedImages :=
           Some [{| image := Some {| imageBytes := Some (lit "QUJD");
                                     mimeType := Some (lit "image/jpeg") |} |}] |}
       else Rejected rateLimited |}.

Definition sampleRuntime : Runtime :=
  {| clock := fun w => Z.of_nat (length w);
     randomBase36 := fun w => natToString (length w) |}.

Definition sampleContent : jsstring :=
  lit "Photosynthesis turns light into chemical energy.".

Definition sampleSlide (prompt : wideString) : SlideContent.t :=
  {| SlideContent.title := lit "Light"; SlideContent.content := [lit "Energy"];
     SlideContent.imagePrompt := prompt; SlideContent.imageUrl := None |}.

Definition samplePresentation : PresentationContent.t :=
  {| PresentationContent.title := lit "Photosynthesis";
     PresentationContent.slides :=
       [sampleSlide (widen (lit "a leaf")); sampleSlide (widen (lit "the sun"))] |}.

(** A presentation whose second image prompt ends in a lead surrogate that
    has no partner: the text of a JSON string that was cut in the middle of
    a character outside the basic plane. *)
Definition cutPrompt : wideString := widen (lit "a leaf ") ++ [55356%N].

Definition cutPresentation : PresentationContent.t :=
  {| PresentationContent.title := lit "Photosynthesis";
     PresentationContent.slides :=
       [sampleSlide (widen (lit "the sun")); sampleSlide cutPrompt] |}.

Definition braces : json := JString (lit "}{").

Definition sampleValue : json :=
  JObject
    [(lit "title", JString (lit "Light {and} shade"));
     (lit "slides", JArray [JNumber 1; JNumber (-20); JBool true; JNull; JObject []])].

Definition objectA : json := JObject [(lit "a", JNumber 1)].

Definition objectB : json := JObject [(lit "b", JNumber 2)].

(** ** Proof steps used more than once *)

Ltac each_ascii c :=
  destruct c as [[] [] [] [] [] [] [] []].

Ltac flatten_app := repeat first [rewrite <- List.app_assoc | progress cbn [app]].

(** Arithmetic with quotients and remainders by constants. *)
Ltac euclid := zify; Z.to_euclidean_division_equations; lia.

(* ===================================================================== *)
(** * The store of study materials

    The provider of [UploadedContentContext]: the state it holds, how it
    is read from [localStorage] when the provider starts, the text its
    effects write back, and the operations it hands to the pages. *)
(* ===================================================================== *)

(** A study material or a quiz as the provider holds it: an object, given
    by its own properties in their order.  The state is written as JSON
    and read back from JSON, so the values of the properties are JSON
    values; a property whose value is [undefined] is outside the
    embedding. *)
Definition JsObject := list (jsstring * json).

Definition LOCAL_STORAGE_CONTENT_KEY : jsstring := lit "ameenaAiContent".
Definition LOCAL_STORAGE_QUIZZES_KEY : jsstring := lit "ameenaAiQuizzes".

(** [localStorage] as the provider reads it: [getItem] is the application
    of the storage to a key. *)
Definition Storage := jsstring -> option jsstring.

Definition removeItem (key : jsstring) (localStorage : Storage) : Storage :=
  fun k => if jsEqb k key then None else localStorage k.

(** The initializer of a piece of state:
    [saved ? JSON.parse(saved) : []] inside a try statement whose catch
    clause removes the item and gives the empty array.  It gives the state
    and the storage it leaves. *)
Definition initialState (key : jsstring) (localStorage : Storage)
  : Normalized json * Storage :=
  match localStorage key with
  | Some (c :: saved) =>
      match JSON_parse (c :: saved) with
      | Parsed v _ => (Value v, localStorage)
      | SyntaxError => (Value (JArray []), removeItem key localStorage)
      | Unmodelled | OutOfFuel => (NotModelled, localStorage)
      end
  | Some [] | None => (Value (JArray []), localStorage)
  end.

(** The text an effect hands to [localStorage.setItem] for a state. *)
Definition savedText (state : list JsObject) : jsstring :=
  JSON_stringify (JArray (map JObject state)).

(** The spread [{...target, ...source}] of two objects. *)
Definition assign (target source : JsObject) : JsObject :=
  fold_left (fun acc kv => defineProperty acc (fst kv) (snd kv)) source target.

(** [object[name] === value] for a text [value]. *)
Definition propertyIs (name value : jsstring) (object : JsObject) : bool :=
  match lookupMember name object with
  | Some (JString s) => jsEqb s value
  | _ => false
  end.

Definition addContent (content : JsObject) (prev : list JsObject) : list JsObject :=
  let newMaterial := defineProperty content (lit "chatHistory") (JArray []) in
  prev ++ [newMaterial].

Definition updateStudyMaterial (materialId : jsstring) (updates : JsObject)
  (prev : list JsObject) : list JsObject :=
  map (fun material =>
         if propertyIs (lit "id") materialId material
         then assign material updates
         else material)
      prev.

Definition getStudyMaterialById (studyMaterials : list JsObject) (id : jsstring)
  : option JsObject :=
  find (propertyIs (lit "id") id) studyMaterials.

Definition addQuizResult (contentId : jsstring) (quizResult : JsObject)
  (prevQuizzes : list JsObject) : list JsObject :=
  prevQuizzes ++ [quizResult].

Definition getQuizzesForContent (allQuizzes : list JsObject) (contentId : jsstring)
  : list JsObject :=
  filter (propertyIs (lit "contentId") contentId) allQuizzes.

(* ===================================================================== *)
(** * Further vocabulary *)
(* ===================================================================== *)

(** A text of white space only. *)
Definition allSpaces (s : jsstring) : bool := forallb isWhiteSpace s.

(** A text that starts with one of the two graph declarations. *)
Definition startsGraph (s : jsstring) : bool :=
  startsWith s (lit "graph TD") || startsWith s (lit "graph LR").

Definition sampleDiagram : jsstring :=
  lit "graph TD
  A --> B".

(** What the diagram pattern asks for behind the line feed that ends the
    opening line: the body, a line feed, white space, the closing fence. *)
Definition mermaidBody : list Item :=
  [ILazy AnyChar true; IChar (Chr newline); IStar Space false] ++ fence.

(** ** Counting what an operation did *)

(** A call of a collaborator. *)
Definition isCall (ev : Event) : bool :=
  match ev with
  | EvInvoke | EvGenerateContent _ | EvGenerateImages _ => true
  | _ => false
  end.

Fixpoint calls (w : Trace) : nat :=
  match w with
  | [] => 0
  | ev :: r => (if isCall ev then 1 else 0) + calls r
  end.

Fixpoint sleeps (w : Trace) : nat :=
  match w with
  | [] => 0
  | EvSleep _ :: r => S (sleeps r)
  | _ :: r => sleeps r
  end.

Fixpoint totalSlept (w : Trace) : Z :=
  match w with
  | [] => 0
  | EvSleep ms :: r => ms + totalSlept r
  | _ :: r => totalSlept r
  end.

(** An operation that calls a collaborator once each time it is invoked,
    and does nothing else. *)
Definition oneCall {T} (fn : Async T) : Prop :=
  forall w, exists ev, snd (fn w) = ev :: w /\ isCall ev = true.

(** A step that returns without a call and without a sleep. *)
Definition quiet (m : Async unit) : Prop :=
  forall w, exists added,
    m w = (Resolved tt, added ++ w) /\
    calls added = 0 /\ sleeps added = 0 /\ totalSlept added = 0%Z.

Definition quietObserver (onRetry : option (nat -> Z -> Async unit)) : Prop :=
  match onRetry with
  | Some callback => forall attempt delay, quiet (callback attempt delay)
  | None => True
  end.

(** The error the caller of [withRetry] sees when the catch clause gives up
    on [err]: [err] itself when it has a serialization, and the error of
    the catch clause otherwise. *)
Definition surfaced (err : JsError) : JsError :=
  match JSON_stringify_error err with
  | SerText _ => err
  | SerUndefined =>
      TypeErrorObject (lit "Cannot read properties of undefined (reading 'includes')")
  | SerThrows => TypeErrorObject (lit "Converting circular structure to JSON")
  end.

Definition settlesAs {T} (o last : Outcome T) : Prop :=
  match last with
  | Resolved v => o = Resolved v
  | Rejected err => o = Rejected (surfaced err)
  end.

(** A client that answers every text request with the same text. *)
Definition answering (answer : jsstring) : GoogleGenAI :=
  {| generateContent := fun _ _ => Resolved {| text := answer |};
     generateImages := fun _ _ => Rejected unauthorized |}.

(** An observer of the progress that only looks on. *)
Definition quietProgress (onProgress : jsstring -> Async unit) : Prop :=
  forall message, quiet (onProgress message).

(** What the visual loop does to one scene: the same scene with a
    non-empty image URL. *)
Definition sceneEnriched (input output : VideoScene.t) : Prop :=
  exists url, output = sceneWithImageUrl input url /\ url <> [].

(** The pauses of the loop over [n] items that starts at the index [i]: one
    before every item but the first of the document. *)
Definition pauses (i n : nat) : nat := if 0 <? i then n else n - 1.

Definition isResolved {A} (o : Outcome A) : bool :=
  match o with Resolved _ => true | Rejected _ => false end.

(** A client that replies with a script of two scenes and whose image
    generation fails. *)
Definition scriptWriter : GoogleGenAI :=
  answering
    (JSON_stringify
       (JArray
          [JObject [(lit "script", JString (lit "Light falls on a leaf."));
                    (lit "imagePrompt", JString (lit "a leaf in the sun"))];
           JObject [(lit "script", JString (lit "The leaf makes sugar."));
                    (lit "imagePrompt", JString (lit "a green cell"))]])).

(** ** The store of study materials *)

(** A state that can be written as JSON and read back: objects with
    distinct keys and values of the embedding. *)
Definition persistable (state : list JsObject) : Prop :=
  wellFormed (JArray (map JObject state)) = true.

Definition sampleMaterial (id title : string) : JsObject :=
  [(lit "id", JString (lit id)); (lit "type", JString (lit "text"));
   (lit "title", JString (lit title));
   (lit "extractedText", JString (lit "Light {and} shade"))].

Definition sampleQuiz (id contentId : string) (score : Z) : JsObject :=
  [(lit "id", JString (lit id)); (lit "contentId", JString (lit contentId));
   (lit "questions", JArray []); (lit "score", JNumber score)].

(* ===================================================================== *)
(** * The retry executor: properties *)
(* ===================================================================== *)

Lemma invocations_app : forall a b, invocations (a ++ b) = invocations a + invocations b.
Proof.
  induction a as [|ev a IH]; intros b; simpl; [reflexivity|].
  destruct ev; simpl; rewrite ?IH; reflexivity.
Qed.

Lemma invocations_rev : forall a, invocations (rev a) = invocations a.
Proof.
  induction a as [|ev a IH]; simpl; [reflexivity|].
  rewrite invocations_app, IH. destruct ev; simpl; lia.
Qed.

Lemma invocations_backoff : forall observed k attempt delay,
  invocations (backoffEvents observed attempt delay k) = k.
Proof.
  induction k as [|k IH]; intros attempt delay; simpl; [reflexivity|].
  rewrite invocations_app. destruct observed; simpl; rewrite IH; reflexivity.
Qed.

(** One failed attempt that is classified transient while attempts remain:
    the observer is told, the loop sleeps and goes on with twice the delay. *)
Lemma catchClause_transient :
  forall maxAttempts observed attempt delay err w,
    classifiedTransient err = true ->
    attempt < maxAttempts ->
    catchClause maxAttempts (retryObserver observed) attempt delay err w =
    (Resolved tt,
     EvSleep delay :: (if observed then [EvRetry attempt delay] else []) ++ w).
Proof.
  intros M observed attempt delay err w Htr Hlt.
  unfold catchClause, classifiedTransient in *.
  destruct (JSON_stringify_error err) as [s| |]; try discriminate.
  rewrite Htr. apply Nat.ltb_lt in Hlt. rewrite Hlt. simpl.
  destruct observed; reflexivity.
Qed.

Lemma catchClause_gives_up :
  forall maxAttempts onRetry attempt delay err s w,
    JSON_stringify_error err = SerText s ->
    isRateLimitText s && (attempt <? maxAttempts) = false ->
    catchClause maxAttempts onRetry attempt delay err w = (Rejected err, w).
Proof.
  intros M onRetry attempt delay err s w Hs Hno.
  unfold catchClause. rewrite Hs, Hno. reflexivity.
Qed.

(** [k] transient failures in a row, with attempts to spare, take the loop
    [k] rounds further. *)
Lemma retryLoop_backoff :
  forall T (outcomes : nat -> Outcome T) maxAttempts observed (errs : nat -> JsError) k
         remaining attempt delay w,
    (forall j, j < k ->
       outcomes (invocations w + j) = Rejected (errs j) /\
       classifiedTransient (errs j) = true) ->
    attempt + k < maxAttempts ->
    k <= remaining ->
    retryLoop (scripted outcomes) maxAttempts (retryObserver observed)
      remaining attempt delay w =
    retryLoop (scripted outcomes) maxAttempts (retryObserver observed)
      (remaining - k) (attempt + k) (delay * 2 ^ Z.of_nat k)
      (rev (backoffEvents observed attempt delay k) ++ w).
Proof.
  intros T outcomes M observed errs k.
  revert errs.
  induction k as [|k IH]; intros errs remaining attempt delay w Hfail Hlt Hle.
  - simpl. rewrite Nat.sub_0_r, Nat.add_0_r, Z.mul_1_r. reflexivity.
  - destruct remaining as [|remaining]; [lia|].
    destruct (Hfail 0 ltac:(lia)) as [H0 Ht0].
    rewrite Nat.add_0_r in H0.
    cbn [retryLoop]. unfold scripted at 1. rewrite H0.
    rewrite (catchClause_transient M observed (S attempt) delay (errs 0)
               (EvInvoke :: w) Ht0 ltac:(lia)).
    rewrite (IH (fun j => errs (S j)) remaining (S attempt) (delay * 2)%Z).
    + replace (S remaining - S k) with (remaining - k) by lia.
      replace (S attempt + k) with (attempt + S k) by lia.
      replace (delay * 2 * 2 ^ Z.of_nat k)%Z with (delay * 2 ^ Z.of_nat (S k))%Z.
      2:{ rewrite Nat2Z.inj_succ, Z.pow_succ_r by lia. ring. }
      f_equal.
      cbn [backoffEvents]. cbn [rev].
      rewrite !rev_app_distr. cbn [rev app].
      rewrite <- !app_assoc. f_equal.
      destruct observed; reflexivity.
    + intros j Hj.
      destruct (Hfail (S j) ltac:(lia)) as [Hj1 Hj2]. split; [|exact Hj2].
      rewrite <- Hj1. f_equal.
      destruct observed; simpl; lia.
    + lia.
    + lia.
Qed.

Lemma sleptBeforeIn_backoff :
  forall observed k n attempt delay,
    1 <= n <= S k ->
    sleptBeforeIn n (backoffEvents observed attempt delay k ++ [EvInvoke]) =
    (delay * (2 ^ Z.of_nat (n - 1) - 1))%Z.
Proof.
  induction k as [|k IH]; intros n attempt delay Hn.
  - assert (n = 1) by lia. subst n. simpl. ring.
  - destruct n as [|[|n]]; [lia| simpl; ring |].
    cbn [backoffEvents app sleptBeforeIn].
    assert (Hstep :
      sleptBeforeIn (S n)
        (((if observed then [EvRetry (S attempt) delay] else []) ++
          EvSleep delay :: backoffEvents observed (S attempt) (delay * 2) k) ++ [EvInvoke]) =
      (delay + sleptBeforeIn (S n)
                 (backoffEvents observed (S attempt) (delay * 2) k ++ [EvInvoke]))%Z).
    { destruct observed; reflexivity. }
    rewrite Hstep, IH by lia.
    replace (S (S n) - 1) with (S (S n - 1)) by lia.
    rewrite Nat2Z.inj_succ, Z.pow_succ_r by lia. ring.
Qed.

(** C1.  An operation that fails with transiently classified errors on its
    first [k] invocations, [k] below [maxAttempts], and succeeds on the next
    one: [withRetry] resolves with the result of that invocation, after
    [k + 1] invocations, and the time slept before the [n]-th invocation is
    [initialDelay * (2 ^ (n - 1) - 1)]. *)
Theorem withRetry_returns_first_success :
  forall T (outcomes : nat -> Outcome T) (errs : nat -> JsError) (v : T)
         maxAttempts initialDelay observed k w,
    k < maxAttempts ->
    (forall j, j < k ->
       outcomes (invocations w + j) = Rejected (errs j) /\
       classifiedTransient (errs j) = true) ->
    outcomes (invocations w + k) = Resolved v ->
    exists added,
      withRetry (scripted outcomes) maxAttempts initialDelay (retryObserver observed) w =
      (Resolved v, added ++ w) /\
      invocations added = S k /\
      forall n, 1 <= n <= S k ->
        sleptBefore n added = (initialDelay * (2 ^ Z.of_nat (n - 1) - 1))%Z.
Proof.
  intros T outcomes errs v M d observed k w Hk Hfail Hok.
  exists (EvInvoke :: rev (backoffEvents observed 0 d k)).
  split; [|split].
  - unfold withRetry.
    rewrite (retryLoop_backoff T outcomes M observed errs k) by (assumption || lia).
    destruct (M - 0 - k) as [|remaining] eqn:Hrem; [lia|].
    cbn [retryLoop]. unfold scripted.
    rewrite invocations_app, invocations_rev, invocations_backoff.
    rewrite Nat.add_comm, Hok. reflexivity.
  - simpl. rewrite invocations_rev, invocations_backoff. reflexivity.
  - intros n Hn. unfold sleptBefore. cbn [rev]. rewrite rev_involutive.
    apply sleptBeforeIn_backoff. exact Hn.
Qed.

Lemma withRetry_returns_first_success_witness :
  exists added,
    withRetry (scripted (fun i => if i <? 2 then Rejected rateLimited else Resolved i))
      3 1000 (retryObserver true) [] = (Resolved 2, added ++ []) /\
    invocations added = 3 /\
    forall n, 1 <= n <= 3 -> sleptBefore n added = (1000 * (2 ^ Z.of_nat (n - 1) - 1))%Z.
Proof.
  apply (withRetry_returns_first_success nat
           (fun i => if i <? 2 then Rejected rateLimited else Resolved i)
           (fun _ => rateLimited) 2 3 1000 true 2 []).
  - lia.
  - intros j Hj. simpl. destruct j as [|[|j]]; [split; reflexivity | split; reflexivity | lia].
  - reflexivity.
Defined.

(** C4.  When the first failure of the operation is classified fatal, and at
    least one attempt is allowed, [withRetry] ends as that one invocation
    ends: with the same error and the same trace, so without a second
    invocation, a sleep or a call of the observer. *)
Theorem withRetry_fatal_once :
  forall T (fn : Async T) maxAttempts initialDelay onRetry w err w1,
    1 <= maxAttempts ->
    fn w = (Rejected err, w1) ->
    classifiedFatal err = true ->
    withRetry fn maxAttempts initialDelay onRetry w = (Rejected err, w1).
Proof.
  intros T fn M d onRetry w err w1 HM Hfn Hfatal.
  unfold withRetry. rewrite Nat.sub_0_r.
  destruct M as [|M]; [lia|].
  cbn [retryLoop]. rewrite Hfn.
  unfold classifiedFatal in Hfatal.
  destruct (JSON_stringify_error err) as [s| |] eqn:Hs; try discriminate.
  rewrite (catchClause_gives_up (S M) onRetry 1 d err s w1 Hs).
  - reflexivity.
  - apply negb_true_iff in Hfatal. rewrite Hfatal. reflexivity.
Qed.

Lemma withRetry_fatal_once_witness :
  withRetry (scripted (fun _ : nat => @Rejected nat unauthorized)) 3 1000
    (Some recordRetry) [] = (Rejected unauthorized, [EvInvoke]).
Proof.
  apply (withRetry_fatal_once nat (scripted (fun _ : nat => @Rejected nat unauthorized))
           3 1000 (Some recordRetry) [] unauthorized [EvInvoke]).
  - lia.
  - reflexivity.
  - reflexivity.
Defined.

(** The loop never invokes the operation more often than [remaining]. *)
Lemma retryLoop_ceiling :
  forall T (outcomes : nat -> Outcome T) maxAttempts observed remaining attempt delay w,
    invocations
      (snd (retryLoop (scripted outcomes) maxAttempts (retryObserver observed)
              remaining attempt delay w))
    <= invocations w + remaining.
Proof.
  intros T outcomes M observed.
  induction remaining as [|remaining IH]; intros attempt delay w.
  - simpl. lia.
  - cbn [retryLoop]. unfold scripted at 1.
    destruct (outcomes (invocations w)) as [v|err]; [simpl; lia|].
    unfold catchClause.
    destruct (JSON_stringify_error err) as [s| |]; try (simpl; lia).
    destruct (isRateLimitText s && (S attempt <? M)); [|simpl; lia].
    destruct observed; simpl.
    + eapply Nat.le_trans; [apply IH|]. simpl. lia.
    + eapply Nat.le_trans; [apply IH|]. simpl. lia.
Qed.

(** C5.  With three attempts allowed and transiently classified errors on
    the first three invocations, [withRetry] invokes the operation three
    times and rejects with the third error, whatever a fourth invocation
    would have given; and for every ceiling, the number of invocations stays
    within it. *)
Theorem withRetry_exhausts_at_ceiling :
  forall T (outcomes : nat -> Outcome T) (e1 e2 e3 : JsError) initialDelay observed,
    outcomes 0 = Rejected e1 -> classifiedTransient e1 = true ->
    outcomes 1 = Rejected e2 -> classifiedTransient e2 = true ->
    outcomes 2 = Rejected e3 -> classifiedTransient e3 = true ->
    (exists w',
       withRetry (scripted outcomes) 3 initialDelay (retryObserver observed) [] =
       (Rejected e3, w') /\
       invocations w' = 3) /\
    (forall maxAttempts w,
       invocations
         (snd (withRetry (scripted outcomes) maxAttempts initialDelay
                 (retryObserver observed) w))
       <= invocations w + maxAttempts).
Proof.
  intros T outcomes e1 e2 e3 d observed H1 T1 H2 T2 H3 T3.
  split.
  - exists (EvInvoke :: rev (backoffEvents observed 0 d 2) ++ []).
    unfold withRetry. change (3 - 0) with 3.
    rewrite (retryLoop_backoff T outcomes 3 observed
               (fun j => match j with 0 => e1 | _ => e2 end) 2 3 0 d []).
    + cbn [Nat.sub Nat.add retryLoop]. unfold scripted.
      rewrite invocations_app, invocations_rev, invocations_backoff. cbn [invocations Nat.add].
      rewrite H3.
      unfold classifiedTransient in T3.
      destruct (JSON_stringify_error e3) as [s| |] eqn:Hs; try discriminate.
      rewrite (catchClause_gives_up 3 (retryObserver observed) 3 _ e3 s _ Hs).
      * split; [reflexivity|]. cbn [invocations].
        rewrite List.app_nil_r, invocations_rev, invocations_backoff. reflexivity.
      * rewrite T3. reflexivity.
    + intros j Hj. destruct j as [|[|j]]; [split; assumption | split; assumption | lia].
    + lia.
    + lia.
  - intros M w. unfold withRetry. rewrite Nat.sub_0_r. apply retryLoop_ceiling.
Qed.

Lemma withRetry_exhausts_at_ceiling_witness :
  (exists w',
     withRetry (scripted (fun i => if i <? 3 then Rejected rateLimited else Resolved i))
       3 1000 (retryObserver true) [] = (Rejected rateLimited, w') /\
     invocations w' = 3) /\
  (forall maxAttempts w,
     invocations
       (snd (withRetry (scripted (fun i => if i <? 3 then Rejected rateLimited else Resolved i))
               maxAttempts 1000 (retryObserver true) w))
     <= invocations w + maxAttempts).
Proof.
  apply (withRetry_exhausts_at_ceiling nat
           (fun i => if i <? 3 then Rejected rateLimited else Resolved i)
           rateLimited rateLimited rateLimited 1000 true);
    reflexivity.
Defined.

(** Beside C4: what the loop does at the edges of its input.  No attempt is
    made when none is allowed, and a thrown value without a serialization
    makes the catch clause itself fail. *)
Lemma withRetry_no_attempt_allowed :
  forall T (fn : Async T) initialDelay onRetry w,
    withRetry fn 0 initialDelay onRetry w =
    (Rejected (ErrorObject (lit "Exceeded retry attempts.")), w).
Proof. reflexivity. Qed.

Lemma withRetry_unserializable :
  forall T (fn : Async T) maxAttempts initialDelay onRetry w tag w1,
    fn w = (Rejected (Thrown tag SerUndefined), w1) ->
    withRetry fn (S maxAttempts) initialDelay onRetry w =
    (Rejected (TypeErrorObject (lit "Cannot read properties of undefined (reading 'includes')")), w1).
Proof.
  intros T fn M d onRetry w tag w1 Hfn.
  unfold withRetry. cbn [Nat.sub retryLoop]. rewrite Hfn. reflexivity.
Qed.

(* ===================================================================== *)
(** * Content generation: properties *)
(* ===================================================================== *)

(** The feedback operation has no try statement: a rejected model call
    rejects the operation. *)
Lemma generateFeedbackOnQuiz_propagates :
  generateFeedbackOnQuiz (Some offline) 3 5 (Some sampleContent) [] =
  (Rejected unauthorized,
   [EvGenerateContent (feedbackRequest 3 5 (Some sampleContent))]).
Proof. reflexivity. Qed.

(** C2, amended.  [generateSummary] and [generateExplanation] resolve with a
    text for every client handle, input and outcome of the model call: the
    placeholder of the missing key, the message for a short input, the text
    of the response, or the placeholder of a failed call.
    [generateFeedbackOnQuiz] resolves with its placeholder when the key is
    missing and with the text of the response when the call resolves; when
    the call is rejected it rejects with the same error. *)
Theorem display_operations_policy :
  forall (ai : option GoogleGenAI) (content : jsstring) (score total : Z)
         (material : option jsstring) (w : Trace),
    (exists s w',
       generateSummary ai content w = (Resolved s, w') /\
       match ai with
       | None => s = summaryUnavailable
       | Some client =>
           if length content <? MIN_CONTENT_LENGTH_FOR_GENERATION then s = summaryTooShort
           else match generateContent client w (summaryRequest content) with
                | Resolved response => s = text response
                | Rejected _ => s = summaryFailed
                end
       end) /\
    (exists s w',
       generateExplanation ai content w = (Resolved s, w') /\
       match ai with
       | None => s = explanationUnavailable
       | Some client =>
           if length content <? MIN_CONTENT_LENGTH_FOR_GENERATION then s = explanationTooShort
           else match generateContent client w (explanationRequest content) with
                | Resolved response => s = text response
                | Rejected _ => s = explanationFailed
                end
       end) /\
    (exists w',
       match ai with
       | None =>
           generateFeedbackOnQuiz ai score total material w =
           (Resolved {| feedbackText := feedbackUnavailable |}, w')
       | Some client =>
           match generateContent client w (feedbackRequest score total material) with
           | Resolved response =>
               generateFeedbackOnQuiz ai score total material w =
               (Resolved {| feedbackText := text response |}, w')
           | Rejected e =>
               generateFeedbackOnQuiz ai score total material w = (Rejected e, w')
           end
       end).
Proof.
  intros ai content score total material w.
  destruct ai as [client|]; cbn [generateSummary generateExplanation generateFeedbackOnQuiz].
  - split; [|split].
    + destruct (length content <? MIN_CONTENT_LENGTH_FOR_GENERATION).
      * do 2 eexists. split; reflexivity.
      * unfold tryCatch, bind, models_generateContent, ret.
        destruct (generateContent client w (summaryRequest content));
          do 2 eexists; split; reflexivity.
    + destruct (length content <? MIN_CONTENT_LENGTH_FOR_GENERATION).
      * do 2 eexists. split; reflexivity.
      * unfold tryCatch, bind, models_generateContent, ret.
        destruct (generateContent client w (explanationRequest content));
          do 2 eexists; split; reflexivity.
    + unfold bind, models_generateContent, ret.
      destruct (generateContent client w (feedbackRequest score total material));
        eexists; reflexivity.
  - split; [|split].
    + do 2 eexists. split; reflexivity.
    + do 2 eexists. split; reflexivity.
    + eexists. reflexivity.
Qed.

(** [generatePresentationContent] has a try statement around its model call:
    a rejected call makes it resolve with [null]. *)
Lemma generatePresentationContent_swallows :
  generatePresentationContent (Some offline) sampleContent [] =
  (Resolved Null, [EvGenerateContent (presentationRequest sampleContent)]).
Proof. reflexivity. Qed.

(** An operation that always rejects makes [withRetry] reject, whatever the
    observer does. *)
Lemma retryLoop_rejects :
  forall T (fn : Async T) maxAttempts onRetry,
    (forall w, exists e w', fn w = (Rejected e, w')) ->
    forall remaining attempt delay w,
      exists e w',
        retryLoop fn maxAttempts onRetry remaining attempt delay w = (Rejected e, w').
Proof.
  intros T fn M onRetry Hfn.
  induction remaining as [|remaining IH]; intros attempt delay w.
  - do 2 eexists. reflexivity.
  - cbn [retryLoop].
    destruct (Hfn w) as [e [w1 E1]]. rewrite E1.
    destruct (catchClause M onRetry (S attempt) delay e w1) as [[u|e'] w2].
    + apply IH.
    + do 2 eexists. reflexivity.
Qed.

Lemma withRetry_rejects :
  forall T (fn : Async T) maxAttempts initialDelay onRetry,
    (forall w, exists e w', fn w = (Rejected e, w')) ->
    forall w, exists e w',
      withRetry fn maxAttempts initialDelay onRetry w = (Rejected e, w').
Proof.
  intros T fn M d onRetry Hfn w. unfold withRetry. apply retryLoop_rejects. exact Hfn.
Qed.

(** C6, amended.  When the model collaborator rejects its calls,
    [generateNotes] and [generateQuizQuestions] reject with the error of
    their call, and [generatePresentationContent] resolves with [null]; with
    a client at hand [generatePresentationContent] never rejects. *)
Theorem structural_operations_policy :
  forall (client : GoogleGenAI) (content explanation : jsstring)
         (length : NoteLength) (count : Z) (w : Trace),
    (forall w' request, exists e, generateContent client w' request = Rejected e) ->
    (exists e w',
       generateContent client w (notesRequest content length) = Rejected e /\
       generateNotes (Some client) content length w = (Rejected e, w')) /\
    (exists e w',
       generateContent client w (quizRequest content count) = Rejected e /\
       generateQuizQuestions (Some client) content count w = (Rejected e, w')) /\
    (exists w',
       generatePresentationContent (Some client) explanation w = (Resolved Null, w')) /\
    (forall (anyClient : GoogleGenAI) (w0 : Trace),
       exists r w',
         generatePresentationContent (Some anyClient) explanation w0 = (Resolved r, w')).
Proof.
  intros client content explanation len count w Hrej.
  split; [|split; [|split]].
  - destruct (Hrej w (notesRequest content len)) as [e He].
    exists e. eexists. split; [exact He|].
    cbn [generateNotes]. unfold bind, models_generateContent. rewrite He. reflexivity.
  - destruct (Hrej w (quizRequest content count)) as [e He].
    exists e. eexists. split; [exact He|].
    cbn [generateQuizQuestions]. unfold bind, models_generateContent. rewrite He. reflexivity.
  - cbn [generatePresentationContent]. unfold tryCatch, bind.
    destruct (withRetry_rejects GenerateContentResponse
                (models_generateContent client (presentationRequest explanation))
                4 1000 None) with (w:=w) as [e [w' E]].
    + intros w0. unfold models_generateContent.
      destruct (Hrej w0 (presentationRequest explanation)) as [e He].
      rewrite He. do 2 eexists. reflexivity.
    + rewrite E. eexists. reflexivity.
  - intros anyClient w0.
    cbn [generatePresentationContent]. unfold tryCatch, bind.
    destruct (withRetry (models_generateContent anyClient (presentationRequest explanation))
                4 1000 None w0) as [[response|e] w'];
      do 2 eexists; reflexivity.
Qed.

Lemma structural_operations_policy_witness :
  (exists e w',
     generateContent offline [] (notesRequest sampleContent SHORT) = Rejected e /\
     generateNotes (Some offline) sampleContent SHORT [] = (Rejected e, w')) /\
  (exists e w',
     generateContent offline [] (quizRequest sampleContent 5) = Rejected e /\
     generateQuizQuestions (Some offline) sampleContent 5 [] = (Rejected e, w')) /\
  (exists w',
     generatePresentationContent (Some offline) sampleContent [] = (Resolved Null, w')) /\
  (forall (anyClient : GoogleGenAI) (w0 : Trace),
     exists r w',
       generatePresentationContent (Some anyClient) sampleContent w0 = (Resolved r, w')).
Proof.
  apply (structural_operations_policy offline sampleContent sampleContent SHORT 5 []).
  intros w' request. exists unauthorized. reflexivity.
Defined.

(** Without a client, [generateNotes] throws. *)
Lemma generateNotes_without_key_rejects :
  generateNotes None sampleContent SHORT [] = (Rejected apiKeyError, []).
Proof. reflexivity. Qed.

(* ===================================================================== *)
(** * Media enrichment: properties *)
(* ===================================================================== *)

Lemma recordProgress_returns : observerReturns recordProgress.
Proof. intros message w. eexists. reflexivity. Qed.

Lemma enrichedWith_sameSlideText :
  forall P input output, enrichedWith P input output -> sameSlideText input output.
Proof.
  intros P input output [url [-> _]]. repeat split.
Qed.

Lemma Forall2_weaken :
  forall A B (R S : A -> B -> Prop) l l',
    (forall a b, R a b -> S a b) -> Forall2 R l l' -> Forall2 S l l'.
Proof.
  intros A B R S l l' Himp H. induction H; constructor; auto.
Qed.

(** ** The fallback URL *)

Lemma unreserved_not_surrogate :
  forall u, isUnreservedUnit u = true ->
    isLeadSurrogate u = false /\ isTrailSurrogate u = false /\ (u <? 65536)%N = true.
Proof.
  intros u H. unfold isUnreservedUnit in H. apply andb_true_iff in H as [H _].
  apply N.ltb_lt in H. unfold isLeadSurrogate, isTrailSurrogate.
  repeat split.
  - apply andb_false_iff. left. apply N.leb_gt. lia.
  - apply andb_false_iff. left. apply N.leb_gt. lia.
  - apply N.ltb_lt. lia.
Qed.

(** [encodeURIComponent] gives a text exactly on the well-formed texts. *)
Lemma encodeURIComponent_defined_upto :
  forall n s, length s <= n ->
    match encodeURIComponent s with
    | Some _ => isWellFormed s = true
    | None => isWellFormed s = false
    end.
Proof.
  induction n as [|n IH]; intros s Hlen.
  - destruct s; [reflexivity | simpl in Hlen; lia].
  - destruct s as [|u rest]; [reflexivity|].
    cbn [length] in Hlen. cbn [encodeURIComponent isWellFormed].
    destruct (isUnreservedUnit u) eqn:Hu.
    + destruct (unreserved_not_surrogate u Hu) as [-> [-> ->]].
      specialize (IH rest ltac:(lia)).
      destruct (encodeURIComponent rest); exact IH.
    + destruct (isLeadSurrogate u).
      * destruct rest as [|v rest']; [reflexivity|].
        destruct (isTrailSurrogate v); [|reflexivity].
        cbn [length] in Hlen. specialize (IH rest' ltac:(lia)).
        destruct (encodeURIComponent rest'); exact IH.
      * rewrite N.ltb_antisym.
        destruct (isTrailSurrogate u); [reflexivity|].
        destruct (65536 <=? u)%N; [reflexivity|].
        specialize (IH rest ltac:(lia)).
        destruct (encodeURIComponent rest); exact IH.
Qed.

Lemma encodeURIComponent_wellFormed :
  forall s, isWellFormed s = true -> exists t, encodeURIComponent s = Some t.
Proof.
  intros s H. pose proof (encodeURIComponent_defined_upto (length s) s (le_n _)) as D.
  destruct (encodeURIComponent s) as [t|]; [exists t; reflexivity | congruence].
Qed.

Lemma encodeURIComponent_illFormed :
  forall s, isWellFormed s = false -> encodeURIComponent s = None.
Proof.
  intros s H. pose proof (encodeURIComponent_defined_upto (length s) s (le_n _)) as D.
  destruct (encodeURIComponent s) as [t|]; [congruence | reflexivity].
Qed.

(** The texts of the embedding hold no surrogate. *)
Lemma isWellFormed_widen : forall s, isWellFormed (widen s) = true.
Proof.
  induction s as [|c s IH]; [reflexivity|].
  cbn [widen map isWellFormed]. fold (widen s). rewrite IH.
  pose proof (N_ascii_bounded c) as Hc.
  unfold isLeadSurrogate, isTrailSurrogate.
  assert (H1 : (55296 <=? N_of_ascii c)%N = false) by (apply N.leb_gt; lia).
  assert (H2 : (56320 <=? N_of_ascii c)%N = false) by (apply N.leb_gt; lia).
  assert (H3 : (N_of_ascii c <? 65536)%N = true) by (apply N.ltb_lt; lia).
  rewrite H1, H2, H3. reflexivity.
Qed.

(** ** What the escaped text holds *)

Lemma hexUpper_safe : forall n, n < 16 -> urlSafe (hexUpper n) = true.
Proof.
  intros n Hn. do 16 (destruct n as [|n]; [reflexivity|]). lia.
Qed.

Lemma percentByte_safe : forall n, n < 256 -> forallb urlSafe (percentByte n) = true.
Proof.
  intros n Hn. unfold percentByte. cbn [forallb].
  rewrite (hexUpper_safe (n / 16)), (hexUpper_safe (n mod 16)).
  - reflexivity.
  - apply Nat.mod_upper_bound. lia.
  - apply Nat.Div0.div_lt_upper_bound. lia.
Qed.

Lemma percentOctets_safe :
  forall octets,
    Forall (fun octet => (octet < 256)%N) octets ->
    forallb urlSafe (percentOctets octets) = true.
Proof.
  intros octets H. unfold percentOctets.
  induction H as [|octet rest Ho _ IH]; [reflexivity|].
  cbn [flat_map]. rewrite forallb_app, IH, percentByte_safe; [reflexivity|].
  change 256 with (N.to_nat 256). lia.
Qed.

Lemma utf8Octets_bound :
  forall cp, (cp < 1114112)%N -> Forall (fun octet => (octet < 256)%N) (utf8Octets cp).
Proof.
  intros cp Hcp. unfold utf8Octets.
  destruct (N.ltb_spec cp 128); [repeat constructor; lia|].
  destruct (N.ltb_spec cp 2048).
  { repeat constructor.
    - pose proof (N.Div0.div_lt_upper_bound cp 64 32 ltac:(lia)). lia.
    - pose proof (N.mod_upper_bound cp 64 ltac:(lia)). lia. }
  destruct (N.ltb_spec cp 65536).
  { repeat constructor.
    - pose proof (N.Div0.div_lt_upper_bound cp 4096 16 ltac:(lia)). lia.
    - pose proof (N.mod_upper_bound (cp / 64) 64 ltac:(lia)). lia.
    - pose proof (N.mod_upper_bound cp 64 ltac:(lia)). lia. }
  repeat constructor.
  - pose proof (N.Div0.div_lt_upper_bound cp 262144 5 ltac:(lia)). lia.
  - pose proof (N.mod_upper_bound (cp / 4096) 64 ltac:(lia)). lia.
  - pose proof (N.mod_upper_bound (cp / 64) 64 ltac:(lia)). lia.
  - pose proof (N.mod_upper_bound cp 64 ltac:(lia)). lia.
Qed.

Lemma pairCodePoint_bound :
  forall u v,
    isLeadSurrogate u = true -> isTrailSurrogate v = true ->
    (65536 <= pairCodePoint u v < 1114112)%N.
Proof.
  intros u v Hu Hv. unfold isLeadSurrogate, isTrailSurrogate in *.
  apply andb_true_iff in Hu as [Hu1 Hu2]. apply andb_true_iff in Hv as [Hv1 Hv2].
  apply N.leb_le in Hu1, Hu2, Hv1, Hv2. unfold pairCodePoint. lia.
Qed.

Lemma encodeURIComponent_safe_upto :
  forall n s, length s <= n ->
    forall t, encodeURIComponent s = Some t -> forallb urlSafe t = true.
Proof.
  induction n as [|n IH]; intros s Hlen t Ht.
  - destruct s; [injection Ht as <-; reflexivity | simpl in Hlen; lia].
  - destruct s as [|u rest]; [injection Ht as <-; reflexivity|].
    cbn [length] in Hlen. cbn [encodeURIComponent] in Ht.
    destruct (isUnreservedUnit u) eqn:Hu.
    + destruct (encodeURIComponent rest) as [t'|] eqn:Hrest; [|discriminate Ht].
      injection Ht as <-. cbn [forallb].
      rewrite (IH rest ltac:(lia) t' Hrest), andb_true_r.
      unfold isUnreservedUnit in Hu. apply andb_true_iff in Hu as [_ Hu].
      unfold urlSafe. rewrite Hu. reflexivity.
    + destruct (isLeadSurrogate u) eqn:Hlead.
      * destruct rest as [|v rest']; [discriminate Ht|].
        destruct (isTrailSurrogate v) eqn:Htrail; [|discriminate Ht].
        destruct (encodeURIComponent rest') as [t'|] eqn:Hrest; [|discriminate Ht].
        injection Ht as <-. cbn [length] in Hlen.
        rewrite forallb_app, (IH rest' ltac:(lia) t' Hrest), andb_true_r.
        apply percentOctets_safe, utf8Octets_bound.
        apply (pairCodePoint_bound u v Hlead Htrail).
      * destruct (isTrailSurrogate u); [discriminate Ht|].
        destruct (N.leb_spec 65536 u); [discriminate Ht|].
        cbn [orb] in Ht.
        destruct (encodeURIComponent rest) as [t'|] eqn:Hrest; [|discriminate Ht].
        injection Ht as <-.
        rewrite forallb_app, (IH rest ltac:(lia) t' Hrest), andb_true_r.
        apply percentOctets_safe, utf8Octets_bound. lia.
Qed.

Lemma encodeURIComponent_safe :
  forall s t, encodeURIComponent s = Some t -> forallb urlSafe t = true.
Proof.
  intros s t. apply (encodeURIComponent_safe_upto (length s) s (le_n _)).
Qed.

Lemma hexValue_hexUpper :
  forall d, d < 16 -> hexValue (hexUpper d) = Some d.
Proof.
  intros d Hd. do 16 (destruct d as [|d]; [reflexivity|]). lia.
Qed.

Lemma unescapeOctets_percentByte :
  forall octet t,
    (octet < 256)%N ->
    unescapeOctets (percentByte (N.to_nat octet) ++ t) =
    option_map (cons octet) (unescapeOctets t).
Proof.
  intros octet t Ho. unfold percentByte. cbn [app unescapeOctets].
  change (Ascii.eqb "%"%char "%"%char) with true. cbv iota.
  assert (Hn : N.to_nat octet < 256) by lia.
  rewrite (hexValue_hexUpper (N.to_nat octet / 16)),
          (hexValue_hexUpper (N.to_nat octet mod 16)).
  - replace (N.of_nat (16 * (N.to_nat octet / 16) + N.to_nat octet mod 16))
      with octet; [reflexivity|].
    rewrite <- (Nat.div_mod_eq (N.to_nat octet) 16), N2Nat.id. reflexivity.
  - apply Nat.mod_upper_bound. lia.
  - apply Nat.Div0.div_lt_upper_bound. lia.
Qed.

Lemma unescapeOctets_percentOctets :
  forall octets t,
    Forall (fun octet => (octet < 256)%N) octets ->
    unescapeOctets (percentOctets octets ++ t) =
    option_map (app octets) (unescapeOctets t).
Proof.
  intros octets t H. unfold percentOctets.
  induction H as [|octet rest Ho _ IH].
  - cbn [flat_map app]. destruct (unescapeOctets t); reflexivity.
  - cbn [flat_map]. rewrite <- List.app_assoc, (unescapeOctets_percentByte _ _ Ho), IH.
    destruct (unescapeOctets t); reflexivity.
Qed.

Lemma unreserved_not_percent :
  forall c, isUriUnreserved c = true -> Ascii.eqb c "%"%char = false.
Proof.
  intros c H. destruct (Ascii.eqb_spec c "%"%char) as [->|_]; [discriminate H | reflexivity].
Qed.

(** The octets of a code point give its code units back. *)
Lemma utf8Units_utf8Octets :
  forall cp rest,
    (cp < 1114112)%N ->
    utf8Units (utf8Octets cp ++ rest) = option_map (app (codeUnits cp)) (utf8Units rest).
Proof.
  intros cp rest Hcp. unfold utf8Octets.
  destruct (N.ltb_spec cp 128) as [H1|H1].
  { cbn [app utf8Units]. apply N.ltb_lt in H1. rewrite H1. reflexivity. }
  destruct (N.ltb_spec cp 2048) as [H2|H2].
  { cbn [app utf8Units].
    assert (Ha : (192 + cp / 64 <? 128)%N = false).
    { apply N.ltb_ge. euclid. }
    assert (Hb : (192 + cp / 64 <? 224)%N = true).
    { apply N.ltb_lt. euclid. }
    rewrite Ha, Hb.
    replace ((192 + cp / 64 - 192) * 64 + (128 + cp mod 64 - 128))%N with cp; [reflexivity|].
    euclid. }
  destruct (N.ltb_spec cp 65536) as [H3|H3].
  { cbn [app utf8Units].
    assert (Ha : (224 + cp / 4096 <? 128)%N = false) by (apply N.ltb_ge; euclid).
    assert (Hb : (224 + cp / 4096 <? 224)%N = false) by (apply N.ltb_ge; euclid).
    assert (Hc : (224 + cp / 4096 <? 240)%N = true).
    { apply N.ltb_lt. euclid. }
    rewrite Ha, Hb, Hc.
    replace ((224 + cp / 4096 - 224) * 4096 + (128 + (cp / 64) mod 64 - 128) * 64 +
             (128 + cp mod 64 - 128))%N with cp; [reflexivity|].
    euclid. }
  cbn [app utf8Units].
  assert (Ha : (240 + cp / 262144 <? 128)%N = false) by (apply N.ltb_ge; euclid).
  assert (Hb : (240 + cp / 262144 <? 224)%N = false) by (apply N.ltb_ge; euclid).
  assert (Hc : (240 + cp / 262144 <? 240)%N = false) by (apply N.ltb_ge; euclid).
  rewrite Ha, Hb, Hc.
  replace ((240 + cp / 262144 - 240) * 262144 + (128 + (cp / 4096) mod 64 - 128) * 4096 +
           (128 + (cp / 64) mod 64 - 128) * 64 + (128 + cp mod 64 - 128))%N with cp;
    [reflexivity|].
  euclid.
Qed.

Lemma codeUnits_pair :
  forall u v,
    isLeadSurrogate u = true -> isTrailSurrogate v = true ->
    codeUnits (pairCodePoint u v) = [u; v].
Proof.
  intros u v Hu Hv.
  pose proof (pairCodePoint_bound u v Hu Hv) as Hcp.
  unfold isLeadSurrogate, isTrailSurrogate in *.
  apply andb_true_iff in Hu as [Hu1 Hu2]. apply andb_true_iff in Hv as [Hv1 Hv2].
  apply N.leb_le in Hu1, Hu2, Hv1, Hv2.
  unfold codeUnits.
  assert (Hlt : (pairCodePoint u v <? 65536)%N = false) by (apply N.ltb_ge; euclid).
  rewrite Hlt. unfold pairCodePoint.
  f_equal; [|f_equal]; euclid.
Qed.

Lemma readBack_cons :
  forall c t,
    Ascii.eqb c "%"%char = false ->
    (N_of_ascii c < 128)%N ->
    readBack (c :: t) = option_map (cons (N_of_ascii c)) (readBack t).
Proof.
  intros c t Hc Hlt. unfold readBack. cbn [unescapeOctets]. rewrite Hc.
  destruct (unescapeOctets t) as [octets|]; [|reflexivity].
  cbn [option_map utf8Units]. apply N.ltb_lt in Hlt. rewrite Hlt.
  unfold codeUnits.
  assert (H : (N_of_ascii c <? 65536)%N = true) by (apply N.ltb_lt; apply N.ltb_lt in Hlt; lia).
  rewrite H. reflexivity.
Qed.

Lemma readBack_escaped :
  forall cp t,
    (cp < 1114112)%N ->
    readBack (percentOctets (utf8Octets cp) ++ t) =
    option_map (app (codeUnits cp)) (readBack t).
Proof.
  intros cp t Hcp. unfold readBack.
  rewrite (unescapeOctets_percentOctets _ _ (utf8Octets_bound cp Hcp)).
  destruct (unescapeOctets t) as [octets|]; [|reflexivity].
  cbn [option_map]. apply utf8Units_utf8Octets. exact Hcp.
Qed.

Lemma readBack_encodeURIComponent_upto :
  forall n s, length s <= n ->
    forall t, encodeURIComponent s = Some t -> readBack t = Some s.
Proof.
  induction n as [|n IH]; intros s Hlen t Ht.
  - destruct s; [injection Ht as <-; reflexivity | simpl in Hlen; lia].
  - destruct s as [|u rest]; [injection Ht as <-; reflexivity|].
    cbn [length] in Hlen. cbn [encodeURIComponent] in Ht.
    destruct (isUnreservedUnit u) eqn:Hu.
    + destruct (encodeURIComponent rest) as [t'|] eqn:Hrest; [|discriminate Ht].
      injection Ht as <-.
      unfold isUnreservedUnit in Hu. apply andb_true_iff in Hu as [Hlt Hun].
      apply N.ltb_lt in Hlt.
      assert (Hback : N_of_ascii (ascii_of_N u) = u).
      { apply N_ascii_embedding. lia. }
      rewrite readBack_cons.
      * rewrite Hback, (IH rest ltac:(lia) t' Hrest). reflexivity.
      * apply unreserved_not_percent. exact Hun.
      * rewrite Hback. exact Hlt.
    + destruct (isLeadSurrogate u) eqn:Hlead.
      * destruct rest as [|v rest']; [discriminate Ht|].
        destruct (isTrailSurrogate v) eqn:Htrail; [|discriminate Ht].
        destruct (encodeURIComponent rest') as [t'|] eqn:Hrest; [|discriminate Ht].
        injection Ht as <-. cbn [length] in Hlen.
        rewrite readBack_escaped by (apply (pairCodePoint_bound u v Hlead Htrail)).
        rewrite (IH rest' ltac:(lia) t' Hrest), (codeUnits_pair u v Hlead Htrail).
        reflexivity.
      * destruct (isTrailSurrogate u); [discriminate Ht|].
        destruct (N.leb_spec 65536 u) as [|Hlt]; [discriminate Ht|].
        cbn [orb] in Ht.
        destruct (encodeURIComponent rest) as [t'|] eqn:Hrest; [|discriminate Ht].
        injection Ht as <-.
        rewrite readBack_escaped by lia.
        rewrite (IH rest ltac:(lia) t' Hrest). unfold codeUnits.
        apply N.ltb_lt in Hlt. rewrite Hlt. reflexivity.
Qed.

(** The result of [encodeURIComponent] holds the whole text. *)
Lemma readBack_encodeURIComponent :
  forall s t, encodeURIComponent s = Some t -> readBack t = Some s.
Proof.
  intros s t. apply (readBack_encodeURIComponent_upto (length s) s (le_n _)).
Qed.

Lemma widen_injective : forall a b, widen a = widen b -> a = b.
Proof.
  induction a as [|x a IH]; intros [|y b] H; try discriminate H; [reflexivity|].
  cbn [widen map] in H. injection H as Hxy H.
  rewrite (IH b H). f_equal.
  rewrite <- (ascii_N_embedding x), <- (ascii_N_embedding y), Hxy. reflexivity.
Qed.

(** What a call of the URL builder comes to: the URL written out, or the
    URIError of an ill-formed prompt, without a trace of either. *)
Lemma fallbackImageUrl_cases :
  forall kind prompt seedSuffix w,
    exists o,
      fallbackImageUrl kind prompt seedSuffix w = (o, w) /\
      match o with
      | Resolved url =>
          isWellFormed prompt = true /\ url <> [] /\ fallbackUrl kind prompt url
      | Rejected e => e = uriError /\ isWellFormed prompt = false
      end.
Proof.
  intros kind prompt seedSuffix w. unfold fallbackImageUrl.
  destruct (isWellFormed prompt) eqn:Hwf.
  - destruct (encodeURIComponent_wellFormed prompt Hwf) as [encoded He].
    destruct (encodeURIComponent_wellFormed (widen (kind ++ seedSuffix))
                (isWellFormed_widen _)) as [seed Hs].
    unfold bind, orThrow, ret. rewrite He, Hs.
    eexists. split; [reflexivity|]. split; [reflexivity|]. split; [discriminate|].
    exists encoded, seedSuffix, seed.
    split; [exact He|]. split; [exact (readBack_encodeURIComponent _ _ He)|].
    split; [exact Hs | reflexivity].
  - unfold bind, orThrow. rewrite (encodeURIComponent_illFormed prompt Hwf).
    eexists. split; [reflexivity|]. split; reflexivity.
Qed.

Lemma fallbackSlides_cases :
  forall rt slides idx w,
    exists o w',
      fallbackSlides rt slides idx w = (o, w') /\
      match o with
      | Resolved out => Forall2 (enrichedWith isFallbackUrl) slides out
      | Rejected e => e = uriError /\ Exists illFormedPrompt slides
      end.
Proof.
  intros rt. induction slides as [|slide rest IH]; intros idx w.
  - do 2 eexists. split; [reflexivity | constructor].
  - cbn [fallbackSlides]. unfold bind at 1. unfold Date_now at 1.
    unfold bind at 1. unfold getFallbackImageUrl.
    destruct (fallbackImageUrl_cases (lit "presentation-") (SlideContent.imagePrompt slide)
                (natToString idx ++ lit "-" ++ numberToString (clock rt w)) (EvDateNow :: w))
      as [[url|e] [E H]]; rewrite E.
    + destruct H as [_ [Hne Hu]]. unfold bind at 1.
      destruct (IH (S idx) (EvDateNow :: w)) as [[out|e] [w' [E' F]]]; rewrite E'.
      * do 2 eexists. split; [reflexivity|].
        constructor; [|exact F]. exists url. split; [reflexivity|]. split; assumption.
      * destruct F as [-> Hex]. do 2 eexists. split; [reflexivity|].
        split; [reflexivity | right; exact Hex].
    + destruct H as [-> Hill]. do 2 eexists. split; [reflexivity|].
      split; [reflexivity | left; exact Hill].
Qed.

Lemma randomFallbackUrl_cases :
  forall rt prompt i w,
    exists o w',
      randomFallbackUrl rt prompt i w = (o, w') /\
      match o with
      | Resolved url =>
          isWellFormed prompt = true /\ url <> [] /\
          fallbackUrl (lit "presentation-") prompt url
      | Rejected e => e = uriError /\ isWellFormed prompt = false
      end.
Proof.
  intros rt prompt i w. unfold randomFallbackUrl, getFallbackImageUrl.
  unfold bind, Math_random_suffix.
  destruct (fallbackImageUrl_cases (lit "presentation-") prompt
              (natToString i ++ lit "-" ++ randomBase36 rt w) (EvRandom :: w))
    as [o [E H]]; rewrite E.
  do 2 eexists. split; [reflexivity | exact H].
Qed.

Lemma dataUrl_nonempty : forall img url, dataUrl img = Some url -> url <> [].
Proof.
  intros [i|] url; [|discriminate]. unfold dataUrl.
  destruct (imageBytes i) as [[|b bytes]|]; try discriminate.
  intros H. injection H as <-. discriminate.
Qed.

(** ** One slide *)

(** Whatever the provider does, the try statement adds the slide with some
    non-empty image URL, or, on an ill-formed prompt, may throw the
    URIError of the URL builder. *)
Lemma slideVisual_cases :
  forall rt onProgress client slide i updatedSlides w,
    exists o w',
      slideVisual rt onProgress client slide i updatedSlides w = (o, w') /\
      match o with
      | Resolved slides =>
          exists url, slides = updatedSlides ++ [slideWithImageUrl slide url] /\ url <> []
      | Rejected e => e = uriError /\ illFormedPrompt slide
      end.
Proof.
  intros rt onProgress client slide i updated w.
  unfold slideVisual, tryCatch. unfold bind at 1.
  match goal with |- context [withRetry ?f ?m ?d ?o w] =>
    destruct (withRetry f m d o w) as [[response|e] w1] end.
  - unfold bind at 1.
    destruct (dataUrl (firstImage response)) as [url|] eqn:Hurl.
    + do 2 eexists. split; [reflexivity|]. exists url. split; [reflexivity|].
      eapply dataUrl_nonempty; eassumption.
    + destruct (randomFallbackUrl_cases rt (SlideContent.imagePrompt slide) i w1)
        as [[url|e] [w2 [E H]]]; rewrite E.
      * destruct H as [_ [Hne _]].
        do 2 eexists. split; [reflexivity|]. exists url. split; [reflexivity | exact Hne].
      * destruct H as [_ Hill]. unfold bind at 1.
        destruct (randomFallbackUrl_cases rt (SlideContent.imagePrompt slide) i w2)
          as [[url|e'] [w3 [E3 H3]]]; rewrite E3.
        -- destruct H3 as [Hwf _]. congruence.
        -- destruct H3 as [-> _]. do 2 eexists. split; [reflexivity|].
           split; [reflexivity | exact Hill].
  - unfold bind at 1.
    destruct (randomFallbackUrl_cases rt (SlideContent.imagePrompt slide) i w1)
      as [[url|e'] [w2 [E H]]]; rewrite E.
    + destruct H as [_ [Hne _]].
      do 2 eexists. split; [reflexivity|]. exists url. split; [reflexivity | exact Hne].
    + destruct H as [-> Hill]. do 2 eexists. split; [reflexivity|].
      split; [reflexivity | exact Hill].
Qed.

(** When the provider rejects every request, the URL is the fallback one. *)
Lemma slideVisual_fallback_cases :
  forall rt onProgress client slide i updatedSlides w,
    imagesAlwaysFail client ->
    exists o w',
      slideVisual rt onProgress client slide i updatedSlides w = (o, w') /\
      match o with
      | Resolved slides =>
          exists url,
            slides = updatedSlides ++ [slideWithImageUrl slide url] /\
            isFallbackUrl slide url
      | Rejected e => e = uriError /\ illFormedPrompt slide
      end.
Proof.
  intros rt onProgress client slide i updated w Hfail.
  unfold slideVisual, tryCatch. unfold bind at 1.
  match goal with |- context [withRetry ?f ?m ?d ?o w] =>
    destruct (withRetry_rejects _ f m d o) with (w:=w) as [e [w1 E1]] end.
  - intros w0. unfold models_generateImages.
    destruct (Hfail w0 (imagesRequest (SlideContent.imagePrompt slide))) as [e He].
    rewrite He. do 2 eexists. reflexivity.
  - rewrite E1. unfold bind at 1.
    destruct (randomFallbackUrl_cases rt (SlideContent.imagePrompt slide) i w1)
      as [[url|e'] [w2 [E H]]]; rewrite E.
    + destruct H as [_ H].
      do 2 eexists. split; [reflexivity|]. exists url. split; [reflexivity | exact H].
    + destruct H as [-> Hill]. do 2 eexists. split; [reflexivity|].
      split; [reflexivity | exact Hill].
Qed.

(** ** The loop over the slides *)

Section LoopInvariant.
Variable rt : Runtime.
Variable onProgress : jsstring -> Async unit.
Variable client : GoogleGenAI.
Variable P : SlideContent.t -> jsstring -> Prop.

Hypothesis observer : observerReturns onProgress.
Hypothesis visual :
  forall slide i updatedSlides w,
    exists o w',
      slideVisual rt onProgress client slide i updatedSlides w = (o, w') /\
      match o with
      | Resolved slides =>
          exists url, slides = updatedSlides ++ [slideWithImageUrl slide url] /\ P slide url
      | Rejected e => e = uriError /\ illFormedPrompt slide
      end.

(** The loop appends to [updatedSlides] one enriched slide for each
    remaining slide, in order, or stops at an ill-formed prompt. *)
Lemma slidesLoop_cases :
  forall total remaining i updatedSlides w,
    exists o w',
      slidesLoop rt onProgress client total remaining i updatedSlides w = (o, w') /\
      match o with
      | Resolved slides =>
          exists added,
            slides = updatedSlides ++ added /\ Forall2 (enrichedWith P) remaining added
      | Rejected e => e = uriError /\ Exists illFormedPrompt remaining
      end.
Proof.
  intros total. induction remaining as [|slide rest IH]; intros i updated w.
  - do 2 eexists. split; [reflexivity|]. exists []. split; [|constructor].
    rewrite List.app_nil_r. reflexivity.
  - cbn [slidesLoop]. unfold bind at 1.
    assert (Hsleep : exists w0, (if 0 <? i then sleep 1000 else ret tt) w = (Resolved tt, w0)).
    { destruct (0 <? i); eexists; reflexivity. }
    destruct Hsleep as [w0 E0]. rewrite E0.
    unfold bind at 1.
    match goal with |- context [onProgress ?m w0] =>
      destruct (observer m w0) as [w1 E1]; rewrite E1 end.
    unfold bind at 1.
    destruct (visual slide i updated w1) as [[slides|e] [w2 [E2 H2]]]; rewrite E2.
    + destruct H2 as [url [-> HP]]. unfold bind at 1.
      match goal with |- context [onProgress ?m w2] =>
        destruct (observer m w2) as [w3 E3]; rewrite E3 end.
      destruct (IH (S i) (updated ++ [slideWithImageUrl slide url]) w3)
        as [[slides|e] [w4 [E4 H4]]]; rewrite E4.
      * destruct H4 as [added [-> F]].
        do 2 eexists. split; [reflexivity|].
        exists (slideWithImageUrl slide url :: added). split.
        -- rewrite <- List.app_assoc. reflexivity.
        -- constructor; [|exact F]. exists url. split; [reflexivity | exact HP].
      * destruct H4 as [-> Hex]. do 2 eexists. split; [reflexivity|].
        split; [reflexivity | right; exact Hex].
    + destruct H2 as [-> Hill]. do 2 eexists. split; [reflexivity|].
      split; [reflexivity | left; exact Hill].
Qed.
End LoopInvariant.

(** The operation as a whole, for a property [P] that both branches
    establish for each slide. *)
Lemma generatePresentationImages_cases :
  forall (P : SlideContent.t -> jsstring -> Prop) ai rt onProgress presentation w,
    observerReturns onProgress ->
    (forall slide url, isFallbackUrl slide url -> P slide url) ->
    (forall client, ai = Some client ->
       forall slide i updatedSlides w0,
         exists o w',
           slideVisual rt onProgress client slide i updatedSlides w0 = (o, w') /\
           match o with
           | Resolved slides =>
               exists url,
                 slides = updatedSlides ++ [slideWithImageUrl slide url] /\ P slide url
           | Rejected e => e = uriError /\ illFormedPrompt slide
           end) ->
    exists o w',
      generatePresentationImages ai rt onProgress presentation w = (o, w') /\
      match o with
      | Resolved doc =>
          PresentationContent.title doc = PresentationContent.title presentation /\
          Forall2 (enrichedWith P)
            (PresentationContent.slides presentation) (PresentationContent.slides doc)
      | Rejected e =>
          e = uriError /\ Exists illFormedPrompt (PresentationContent.slides presentation)
      end.
Proof.
  intros P ai rt onProgress presentation w Hobs Hfb Hvis.
  destruct ai as [client|]; cbn [generatePresentationImages].
  - unfold bind at 1.
    match goal with |- context [onProgress ?m w] =>
      destruct (Hobs m w) as [w1 E1]; rewrite E1 end.
    unfold bind at 1.
    destruct (slidesLoop_cases rt onProgress client P Hobs (Hvis client eq_refl)
                (length (PresentationContent.slides presentation))
                (PresentationContent.slides presentation) 0 [] w1)
      as [[slides|e] [w2 [E2 H2]]]; rewrite E2.
    + destruct H2 as [added [-> F]]. unfold bind at 1.
      match goal with |- context [onProgress ?m w2] =>
        destruct (Hobs m w2) as [w3 E3]; rewrite E3 end.
      do 2 eexists. split; [reflexivity|]. split; [reflexivity | exact F].
    + do 2 eexists. split; [reflexivity | exact H2].
  - unfold bind at 1.
    destruct (fallbackSlides_cases rt (PresentationContent.slides presentation) 0 w)
      as [[out|e] [w1 [E1 F]]]; rewrite E1.
    + unfold bind at 1.
      match goal with |- context [onProgress ?m w1] =>
        destruct (Hobs m w1) as [w2 E2]; rewrite E2 end.
      do 2 eexists. split; [reflexivity|]. split; [reflexivity|].
      eapply Forall2_weaken; [|exact F].
      intros a b [url [-> Hu]]. exists url. split; [reflexivity | apply Hfb; exact Hu].
    + do 2 eexists. split; [reflexivity | exact F].
Qed.

Lemma wellFormed_not_illFormed :
  forall slides, wellFormedPrompts slides -> ~ Exists illFormedPrompt slides.
Proof.
  intros slides Hwf Hex. unfold wellFormedPrompts in Hwf.
  induction Hex as [slide rest Hill | slide rest _ IH].
  - inversion Hwf as [|? ? Hs _]; subst. unfold illFormedPrompt in Hill. congruence.
  - inversion Hwf; subst. apply IH. assumption.
Qed.

(** C8.  The claim fails on a prompt that [encodeURIComponent] refuses.
    For the presentation [cutPresentation], whose second image prompt ends
    in a lead surrogate without its partner, the operation returns no
    document: with no client, and with a client that rejects every image
    request, it rejects with the URIError of the URL builder, after the
    first slide was given its URL. *)
Theorem cut_prompt_rejects :
  generatePresentationImages None sampleRuntime recordProgress cutPresentation [] =
    (Rejected uriError, [EvDateNow; EvDateNow]) /\
  fst (generatePresentationImages (Some offline) sampleRuntime recordProgress
         cutPresentation []) = Rejected uriError /\
  imagesAlwaysFail offline /\
  isWellFormed cutPrompt = false.
Proof.
  split; [vm_compute; reflexivity|].
  split; [vm_compute; reflexivity|].
  split; [|reflexivity].
  intros w request. exists unauthorized. reflexivity.
Qed.

(** C10.  The operation changes nothing but [imageUrl]: a document it
    resolves with has the input title and, position by position, the input
    slides with their title, content and imagePrompt unchanged, whether the
    image comes from the provider or from the fallback service; and it does
    resolve with a document when no image prompt is ill-formed. *)
Theorem only_imageUrl_changes :
  forall ai rt onProgress presentation w,
    observerReturns onProgress ->
    (forall doc w',
       generatePresentationImages ai rt onProgress presentation w = (Resolved doc, w') ->
       PresentationContent.title doc = PresentationContent.title presentation /\
       Forall2 sameSlideText
         (PresentationContent.slides presentation) (PresentationContent.slides doc)) /\
    (wellFormedPrompts (PresentationContent.slides presentation) ->
     exists doc w',
       generatePresentationImages ai rt onProgress presentation w = (Resolved doc, w') /\
       PresentationContent.title doc = PresentationContent.title presentation /\
       Forall2 sameSlideText
         (PresentationContent.slides presentation) (PresentationContent.slides doc)).
Proof.
  intros ai rt onProgress presentation w Hobs.
  destruct (generatePresentationImages_cases (fun _ url => url <> [])
              ai rt onProgress presentation w Hobs)
    as [o [w0 [E0 H0]]].
  - intros slide url [Hne _]. exact Hne.
  - intros client _ slide i updated w1. apply slideVisual_cases.
  - assert (Hframe : forall doc,
              o = Resolved doc ->
              PresentationContent.title doc = PresentationContent.title presentation /\
              Forall2 sameSlideText
                (PresentationContent.slides presentation) (PresentationContent.slides doc)).
    { intros doc ->. destruct H0 as [Ht F]. split; [exact Ht|].
      eapply Forall2_weaken; [|exact F].
      intros a b Hab. eapply enrichedWith_sameSlideText. exact Hab. }
    split.
    + intros doc w' E. rewrite E0 in E. injection E as -> _. apply Hframe. reflexivity.
    + intros Hwf. destruct o as [doc|e].
      * exists doc, w0. split; [exact E0 | apply Hframe; reflexivity].
      * destruct H0 as [_ Hex]. exfalso. exact (wellFormed_not_illFormed _ Hwf Hex).
Qed.

Lemma only_imageUrl_changes_witness :
  exists doc w',
    generatePresentationImages (Some sampleImages) sampleRuntime recordProgress
      samplePresentation [] = (Resolved doc, w') /\
    PresentationContent.title doc = PresentationContent.title samplePresentation /\
    Forall2 sameSlideText
      (PresentationContent.slides samplePresentation) (PresentationContent.slides doc).
Proof.
  apply (proj2 (only_imageUrl_changes (Some sampleImages) sampleRuntime recordProgress
                  samplePresentation [] recordProgress_returns)).
  repeat constructor.
Defined.

(** C7, amended.  Without a client, the operations that have a placeholder
    resolve with it, the enrichment of a presentation whose image prompts
    are well-formed takes the fallback URL for every slide, the URL of the
    image service with the escaped prompt in it, and the video operation
    resolves with [null]; the three operations without a placeholder throw
    the missing-key error. *)
Theorem missing_key_policy :
  forall rt onProgress (content explanation : jsstring) (length : NoteLength)
         (count score total : Z) (material : option jsstring)
         (presentation : PresentationContent.t) (w : Trace),
    observerReturns onProgress ->
    wellFormedPrompts (PresentationContent.slides presentation) ->
    suggestMetadata None content w = (Resolved (Value (metadataFallback content)), w) /\
    generateSummary None content w = (Resolved summaryUnavailable, w) /\
    generateExplanation None content w = (Resolved explanationUnavailable, w) /\
    generateFeedbackOnQuiz None score total material w =
      (Resolved {| feedbackText := feedbackUnavailable |}, w) /\
    generateBlockDiagram None explanation w = (Resolved None, w) /\
    (exists doc w',
       generatePresentationImages None rt onProgress presentation w = (Resolved doc, w') /\
       Forall2 (enrichedWith isFallbackUrl)
         (PresentationContent.slides presentation) (PresentationContent.slides doc)) /\
    (exists w', generateVideoAssets None rt onProgress explanation w = (Resolved Null, w')) /\
    generateNotes None content length w = (Rejected apiKeyError, w) /\
    generateQuizQuestions None content count w = (Rejected apiKeyError, w) /\
    generatePresentationContent None explanation w = (Rejected apiKeyError, w).
Proof.
  intros rt onProgress content explanation len count score total material presentation w
         Hobs Hwf.
  repeat split.
  - destruct (generatePresentationImages_cases isFallbackUrl None rt onProgress
                presentation w Hobs) as [[doc|e] [w' [E H]]].
    + auto.
    + intros client H. discriminate H.
    + exists doc, w'. split; [exact E | apply H].
    + destruct H as [_ Hex]. exfalso. exact (wellFormed_not_illFormed _ Hwf Hex).
  - cbn [generateVideoAssets]. unfold bind.
    match goal with |- context [onProgress ?m w] =>
      destruct (Hobs m w) as [w1 E1]; rewrite E1 end.
    eexists. reflexivity.
Qed.

Lemma missing_key_policy_witness :
  suggestMetadata None sampleContent [] =
    (Resolved (Value (metadataFallback sampleContent)), []) /\
  generateSummary None sampleContent [] = (Resolved summaryUnavailable, []) /\
  generateExplanation None sampleContent [] = (Resolved explanationUnavailable, []) /\
  generateFeedbackOnQuiz None 3 5 None [] =
    (Resolved {| feedbackText := feedbackUnavailable |}, []) /\
  generateBlockDiagram None sampleContent [] = (Resolved None, []) /\
  (exists doc w',
     generatePresentationImages None sampleRuntime recordProgress samplePresentation [] =
     (Resolved doc, w') /\
     Forall2 (enrichedWith isFallbackUrl)
       (PresentationContent.slides samplePresentation) (PresentationContent.slides doc)) /\
  (exists w',
     generateVideoAssets None sampleRuntime recordProgress sampleContent [] =
     (Resolved Null, w')) /\
  generateNotes None sampleContent SHORT [] = (Rejected apiKeyError, []) /\
  generateQuizQuestions None sampleContent 5 [] = (Rejected apiKeyError, []) /\
  generatePresentationContent None sampleContent [] = (Rejected apiKeyError, []).
Proof.
  apply (missing_key_policy sampleRuntime recordProgress sampleContent sampleContent
           SHORT 5 3 5 None samplePresentation []).
  - exact recordProgress_returns.
  - repeat constructor.
Defined.

(* ===================================================================== *)
(** * The fence expression on a fenced block *)
(* ===================================================================== *)

Lemma trimStart_id :
  forall c r, isWhiteSpace c = false -> trimStart (c :: r) = c :: r.
Proof. intros c r H. simpl. rewrite H. reflexivity. Qed.

(** [trim] leaves a text alone that neither starts nor ends with white
    space. *)
Lemma trim_id :
  forall c1 middle c2,
    isWhiteSpace c1 = false -> isWhiteSpace c2 = false ->
    trim (c1 :: middle ++ [c2]) = c1 :: middle ++ [c2].
Proof.
  intros c1 middle c2 H1 H2. unfold trim, trimEnd.
  rewrite (trimStart_id c1 _ H1).
  change (c1 :: middle ++ [c2]) with ((c1 :: middle) ++ [c2]).
  rewrite rev_app_distr. cbn [rev app].
  rewrite (trimStart_id c2 _ H2).
  cbn [rev]. rewrite rev_app_distr, rev_involutive. reflexivity.
Qed.

Lemma trim_id_single :
  forall c, isWhiteSpace c = false -> trim [c] = [c].
Proof. intros c H. unfold trim, trimEnd. simpl. rewrite H. simpl. rewrite H. reflexivity. Qed.

Lemma trim_solid : forall s, solid s -> trim s = s.
Proof.
  intros s [[c1 [r [E1 H1]]] [r' [c2 [E2 H2]]]].
  destruct r' as [|x r'].
  - simpl in E2. subst s. injection E2 as -> ->. apply trim_id_single. exact H2.
  - rewrite E2. simpl. simpl in E2. rewrite E1 in E2. injection E2 as -> _.
    apply trim_id; assumption.
Qed.

Lemma greedyStar_run :
  forall k cont run rest taken m,
    forallb (inClass k) run = true ->
    match rest with [] => True | x :: _ => inClass k x = false end ->
    cont (rev run ++ taken) rest = Some m ->
    greedyStar k cont (run ++ rest) taken = Some m.
Proof.
  intros k cont. induction run as [|x run IH]; intros rest taken m Hall Hstop Hcont.
  - simpl in *. destruct rest as [|y rest]; simpl; [exact Hcont|].
    rewrite Hstop. exact Hcont.
  - simpl in Hall. apply andb_true_iff in Hall as [Hx Hall].
    simpl. rewrite Hx.
    rewrite (IH rest (x :: taken) m Hall Hstop).
    + reflexivity.
    + simpl in Hcont. rewrite <- List.app_assoc in Hcont. exact Hcont.
Qed.

Lemma greedyStar_none :
  forall k cont s taken,
    (forall a rest, s = a ++ rest -> forallb (inClass k) a = true ->
       cont (rev a ++ taken) rest = None) ->
    greedyStar k cont s taken = None.
Proof.
  intros k cont. induction s as [|x s IH]; intros taken H.
  - simpl. apply (H [] []); reflexivity.
  - simpl. destruct (inClass k x) eqn:Hx.
    + rewrite IH.
      * simpl. apply (H [] (x :: s)); reflexivity.
      * intros a rest -> Ha.
        specialize (H (x :: a) rest eq_refl). simpl in H. rewrite Hx, Ha in H.
        rewrite <- List.app_assoc in H. apply H. reflexivity.
    + apply (H [] (x :: s)); reflexivity.
Qed.

Lemma lazyStar_run :
  forall cont run rest taken m,
    (forall a b, run = a ++ b -> b <> [] -> cont (rev a ++ taken) (b ++ rest) = None) ->
    cont (rev run ++ taken) rest = Some m ->
    lazyStar AnyChar cont (run ++ rest) taken = Some m.
Proof.
  intros cont. induction run as [|x run IH]; intros rest taken m Hnone Hcont.
  - simpl in *. destruct rest; simpl; rewrite Hcont; reflexivity.
  - pose proof (Hnone [] (x :: run) eq_refl ltac:(discriminate)) as H0.
    simpl in H0. simpl. rewrite H0.
    apply IH.
    + intros a b -> Hb.
      specialize (Hnone (x :: a) b eq_refl Hb). simpl in Hnone.
      rewrite <- List.app_assoc in Hnone. exact Hnone.
    + simpl in Hcont. rewrite <- List.app_assoc in Hcont. exact Hcont.
Qed.

Lemma exec_fence_some : forall s m, exec fence s = Some m -> s = lit "```".
Proof.
  intros s m H. unfold fence in H.
  destruct s as [|a s]; [discriminate H|]. cbn [exec inClass] in H.
  destruct (Ascii.eqb_spec backtick a) as [<-|_]; [|discriminate H].
  destruct s as [|b s]; [discriminate H|]. cbn [exec inClass] in H.
  destruct (Ascii.eqb_spec backtick b) as [<-|_]; [|discriminate H].
  destruct s as [|c s]; [discriminate H|]. cbn [exec inClass] in H.
  destruct (Ascii.eqb_spec backtick c) as [<-|_]; [|discriminate H].
  destruct s as [|d s]; [reflexivity | discriminate H].
Qed.

Lemma spaces_fence_none :
  forall s,
    (forall a, forallb isWhiteSpace a = true -> s <> a ++ lit "```") ->
    exec (IStar Space false :: fence) s = None.
Proof.
  intros s H. cbn [exec]. apply greedyStar_none.
  intros a rest -> Ha. unfold withCapture.
  destruct (exec fence rest) as [m|] eqn:E; [|reflexivity].
  apply exec_fence_some in E. subst rest. exfalso. exact (H a Ha eq_refl).
Qed.

Lemma solid_end_not_spaces :
  forall b0 c2 a,
    isWhiteSpace c2 = false ->
    forallb isWhiteSpace a = true ->
    (b0 ++ [c2]) ++ newline :: lit "```" <> a ++ lit "```".
Proof.
  intros b0 c2 a Hc Ha E.
  change (newline :: lit "```") with ([newline] ++ lit "```") in E.
  rewrite List.app_assoc in E. apply List.app_inv_tail in E. subst a.
  rewrite !forallb_app in Ha.
  apply andb_true_iff in Ha as [Ha _]. apply andb_true_iff in Ha as [_ Ha].
  simpl in Ha. rewrite Hc in Ha. discriminate.
Qed.

(** Before the end of a solid body the closing part does not match. *)
Lemma closing_none :
  forall b0 c2,
    isWhiteSpace c2 = false ->
    exec closing ((b0 ++ [c2]) ++ newline :: lit "```") = None.
Proof.
  intros b0 c2 Hc.
  assert (Hg : forall b, exec (IStar Space false :: fence)
                           ((b ++ [c2]) ++ newline :: lit "```") = None).
  { intros b. apply spaces_fence_none. intros a Ha. apply solid_end_not_spaces; assumption. }
  unfold closing. cbn [app]. cbn [exec]. fold (exec (IStar Space false :: fence)).
  change (greedyStar Space (fun taken rest => withCapture false taken (exec fence rest)))
    with (fun s taken => greedyStar Space
            (fun taken rest => withCapture false taken (exec fence rest)) s taken).
  destruct b0 as [|x b0]; cbn [app].
  - cbn [inClass].
    destruct (Ascii.eqb_spec newline c2) as [<-|_]; [discriminate Hc|].
    exact (Hg []).
  - cbn [inClass]. pose proof (Hg (x :: b0)) as H1. pose proof (Hg b0) as H2.
    cbn [exec app] in H1, H2.
    destruct (Ascii.eqb newline x).
    + rewrite H2. exact H1.
    + exact H1.
Qed.

Lemma closing_at_end : exec closing (newline :: lit "```") = Some [].
Proof. reflexivity. Qed.

Lemma exec_char :
  forall k r x s, exec (IChar k :: r) (x :: s) = if inClass k x then exec r s else None.
Proof. reflexivity. Qed.

Lemma exec_star :
  forall k cap r s,
    exec (IStar k cap :: r) s =
    greedyStar k (fun taken rest => withCapture cap taken (exec r rest)) s [].
Proof. reflexivity. Qed.

Lemma exec_lazy :
  forall k cap r s,
    exec (ILazy k cap :: r) s =
    lazyStar k (fun taken rest => withCapture cap taken (exec r rest)) s [].
Proof. reflexivity. Qed.

Lemma exec_optChar_skip :
  forall c r x s,
    Ascii.eqb c x = false ->
    exec (IOptChar (Chr c) :: r) (x :: s) = exec r (x :: s).
Proof. intros c r x s H. cbn [exec inClass]. rewrite H. reflexivity. Qed.

(** On a fenced block with a tag of word characters around a solid body, the
    expression matches; group 1 is the tag and group 2 the body. *)
Lemma exec_jsonFence_fenced :
  forall tag body,
    forallb isWordChar tag = true ->
    solid body ->
    exec jsonFenceRegex (fenced tag body) = Some [tag; body].
Proof.
  intros tag body Htag [[c1 [r1 [E1 H1]]] [r2 [c2 [E2 H2]]]].
  change (exec (IChar (Chr backtick) :: IChar (Chr backtick) :: IChar (Chr backtick)
                :: IStar Word true :: IStar Space false :: IOptChar (Chr newline)
                :: ILazy AnyChar true :: closing)
            (backtick :: backtick :: backtick
             :: (tag ++ [newline] ++ (body ++ newline :: lit "```")))
          = Some [tag; body]).
  rewrite !exec_char. cbn [inClass]. rewrite Ascii.eqb_refl.
  rewrite exec_star. apply greedyStar_run.
  - exact Htag.
  - reflexivity.
  - rewrite exec_star.
    rewrite (greedyStar_run Space _ [newline] (body ++ newline :: lit "```") [] [body]).
    + unfold withCapture. rewrite List.app_nil_r, rev_involutive. reflexivity.
    + reflexivity.
    + rewrite E1. exact H1.
    + unfold withCapture at 1.
      rewrite E1 at 1. cbn [app].
      rewrite exec_optChar_skip.
      2:{ destruct (Ascii.eqb_spec newline c1) as [<-|_]; [discriminate H1 | reflexivity]. }
      change (c1 :: r1 ++ newline :: lit "```") with ((c1 :: r1) ++ newline :: lit "```").
      rewrite <- E1. rewrite exec_lazy.
      apply lazyStar_run.
      * intros a b Hsplit Hb.
        assert (Hend : exists b0, b = b0 ++ [c2]).
        { rewrite E2 in Hsplit.
          destruct (exists_last Hb) as [b0 [x Hx]]. subst b.
          rewrite List.app_assoc in Hsplit. apply app_inj_tail in Hsplit as [_ ->].
          exists b0. reflexivity. }
        destruct Hend as [b0 ->].
        rewrite (closing_none b0 c2 H2). reflexivity.
      * rewrite closing_at_end. unfold withCapture.
        rewrite List.app_nil_r, rev_involutive. reflexivity.
Qed.

(* ===================================================================== *)
(** * The comma repair *)
(* ===================================================================== *)

Lemma repairApplies_cons :
  forall c s, repairApplies (c :: s) = false ->
    repairMatchAt (c :: s) = None /\ repairApplies s = false.
Proof.
  intros c s H. cbn [repairApplies] in H.
  destruct (repairMatchAt (c :: s)); [discriminate H | split; [reflexivity | exact H]].
Qed.

(** Where the repair finds no place to apply, it changes nothing. *)
Lemma insertMissingCommas_id :
  forall s, repairApplies s = false -> insertMissingCommas s = s.
Proof.
  unfold insertMissingCommas.
  induction s as [|c s IH]; intros H; [reflexivity|].
  apply repairApplies_cons in H as [Hm Hs].
  cbn [replaceFrom]. rewrite Hm, (IH Hs). reflexivity.
Qed.

Lemma spacesThenBrace_before_closing :
  forall x rest,
    spacesThenBrace (x ++ "}"%char :: rest) = spacesThenBrace (x ++ ["}"%char]).
Proof.
  induction x as [|c x IH]; intros rest; [reflexivity|].
  cbn [app spacesThenBrace]. rewrite (IH rest). reflexivity.
Qed.

Lemma repairMatchAt_before_closing :
  forall c x rest,
    repairMatchAt ((c :: x) ++ "}"%char :: rest) = repairMatchAt ((c :: x) ++ ["}"%char]).
Proof.
  intros c x rest. cbn [app repairMatchAt].
  rewrite spacesThenBrace_before_closing. reflexivity.
Qed.

(** A missing comma between a closing and an opening brace is put in, when
    the repair applies nowhere else. *)
Lemma insertMissingCommas_between :
  forall a b,
    repairApplies (a ++ ["}"%char]) = false ->
    repairApplies ("{"%char :: b) = false ->
    insertMissingCommas (a ++ "}"%char :: "{"%char :: b) = a ++ lit "},{" ++ b.
Proof.
  unfold insertMissingCommas.
  induction a as [|c a IH]; intros b Ha Hb.
  - cbn [app replaceFrom repairMatchAt spacesThenBrace Ascii.eqb Bool.eqb option_map Nat.sub].
    apply repairApplies_cons in Hb as [_ Hb].
    cbn [replaceFrom]. f_equal.
    exact (insertMissingCommas_id b Hb).
  - cbn [app] in Ha. apply repairApplies_cons in Ha as [Hm Ha].
    cbn [app replaceFrom].
    assert (Hm' : repairMatchAt (c :: a ++ "}"%char :: "{"%char :: b) = None).
    { rewrite <- Hm. exact (repairMatchAt_before_closing c a ("{"%char :: b)). }
    rewrite Hm', (IH b Ha Hb). reflexivity.
Qed.

Lemma spacesThenBrace_app_bracket :
  forall x, spacesThenBrace (x ++ ["]"%char]) = spacesThenBrace x.
Proof.
  induction x as [|c x IH]; [reflexivity|].
  cbn [app spacesThenBrace]. rewrite IH. reflexivity.
Qed.

Lemma repairApplies_app_bracket :
  forall x, repairApplies (x ++ ["]"%char]) = repairApplies x.
Proof.
  induction x as [|c x IH]; [reflexivity|].
  cbn [app repairApplies repairMatchAt].
  rewrite spacesThenBrace_app_bracket, IH. reflexivity.
Qed.

Lemma repairApplies_bracket_cons :
  forall x, repairApplies ("["%char :: x) = repairApplies x.
Proof. reflexivity. Qed.

(* ===================================================================== *)
(** * [JSON.parse] inverts [JSON.stringify] *)
(* ===================================================================== *)

Lemma valueStart_facts :
  forall c, valueStart c = true ->
    isJsonSpace c = false /\ isWhiteSpace c = false /\
    Ascii.eqb c "]"%char = false /\ Ascii.eqb c "}"%char = false.
Proof.
  intros c. each_ascii c; intros H; try discriminate H; repeat split.
Qed.

Lemma skipWs_cons : forall c r, isJsonSpace c = false -> skipWs (c :: r) = c :: r.
Proof. intros c r H. simpl. rewrite H. reflexivity. Qed.

Lemma uintChars_head :
  forall u, u <> Decimal.Nil ->
    exists c r, uintChars u = c :: r /\ isDigit c = true.
Proof.
  intros u Hu. destruct u; try congruence; do 2 eexists; split; reflexivity.
Qed.

Lemma uintChars_last :
  forall u, u <> Decimal.Nil ->
    exists r c, uintChars u = r ++ [c] /\ isDigit c = true.
Proof.
  induction u as [|u IH|u IH|u IH|u IH|u IH|u IH|u IH|u IH|u IH|u IH];
    intros Hu; try congruence;
    (destruct (Decimal.uint_eq_dec u Decimal.Nil) as [->|Hn];
     [ exists []; eexists; split; reflexivity
     | destruct (IH Hn) as [r [c [E Hc]]]; cbn [uintChars]; rewrite E;
       eexists (_ :: r), c; split; [reflexivity | exact Hc] ]).
Qed.

Lemma isDigit_valueStart : forall c, isDigit c = true -> valueStart c = true.
Proof. intros c H. unfold valueStart. rewrite H. reflexivity. Qed.

Lemma isDigit_not_space : forall c, isDigit c = true -> isWhiteSpace c = false.
Proof. intros c. each_ascii c; intros H; try discriminate H; reflexivity. Qed.

Lemma numberToString_head :
  forall z, exists c r, numberToString z = c :: r /\
    (Ascii.eqb c "-"%char || isDigit c) = true.
Proof.
  intros z. unfold numberToString.
  destruct z as [|p|p]; cbn [Z.to_int].
  - do 2 eexists. split; reflexivity.
  - destruct (uintChars_head (Pos.to_uint p) (Unsigned.to_uint_nonnil p)) as [c [r [E H]]].
    rewrite E. exists c, r. split; [reflexivity|]. rewrite H. apply orb_true_r.
  - do 2 eexists. split; reflexivity.
Qed.

Lemma numberToString_last :
  forall z, exists r c, numberToString z = r ++ [c] /\ isDigit c = true.
Proof.
  intros z. unfold numberToString.
  destruct z as [|p|p]; cbn [Z.to_int].
  - exists [], "0"%char. split; reflexivity.
  - apply uintChars_last. apply Unsigned.to_uint_nonnil.
  - destruct (uintChars_last (Pos.to_uint p) (Unsigned.to_uint_nonnil p)) as [r [c [E H]]].
    rewrite E. exists ("-"%char :: r), c. split; [reflexivity | exact H].
Qed.

Lemma JSON_stringify_array :
  forall l, JSON_stringify (JArray l) =
    "["%char :: joinComma (map JSON_stringify l) ++ ["]"%char].
Proof. reflexivity. Qed.

Lemma JSON_stringify_object :
  forall m, JSON_stringify (JObject m) =
    "{"%char :: joinComma (map memberText m) ++ ["}"%char].
Proof. reflexivity. Qed.

Lemma JSON_stringify_head :
  forall v, exists c r, JSON_stringify v = c :: r /\ valueStart c = true.
Proof.
  intros v. destruct v as [|[]|z|s|l|m]; try (do 2 eexists; split; reflexivity).
  destruct (numberToString_head z) as [c [r [E H]]].
  exists c, r. split; [exact E|].
  apply orb_true_iff in H as [H|H].
  - apply Ascii.eqb_eq in H. subst c. reflexivity.
  - apply isDigit_valueStart. exact H.
Qed.

Lemma JSON_stringify_last :
  forall v, exists r c, JSON_stringify v = r ++ [c] /\ isWhiteSpace c = false.
Proof.
  intros v. destruct v as [|[]|z|s|l|m].
  - exists (lit "nul"), "l"%char. split; reflexivity.
  - exists (lit "tru"), "e"%char. split; reflexivity.
  - exists (lit "fals"), "e"%char. split; reflexivity.
  - destruct (numberToString_last z) as [r [c [E H]]].
    exists r, c. split; [exact E | apply isDigit_not_space; exact H].
  - exists (dquote :: flat_map quoteChar s), dquote. split; reflexivity.
  - rewrite JSON_stringify_array. eexists (_ :: _), "]"%char. split; reflexivity.
  - rewrite JSON_stringify_object. eexists (_ :: _), "}"%char. split; reflexivity.
Qed.

Lemma JSON_stringify_solid : forall v, solid (JSON_stringify v).
Proof.
  intros v. split.
  - destruct (JSON_stringify_head v) as [c [r [E H]]].
    exists c, r. split; [exact E|]. apply valueStart_facts in H. tauto.
  - apply JSON_stringify_last.
Qed.

(** ** Strings *)

Lemma parseStringBody_quoteChar :
  forall c tail acc,
    parseStringBody (quoteChar c ++ tail) acc = parseStringBody tail (c :: acc).
Proof. intros c tail acc. each_ascii c; reflexivity. Qed.

Lemma parseStringBody_quoted :
  forall s acc rest,
    parseStringBody (flat_map quoteChar s ++ dquote :: rest) acc =
    Parsed (rev acc ++ s) rest.
Proof.
  induction s as [|c s IH]; intros acc rest.
  - simpl. rewrite List.app_nil_r. reflexivity.
  - cbn [flat_map]. rewrite <- List.app_assoc, parseStringBody_quoteChar, IH.
    cbn [rev]. rewrite <- List.app_assoc. reflexivity.
Qed.

(** ** Numbers *)

Lemma digitCons_none : forall c, isDigit c = false -> digitCons c = None.
Proof. intros c. each_ascii c; intros H; try discriminate H; reflexivity. Qed.

Lemma digitRun_uintChars :
  forall u rest, noDigitAhead rest -> digitRun (uintChars u ++ rest) = (u, rest).
Proof.
  induction u as [|u IH|u IH|u IH|u IH|u IH|u IH|u IH|u IH|u IH|u IH];
    intros rest Hrest;
    try (cbn [uintChars app digitRun]; unfold digitChar;
         cbn [digitCons]; cbv [ascii_of_nat]; simpl; rewrite (IH rest Hrest); reflexivity).
  destruct rest as [|c rest]; [reflexivity|].
  cbn [uintChars app digitRun]. simpl in Hrest. rewrite (digitCons_none c Hrest). reflexivity.
Qed.

Lemma nzhead_no_leading_zero :
  forall d, match Decimal.nzhead d with Decimal.D0 _ => False | _ => True end.
Proof. induction d; simpl; auto. Qed.

Lemma to_uint_leading :
  forall p, match Pos.to_uint p with
            | Decimal.Nil | Decimal.D0 _ => False
            | _ => True
            end.
Proof.
  intros p.
  assert (Hnorm : Decimal.unorm (Pos.to_uint p) = Pos.to_uint p).
  { rewrite <- DecimalPos.Unsigned.to_of, DecimalPos.Unsigned.of_to. reflexivity. }
  pose proof (Unsigned.to_uint_nonnil p) as Hnil.
  pose proof (Unsigned.to_uint_nonzero p) as Hzero.
  pose proof (nzhead_no_leading_zero (Pos.to_uint p)) as Hhead.
  unfold Decimal.unorm in Hnorm.
  destruct (Pos.to_uint p) as [|u|u|u|u|u|u|u|u|u|u]; try exact I; try congruence.
  destruct (Decimal.nzhead (Decimal.D0 u)); try congruence; try contradiction.
Qed.

Lemma parseIntPart_positive :
  forall p rest, noDigitAhead rest ->
    parseIntPart (uintChars (Pos.to_uint p) ++ rest) = Parsed (Pos.to_uint p) rest.
Proof.
  intros p rest Hrest.
  pose proof (to_uint_leading p) as Hlead.
  pose proof (digitRun_uintChars (Pos.to_uint p) rest Hrest) as Hrun.
  destruct (Pos.to_uint p) as [|u|u|u|u|u|u|u|u|u|u]; try contradiction;
    cbn [uintChars app] in *; unfold parseIntPart;
    unfold digitChar in *; simpl Ascii.eqb; simpl isDigit;
    cbv iota; rewrite Hrun; reflexivity.
Qed.

Lemma Z_of_uint_to_uint : forall p, Z.of_uint (Pos.to_uint p) = Z.pos p.
Proof. intros p. exact (DecimalZ.of_to (Z.pos p)). Qed.

Lemma parseNumber_stringify :
  forall z rest,
    (- maxSafeInteger <=? z)%Z && (z <=? maxSafeInteger)%Z = true ->
    noDigitAhead rest ->
    startsFraction rest = false ->
    parseNumber (numberToString z ++ rest) = Parsed (JNumber z) rest.
Proof.
  intros z rest Hsafe Hrest Hfrac.
  apply andb_true_iff in Hsafe as [Hlo Hhi].
  unfold numberToString. destruct z as [|p|p]; cbn [Z.to_int].
  - cbn [uintChars app]. unfold parseNumber, digitChar. simpl.
    rewrite Hfrac. reflexivity.
  - pose proof (parseIntPart_positive p rest Hrest) as Hint.
    destruct (uintChars_head (Pos.to_uint p) (Unsigned.to_uint_nonnil p)) as [c [r [E Hc]]].
    unfold parseNumber. rewrite E in *. cbn [app] in *.
    assert (Hminus : Ascii.eqb c "-"%char = false).
    { revert Hc. clear. each_ascii c; intros H; try discriminate H; reflexivity. }
    rewrite Hminus, Hint. cbn [parseBind]. rewrite Hfrac, Z_of_uint_to_uint, Hhi.
    reflexivity.
  - pose proof (parseIntPart_positive p rest Hrest) as Hint.
    unfold parseNumber. cbn [app]. rewrite Ascii.eqb_refl, Hint.
    cbn [parseBind]. rewrite Hfrac, Z_of_uint_to_uint.
    assert (Hle : (Z.pos p <=? maxSafeInteger)%Z = true).
    { apply Z.leb_le. apply Z.leb_le in Hlo. unfold maxSafeInteger in *. lia. }
    rewrite Hle. reflexivity.
Qed.

Lemma parseValue_number :
  forall f c r,
    (Ascii.eqb c "-"%char || isDigit c) = true ->
    parseValue (S f) (c :: r) = parseNumber (c :: r).
Proof.
  intros f c r. each_ascii c; intros H; try discriminate H; reflexivity.
Qed.

(** ** Objects *)

Lemma jsEqb_refl : forall a, jsEqb a a = true.
Proof. induction a as [|x a IH]; simpl; [reflexivity|]. rewrite Ascii.eqb_refl. exact IH. Qed.

Lemma distinctKeys_app_fresh :
  forall (acc : list jsstring) k rest,
    distinctKeys (acc ++ k :: rest) = true ->
    existsb (fun k' => jsEqb k' k) acc = false.
Proof.
  induction acc as [|a acc IH]; intros k rest H; [reflexivity|].
  cbn [app distinctKeys] in H. apply andb_true_iff in H as [Ha H].
  cbn [existsb]. rewrite (IH k rest H), orb_false_r.
  apply negb_true_iff in Ha. rewrite existsb_app in Ha.
  apply orb_false_iff in Ha as [_ Ha]. cbn [existsb] in Ha.
  apply orb_false_iff in Ha as [Ha _]. exact Ha.
Qed.

Lemma defineProperty_fresh :
  forall acc k v,
    existsb (fun k' => jsEqb k' k) (map fst acc) = false ->
    defineProperty acc k v = acc ++ [(k, v)].
Proof.
  induction acc as [|[k' v'] acc IH]; intros k v H; [reflexivity|].
  cbn [map fst existsb] in H. apply orb_false_iff in H as [Hk H].
  cbn [defineProperty app]. rewrite Hk, (IH k v H). reflexivity.
Qed.

(** ** Values *)

Lemma parseValue_bracket :
  forall f r,
    parseValue (S f) ("["%char :: r) =
    match skipWs r with
    | c' :: r' =>
        if Ascii.eqb c' "]"%char then Parsed (JArray []) r'
        else parseElements f (c' :: r') []
    | [] => SyntaxError
    end.
Proof. reflexivity. Qed.

Lemma parseValue_brace :
  forall f r,
    parseValue (S f) ("{"%char :: r) =
    match skipWs r with
    | c' :: r' =>
        if Ascii.eqb c' "}"%char then Parsed (JObject []) r'
        else parseMembers f (c' :: r') []
    | [] => SyntaxError
    end.
Proof. reflexivity. Qed.

Lemma parseValue_quote :
  forall f r,
    parseValue (S f) (dquote :: r) =
    parseBind (parseStringBody r []) (fun str r' => Parsed (JString str) r').
Proof. reflexivity. Qed.

Lemma parseElements_step :
  forall f s acc,
    parseElements (S f) s acc =
    parseBind (parseValue f s) (fun v r =>
      match skipWs r with
      | c :: r' =>
          if Ascii.eqb c ","%char then parseElements f r' (v :: acc)
          else if Ascii.eqb c "]"%char then Parsed (JArray (rev (v :: acc))) r'
          else SyntaxError
      | [] => SyntaxError
      end).
Proof. reflexivity. Qed.

Lemma parseMembers_step :
  forall f r acc,
    parseMembers (S f) (dquote :: r) acc =
    parseBind (parseStringBody r []) (fun k r1 =>
      match skipWs r1 with
      | c1 :: r2 =>
          if Ascii.eqb c1 ":"%char then
            parseBind (parseValue f r2) (fun v r3 =>
              match skipWs r3 with
              | c3 :: r4 =>
                  if Ascii.eqb c3 ","%char
                  then parseMembers f r4 (defineProperty acc k v)
                  else if Ascii.eqb c3 "}"%char
                  then Parsed (JObject (defineProperty acc k v)) r4
                  else SyntaxError
              | [] => SyntaxError
              end)
          else SyntaxError
      | [] => SyntaxError
      end).
Proof. reflexivity. Qed.

Lemma joinComma_cons2 :
  forall x y l, joinComma (x :: y :: l) = x ++ ","%char :: joinComma (y :: l).
Proof. reflexivity. Qed.

Lemma JSON_stringify_length : forall v, 1 <= length (JSON_stringify v).
Proof.
  intros v. destruct (JSON_stringify_head v) as [c [r [E _]]]. rewrite E. simpl. lia.
Qed.

Lemma joinComma_head :
  forall v l, exists c r,
    joinComma (map JSON_stringify (v :: l)) = c :: r /\ valueStart c = true.
Proof.
  intros v l. destruct (JSON_stringify_head v) as [c [r [E H]]].
  destruct l as [|y l]; cbn [map].
  - exists c, r. split; [exact E | exact H].
  - rewrite joinComma_cons2, E. eexists c, _. split; [reflexivity | exact H].
Qed.

Lemma joinComma_members_head :
  forall kv m, exists r, joinComma (map memberText (kv :: m)) = dquote :: r.
Proof.
  intros kv m. destruct m as [|y m]; cbn [map].
  - eexists. reflexivity.
  - rewrite joinComma_cons2. eexists. reflexivity.
Qed.

Lemma wellFormed_object :
  forall m, wellFormed (JObject m) =
    distinctKeys (map fst m) && forallb wellFormedMember m.
Proof. reflexivity. Qed.

Lemma wellFormed_array : forall l, wellFormed (JArray l) = forallb wellFormed l.
Proof. reflexivity. Qed.

(** The three parsing functions on serialized text, for every fuel that
    exceeds twice the length of the text to read. *)
Lemma parse_stringify_fuel :
  forall fuel,
    (forall v rest,
       wellFormed v = true ->
       2 * length (JSON_stringify v) < fuel ->
       endsNumber rest ->
       parseValue fuel (JSON_stringify v ++ rest) = Parsed v rest) /\
    (forall v l acc rest,
       forallb wellFormed (v :: l) = true ->
       2 * length (joinComma (map JSON_stringify (v :: l))) + 1 < fuel ->
       parseElements fuel (joinComma (map JSON_stringify (v :: l)) ++ "]"%char :: rest) acc =
       Parsed (JArray (rev acc ++ v :: l)) rest) /\
    (forall kv m acc rest,
       forallb wellFormedMember (kv :: m) = true ->
       distinctKeys (map fst (acc ++ kv :: m)) = true ->
       2 * length (joinComma (map memberText (kv :: m))) + 1 < fuel ->
       parseMembers fuel (joinComma (map memberText (kv :: m)) ++ "}"%char :: rest) acc =
       Parsed (JObject (acc ++ kv :: m)) rest).
Proof.
  induction fuel as [|f [IHv [IHe IHm]]].
  - repeat split; intros; lia.
  - split; [|split].
    + (* a value *)
      intros v rest Hwf Hfuel [Hdig Hfrac].
      destruct v as [|[]|z|s|l|m]; try reflexivity.
      * (* number *)
        destruct (numberToString_head z) as [c [r [E Hc]]].
        cbn [JSON_stringify] in *. rewrite E. cbn [app].
        rewrite (parseValue_number f c (r ++ rest) Hc).
        change (c :: r ++ rest) with ((c :: r) ++ rest). rewrite <- E.
        apply parseNumber_stringify; assumption.
      * (* string *)
        cbn [JSON_stringify]. unfold quoteJSONString. cbn [app].
        rewrite parseValue_quote, <- List.app_assoc. cbn [app].
        rewrite parseStringBody_quoted. reflexivity.
      * (* array *)
        rewrite JSON_stringify_array in *. cbn [app]. rewrite parseValue_bracket.
        rewrite <- List.app_assoc. cbn [app].
        destruct l as [|v l]; [reflexivity|].
        destruct (joinComma_head v l) as [c [r [E Hc]]].
        destruct (valueStart_facts c Hc) as [Hsp [_ [Hbr _]]].
        rewrite E. cbn [app]. rewrite (skipWs_cons c _ Hsp), Hbr.
        change (c :: r ++ "]"%char :: rest) with ((c :: r) ++ "]"%char :: rest).
        rewrite <- E. rewrite wellFormed_array in Hwf.
        rewrite (IHe v l [] rest Hwf); [reflexivity|].
        cbn [length] in Hfuel. rewrite length_app in Hfuel. cbn [length] in Hfuel. lia.
      * (* object *)
        rewrite JSON_stringify_object in *. cbn [app]. rewrite parseValue_brace.
        rewrite <- List.app_assoc. cbn [app].
        destruct m as [|kv m]; [reflexivity|].
        destruct (joinComma_members_head kv m) as [r E].
        rewrite E. cbn [app].
        rewrite (skipWs_cons dquote _ eq_refl).
        change (Ascii.eqb dquote "}"%char) with false. cbv iota.
        change (dquote :: r ++ "}"%char :: rest) with ((dquote :: r) ++ "}"%char :: rest).
        rewrite <- E. rewrite wellFormed_object in Hwf.
        apply andb_true_iff in Hwf as [Hkeys Hwf].
        rewrite (IHm kv m [] rest Hwf Hkeys); [reflexivity|].
        cbn [length] in Hfuel. rewrite length_app in Hfuel. cbn [length] in Hfuel. lia.
    + (* the elements of an array *)
      intros v l acc rest Hwf Hfuel.
      cbn [forallb] in Hwf. apply andb_true_iff in Hwf as [Hv Hl].
      rewrite parseElements_step.
      destruct l as [|y l].
      * cbn [map joinComma] in *.
        rewrite (IHv v ("]"%char :: rest) Hv); [|lia|split; reflexivity].
        cbn [parseBind]. rewrite (skipWs_cons "]"%char rest eq_refl).
        change (Ascii.eqb "]"%char ","%char) with false.
        change (Ascii.eqb "]"%char "]"%char) with true. cbv iota.
        cbn [rev]. reflexivity.
      * cbn [map] in *. rewrite joinComma_cons2 in *.
        rewrite length_app in Hfuel. cbn [length] in Hfuel.
        rewrite <- List.app_assoc. cbn [app].
        rewrite (IHv v _ Hv); [|lia|split; reflexivity].
        cbn [parseBind]. rewrite (skipWs_cons ","%char _ eq_refl).
        change (Ascii.eqb ","%char ","%char) with true. cbv iota.
        pose proof (JSON_stringify_length v) as Hlen.
        rewrite (IHe y l (v :: acc) rest Hl); [|cbn [map]; lia].
        cbn [rev]. rewrite <- List.app_assoc. reflexivity.
    + (* the members of an object *)
      intros [k v] m acc rest Hwf Hkeys Hfuel.
      cbn [forallb] in Hwf. apply andb_true_iff in Hwf as [Hv Hm].
      unfold wellFormedMember in Hv. cbn [snd] in Hv.
      assert (Hfresh : defineProperty acc k v = acc ++ [(k, v)]).
      { apply defineProperty_fresh. rewrite map_app in Hkeys. cbn [map fst] in Hkeys.
        exact (distinctKeys_app_fresh _ _ _ Hkeys). }
      pose proof (JSON_stringify_length v) as Hlen.
      destruct (JSON_stringify_head v) as [c [r [E Hc]]].
      destruct (valueStart_facts c Hc) as [Hsp _].
      destruct m as [|y m].
      * cbn [map joinComma] in *. unfold memberText in *. cbn [fst snd] in *.
        unfold quoteJSONString in *. cbn [app].
        rewrite parseMembers_step. rewrite <- !List.app_assoc. cbn [app].
        rewrite parseStringBody_quoted. cbn [parseBind rev app].
        rewrite (skipWs_cons ":"%char _ eq_refl).
        change (Ascii.eqb ":"%char ":"%char) with true. cbv iota.
        rewrite !length_app in Hfuel. cbn [length] in Hfuel. rewrite length_app in Hfuel.
        cbn [length] in Hfuel.
        rewrite (IHv v ("}"%char :: rest) Hv); [|lia|split; reflexivity].
        cbn [parseBind]. rewrite (skipWs_cons "}"%char rest eq_refl).
        change (Ascii.eqb "}"%char ","%char) with false.
        change (Ascii.eqb "}"%char "}"%char) with true. cbv iota.
        rewrite Hfresh. reflexivity.
      * cbn [map] in *. rewrite joinComma_cons2 in *.
        unfold memberText at 1. unfold memberText at 1 in Hfuel. cbn [fst snd] in *.
        unfold quoteJSONString in *. cbn [app].
        rewrite parseMembers_step. rewrite <- !List.app_assoc. cbn [app].
        rewrite <- ?List.app_assoc. cbn [app].
        rewrite parseStringBody_quoted. cbn [parseBind rev app].
        rewrite (skipWs_cons ":"%char _ eq_refl).
        change (Ascii.eqb ":"%char ":"%char) with true. cbv iota.
        cbn [length] in Hfuel. rewrite !length_app in Hfuel. cbn [length] in Hfuel.
        rewrite !length_app in Hfuel. cbn [length] in Hfuel.
        rewrite (IHv v _ Hv); [|lia|split; reflexivity].
        cbn [parseBind]. rewrite (skipWs_cons ","%char _ eq_refl).
        change (Ascii.eqb ","%char ","%char) with true. cbv iota.
        rewrite Hfresh.
        rewrite (IHm y m (acc ++ [(k, v)]) rest Hm).
        -- rewrite <- List.app_assoc. reflexivity.
        -- rewrite <- List.app_assoc. exact Hkeys.
        -- cbn [map]. lia.
Qed.

(** A serialized value is read back, with any text behind it that cannot
    continue a number. *)
Lemma parseValue_stringify :
  forall v rest,
    wellFormed v = true ->
    endsNumber rest ->
    parseValue (S (2 * length (JSON_stringify v ++ rest))) (JSON_stringify v ++ rest) =
    Parsed v rest.
Proof.
  intros v rest Hwf Hrest.
  apply (proj1 (parse_stringify_fuel _)); [exact Hwf | | exact Hrest].
  rewrite length_app. lia.
Qed.

(** [JSON.parse (JSON.stringify v)] is [v]. *)
Lemma JSON_parse_stringify :
  forall v, wellFormed v = true -> JSON_parse (JSON_stringify v) = Parsed v [].
Proof.
  intros v Hwf. unfold JSON_parse.
  pose proof (parseValue_stringify v [] Hwf (conj I eq_refl)) as H.
  rewrite List.app_nil_r in H. rewrite H. reflexivity.
Qed.

(** ** The fuel of [JSON.parse] is enough *)

Lemma consumes_longer :
  forall A (p : Parse A) s s', consumes p s -> length s <= length s' -> consumes p s'.
Proof. intros A [a r| | |] s s' H Hle; simpl in *; try exact H. lia. Qed.

Lemma skipWs_length : forall s, length (skipWs s) <= length s.
Proof.
  induction s as [|c s IH]; simpl; [lia|].
  destruct (isJsonSpace c); simpl; lia.
Qed.

Lemma stripPrefix_length :
  forall p s r, stripPrefix p s = Some r -> length r + length p = length s.
Proof.
  induction p as [|a p IH]; intros s r H.
  - simpl in H. injection H as <-. simpl. lia.
  - destruct s as [|b s]; [discriminate H|]. simpl in H.
    destruct (Ascii.eqb a b); [|discriminate H].
    apply IH in H. simpl. lia.
Qed.

Lemma parseLiteral_consumes :
  forall c word v s, consumes (parseLiteral (c :: word) v s) s.
Proof.
  intros c word v s. unfold parseLiteral.
  destruct (stripPrefix (c :: word) s) as [r|] eqn:E; [|exact I].
  apply stripPrefix_length in E. simpl in *. lia.
Qed.

Lemma parseStringBody_consumes :
  forall n s acc, length s <= n -> consumes (parseStringBody s acc) s.
Proof.
  induction n as [|n IH]; intros s acc Hn.
  - destruct s; [exact I | simpl in Hn; lia].
  - destruct s as [|c r]; [exact I|]. cbn [parseStringBody].
    destruct (Ascii.eqb c dquote); [simpl; lia|].
    destruct (Ascii.eqb c backslash).
    + destruct r as [|e r']; [exact I|].
      destruct (simpleEscape e).
      * apply (consumes_longer _ _ r'); [apply IH; simpl in Hn; lia | simpl; lia].
      * destruct (Ascii.eqb e "u"%char); [|exact I].
        destruct r' as [|h1 [|h2 [|h3 [|h4 r'']]]]; try exact I.
        destruct (hexValue4 h1 h2 h3 h4) as [k|]; [|exact I].
        destruct (k <? 256); [|exact I].
        apply (consumes_longer _ _ r''); [apply IH; simpl in Hn; lia | simpl; lia].
    + destruct (nat_of_ascii c <? 32); [exact I|].
      apply (consumes_longer _ _ r); [apply IH; simpl in Hn; lia | simpl; lia].
Qed.

Lemma digitRun_length : forall s, length (snd (digitRun s)) <= length s.
Proof.
  induction s as [|c s IH]; simpl; [lia|].
  destruct (digitCons c) as [d|]; [|simpl; lia].
  destruct (digitRun s) as [u r]. simpl in *. lia.
Qed.

Lemma parseIntPart_consumes : forall s, consumes (parseIntPart s) s.
Proof.
  intros s. unfold parseIntPart. destruct s as [|c r]; [exact I|].
  destruct (Ascii.eqb c "0"%char); [simpl; lia|].
  destruct (isDigit c) eqn:Hd; [|exact I].
  cbn [digitRun].
  assert (Hc : exists d, digitCons c = Some d).
  { revert Hd. clear. each_ascii c; intros H; try discriminate H; eexists; reflexivity. }
  destruct Hc as [d ->].
  pose proof (digitRun_length r) as Hlen.
  destruct (digitRun r) as [digits rest]. simpl in *. lia.
Qed.

Lemma parseNumber_consumes : forall s, consumes (parseNumber s) s.
Proof.
  intros s. unfold parseNumber.
  assert (Hrest : forall s1, length s1 <= length s ->
            consumes
              (parseBind (parseIntPart s1) (fun u r =>
                 if startsFraction r then Unmodelled
                 else if (Z.of_uint u <=? maxSafeInteger)%Z
                      then Parsed (JNumber (Z.of_uint u)) r else Unmodelled)) s /\
            consumes
              (parseBind (parseIntPart s1) (fun u r =>
                 if startsFraction r then Unmodelled
                 else if (Z.of_uint u <=? maxSafeInteger)%Z
                      then Parsed (JNumber (- Z.of_uint u)) r else Unmodelled)) s).
  { intros s1 Hle. pose proof (parseIntPart_consumes s1) as H.
    destruct (parseIntPart s1) as [u r| | |]; simpl in *; try (split; exact I); try contradiction.
    destruct (startsFraction r); [split; exact I|].
    destruct (Z.of_uint u <=? maxSafeInteger)%Z; simpl; split; try exact I; lia. }
  destruct s as [|c r].
  - apply (Hrest []). lia.
  - destruct (Ascii.eqb c "-"%char).
    + apply (Hrest r). simpl. lia.
    + apply (Hrest (c :: r)). lia.
Qed.

Lemma parseValue_unfold :
  forall f s,
    parseValue (S f) s =
    match skipWs s with
    | [] => SyntaxError
    | c :: r =>
        if Ascii.eqb c "{"%char then
          match skipWs r with
          | c' :: r' =>
              if Ascii.eqb c' "}"%char then Parsed (JObject []) r'
              else parseMembers f (c' :: r') []
          | [] => SyntaxError
          end
        else if Ascii.eqb c "["%char then
          match skipWs r with
          | c' :: r' =>
              if Ascii.eqb c' "]"%char then Parsed (JArray []) r'
              else parseElements f (c' :: r') []
          | [] => SyntaxError
          end
        else if Ascii.eqb c dquote then
          parseBind (parseStringBody r []) (fun str r' => Parsed (JString str) r')
        else if Ascii.eqb c "-"%char || isDigit c then parseNumber (c :: r)
        else if Ascii.eqb c "t"%char then parseLiteral (lit "true") (JBool true) (c :: r)
        else if Ascii.eqb c "f"%char then parseLiteral (lit "false") (JBool false) (c :: r)
        else if Ascii.eqb c "n"%char then parseLiteral (lit "null") JNull (c :: r)
        else SyntaxError
    end.
Proof. reflexivity. Qed.

Lemma parseMembers_unfold :
  forall f s acc,
    parseMembers (S f) s acc =
    match skipWs s with
    | c :: r =>
        if Ascii.eqb c dquote then
          parseBind (parseStringBody r []) (fun k r1 =>
            match skipWs r1 with
            | c1 :: r2 =>
                if Ascii.eqb c1 ":"%char then
                  parseBind (parseValue f r2) (fun v r3 =>
                    match skipWs r3 with
                    | c3 :: r4 =>
                        if Ascii.eqb c3 ","%char
                        then parseMembers f r4 (defineProperty acc k v)
                        else if Ascii.eqb c3 "}"%char
                        then Parsed (JObject (defineProperty acc k v)) r4
                        else SyntaxError
                    | [] => SyntaxError
                    end)
                else SyntaxError
            | [] => SyntaxError
            end)
        else SyntaxError
    | [] => SyntaxError
    end.
Proof. reflexivity. Qed.

(** With more fuel than twice the length of the text, no parsing function
    runs out of fuel, and each leaves less text than it was given. *)
Lemma parse_within_fuel :
  forall fuel,
    (forall s, 2 * length s < fuel -> consumes (parseValue fuel s) s) /\
    (forall s acc, 2 * length s + 1 < fuel -> consumes (parseElements fuel s acc) s) /\
    (forall s acc, 2 * length s + 1 < fuel -> consumes (parseMembers fuel s acc) s).
Proof.
  induction fuel as [|f [IHv [IHe IHm]]].
  - repeat split; intros; lia.
  - split; [|split].
    + intros s Hfuel. rewrite parseValue_unfold.
      pose proof (skipWs_length s) as Hs.
      destruct (skipWs s) as [|c r]; [exact I|]. simpl in Hs.
      destruct (Ascii.eqb c "{"%char).
      { pose proof (skipWs_length r) as Hr.
        destruct (skipWs r) as [|c' r']; [exact I|]. simpl in Hr.
        destruct (Ascii.eqb c' "}"%char); [simpl; lia|].
        apply (consumes_longer _ _ (c' :: r')); [apply IHm; simpl; lia | simpl; lia]. }
      destruct (Ascii.eqb c "["%char).
      { pose proof (skipWs_length r) as Hr.
        destruct (skipWs r) as [|c' r']; [exact I|]. simpl in Hr.
        destruct (Ascii.eqb c' "]"%char); [simpl; lia|].
        apply (consumes_longer _ _ (c' :: r')); [apply IHe; simpl; lia | simpl; lia]. }
      destruct (Ascii.eqb c dquote).
      { pose proof (parseStringBody_consumes (length r) r [] (Nat.le_refl _)) as Hb.
        destruct (parseStringBody r []) as [k r1| | |]; simpl in *; try exact I; try contradiction.
        lia. }
      destruct (Ascii.eqb c "-"%char || isDigit c).
      { apply (consumes_longer _ _ (c :: r)); [apply parseNumber_consumes | exact Hs]. }
      destruct (Ascii.eqb c "t"%char).
      { apply (consumes_longer _ _ (c :: r)); [apply parseLiteral_consumes | exact Hs]. }
      destruct (Ascii.eqb c "f"%char).
      { apply (consumes_longer _ _ (c :: r)); [apply parseLiteral_consumes | exact Hs]. }
      destruct (Ascii.eqb c "n"%char).
      { apply (consumes_longer _ _ (c :: r)); [apply parseLiteral_consumes | exact Hs]. }
      exact I.
    + intros s acc Hfuel. rewrite parseElements_step.
      pose proof (IHv s ltac:(lia)) as Hv.
      destruct (parseValue f s) as [v r| | |]; simpl in *; try exact I; try contradiction.
      pose proof (skipWs_length r) as Hr.
      destruct (skipWs r) as [|c r']; [exact I|]. simpl in Hr.
      destruct (Ascii.eqb c ","%char).
      { apply (consumes_longer _ _ r'); [apply IHe; lia | lia]. }
      destruct (Ascii.eqb c "]"%char); [simpl; lia | exact I].
    + intros s acc Hfuel. rewrite parseMembers_unfold.
      pose proof (skipWs_length s) as Hs.
      destruct (skipWs s) as [|c r]; [exact I|]. simpl in Hs.
      destruct (Ascii.eqb c dquote); [|exact I].
      pose proof (parseStringBody_consumes (length r) r [] (Nat.le_refl _)) as Hb.
      destruct (parseStringBody r []) as [k r1| | |]; simpl in *; try exact I; try contradiction.
      pose proof (skipWs_length r1) as Hr1.
      destruct (skipWs r1) as [|c1 r2]; [exact I|]. simpl in Hr1.
      destruct (Ascii.eqb c1 ":"%char); [|exact I].
      pose proof (IHv r2 ltac:(lia)) as Hv.
      destruct (parseValue f r2) as [v r3| | |]; simpl in *; try exact I; try contradiction.
      pose proof (skipWs_length r3) as Hr3.
      destruct (skipWs r3) as [|c3 r4]; [exact I|]. simpl in Hr3.
      destruct (Ascii.eqb c3 ","%char).
      { apply (consumes_longer _ _ r4); [apply IHm; lia | lia]. }
      destruct (Ascii.eqb c3 "}"%char); [simpl; lia | exact I].
Qed.

(** [JSON.parse] ends on every text: it gives a value, a syntax error, or
    meets input outside the embedding. *)
Lemma JSON_parse_total : forall s, JSON_parse s <> OutOfFuel.
Proof.
  intros s. unfold JSON_parse.
  pose proof (proj1 (parse_within_fuel (S (2 * length s))) s ltac:(lia)) as H.
  destruct (parseValue (S (2 * length s)) s) as [v r| | |]; simpl in *;
    try discriminate; try contradiction.
  destruct (skipWs r); discriminate.
Qed.

(* ===================================================================== *)
(** * The JSON normalizer: properties *)
(* ===================================================================== *)

Lemma fenced_solid : forall tag body, solid (fenced tag body).
Proof.
  intros tag body. unfold fenced. split.
  - exists backtick. eexists. split; reflexivity.
  - exists (lit "```" ++ tag ++ newline :: body ++ newline :: lit "``"), backtick.
    split; [|reflexivity].
    rewrite <- !List.app_assoc. cbn [app]. rewrite <- List.app_assoc. reflexivity.
Qed.

Lemma solid_not_empty : forall s, solid s -> isEmpty s = false.
Proof. intros s [[c [r [-> _]]] _]. reflexivity. Qed.

(** On a fenced block, the normalizer parses the repaired body. *)
Lemma parseJsonFromText_fenced :
  forall tag body,
    forallb isWordChar tag = true ->
    solid body ->
    parseJsonFromText (fenced tag body) =
    match JSON_parse (insertMissingCommas body) with
    | Parsed v _ => Value v
    | SyntaxError => Null
    | Unmodelled | OutOfFuel => NotModelled
    end.
Proof.
  intros tag body Htag Hbody. unfold parseJsonFromText.
  rewrite (trim_solid (fenced tag body) (fenced_solid tag body)).
  rewrite (exec_jsonFence_fenced tag body Htag Hbody).
  cbn [nth]. rewrite (solid_not_empty body Hbody), (trim_solid body Hbody).
  reflexivity.
Qed.

(** A string that holds a closing and an opening brace comes back with a
    comma between them. *)
Lemma roundtrip_alters_brace_pair :
  wellFormed braces = true /\
  parseJsonFromText (fenced (lit "json") (JSON_stringify braces)) =
  Value (JString (lit "},{")) /\
  Value (JString (lit "},{")) <> Value braces.
Proof.
  split; [reflexivity|]. split; [vm_compute; reflexivity | discriminate].
Qed.

(** C9, amended.  For every JSON value whose serialization holds no closing
    brace followed, white space apart, by an opening brace, the normalizer
    applied to the serialization in a fenced block gives the value back. *)
Theorem normalizer_roundtrip :
  forall v tag,
    wellFormed v = true ->
    forallb isWordChar tag = true ->
    repairApplies (JSON_stringify v) = false ->
    parseJsonFromText (fenced tag (JSON_stringify v)) = Value v.
Proof.
  intros v tag Hwf Htag Hrepair.
  rewrite (parseJsonFromText_fenced tag _ Htag (JSON_stringify_solid v)).
  rewrite (insertMissingCommas_id _ Hrepair), (JSON_parse_stringify v Hwf).
  reflexivity.
Qed.

Lemma normalizer_roundtrip_witness :
  parseJsonFromText (fenced (lit "json") (JSON_stringify sampleValue)) = Value sampleValue.
Proof.
  apply (normalizer_roundtrip sampleValue (lit "json")); reflexivity.
Defined.

(** Two object literals side by side become two values with a comma between
    them, which is not one JSON text: the normalizer gives [null]. *)
Lemma adjacent_objects_give_null :
  parseJsonFromText
    (fenced (lit "json") (JSON_stringify objectA ++ JSON_stringify objectB)) = Null.
Proof. vm_compute. reflexivity. Qed.

Lemma repaired_pair :
  forall m1 m2 before after,
    repairApplies (before ++ JSON_stringify (JObject m1)) = false ->
    repairApplies (JSON_stringify (JObject m2) ++ after) = false ->
    insertMissingCommas
      (before ++ JSON_stringify (JObject m1) ++ JSON_stringify (JObject m2) ++ after) =
    before ++ JSON_stringify (JObject m1) ++ ","%char :: JSON_stringify (JObject m2) ++ after.
Proof.
  intros m1 m2 before after H1 H2.
  rewrite !JSON_stringify_object in *.
  set (J1 := joinComma (map memberText m1)) in *.
  set (J2 := joinComma (map memberText m2)) in *.
  replace (before ++ ("{"%char :: J1 ++ ["}"%char]) ++ ("{"%char :: J2 ++ ["}"%char]) ++ after)
    with ((before ++ "{"%char :: J1) ++ "}"%char :: "{"%char :: ((J2 ++ ["}"%char]) ++ after)).
  2:{ flatten_app. reflexivity. }
  rewrite insertMissingCommas_between.
  - cbn [lit list_ascii_of_string]. flatten_app. reflexivity.
  - replace ((before ++ "{"%char :: J1) ++ ["}"%char])
      with (before ++ "{"%char :: J1 ++ ["}"%char]) by (flatten_app; reflexivity).
    exact H1.
  - exact H2.
Qed.

(** C3, amended.  Two object literals with the comma between them missing
    are recovered when they are the elements of an array: the normalizer
    gives the array of both.  Standing alone in the fenced block, they give
    [null]. *)
Theorem missing_comma_repair :
  forall m1 m2 tag,
    wellFormed (JObject m1) = true ->
    wellFormed (JObject m2) = true ->
    forallb isWordChar tag = true ->
    repairApplies (JSON_stringify (JObject m1)) = false ->
    repairApplies (JSON_stringify (JObject m2)) = false ->
    parseJsonFromText
      (fenced tag
         (lit "[" ++ JSON_stringify (JObject m1) ++ JSON_stringify (JObject m2) ++ lit "]")) =
    Value (JArray [JObject m1; JObject m2]) /\
    parseJsonFromText
      (fenced tag (JSON_stringify (JObject m1) ++ JSON_stringify (JObject m2))) = Null.
Proof.
  intros m1 m2 tag Hwf1 Hwf2 Htag Hr1 Hr2.
  split.
  - rewrite parseJsonFromText_fenced; [|exact Htag|].
    + rewrite repaired_pair.
      * replace (lit "[" ++ JSON_stringify (JObject m1) ++
                 ","%char :: JSON_stringify (JObject m2) ++ lit "]")
          with (JSON_stringify (JArray [JObject m1; JObject m2])).
        2:{ rewrite JSON_stringify_array. cbn [map joinComma lit list_ascii_of_string].
            flatten_app. reflexivity. }
        rewrite JSON_parse_stringify; [reflexivity|].
        rewrite wellFormed_array. cbn [forallb]. rewrite Hwf1, Hwf2. reflexivity.
      * exact Hr1.
      * change (lit "]") with ["]"%char]. rewrite repairApplies_app_bracket. exact Hr2.
    + split.
      * exists "["%char. eexists. split; reflexivity.
      * exists (lit "[" ++ JSON_stringify (JObject m1) ++ JSON_stringify (JObject m2)), "]"%char.
        split; [|reflexivity]. flatten_app. reflexivity.
  - rewrite parseJsonFromText_fenced; [|exact Htag|].
    + pose proof (repaired_pair m1 m2 [] [] Hr1) as Hpair.
      cbn [app] in Hpair. rewrite !List.app_nil_r in Hpair. rewrite (Hpair Hr2).
      unfold JSON_parse.
      rewrite (parseValue_stringify (JObject m1) (","%char :: JSON_stringify (JObject m2))
                 Hwf1 (conj eq_refl eq_refl)).
      reflexivity.
    + split.
      * rewrite JSON_stringify_object. exists "{"%char. eexists. split; reflexivity.
      * rewrite (JSON_stringify_object m2).
        exists (JSON_stringify (JObject m1) ++ "{"%char :: joinComma (map memberText m2)),
               "}"%char.
        split; [|reflexivity]. flatten_app. reflexivity.
Qed.

Lemma missing_comma_repair_witness :
  parseJsonFromText
    (fenced (lit "json")
       (lit "[" ++ JSON_stringify objectA ++ JSON_stringify objectB ++ lit "]")) =
  Value (JArray [objectA; objectB]) /\
  parseJsonFromText
    (fenced (lit "json") (JSON_stringify objectA ++ JSON_stringify objectB)) = Null.
Proof.
  apply (missing_comma_repair [(lit "a", JNumber 1)] [(lit "b", JNumber 2)] (lit "json"));
    reflexivity.
Defined.

(* ===================================================================== *)
(** * The normalizers: white space, fences and diagrams *)
(* ===================================================================== *)

Lemma trimStart_spaces : forall pre s, allSpaces pre = true -> trimStart (pre ++ s) = trimStart s.
Proof.
  induction pre as [|c pre IH]; intros s H; [reflexivity|].
  cbn [allSpaces forallb] in H. apply andb_true_iff in H as [Hc H].
  cbn [app trimStart]. rewrite Hc. apply IH. exact H.
Qed.

Lemma trimStart_all_spaces : forall s, allSpaces s = true -> trimStart s = [].
Proof.
  intros s H. rewrite <- (List.app_nil_r s). rewrite (trimStart_spaces s [] H). reflexivity.
Qed.

Lemma trimStart_app :
  forall s t, allSpaces s = false -> trimStart (s ++ t) = trimStart s ++ t.
Proof.
  induction s as [|c s IH]; intros t H; [discriminate H|].
  cbn [allSpaces forallb] in H. cbn [app trimStart].
  destruct (isWhiteSpace c); [|reflexivity].
  apply IH. exact H.
Qed.

Lemma allSpaces_rev : forall s, allSpaces (rev s) = allSpaces s.
Proof.
  unfold allSpaces. induction s as [|c s IH]; [reflexivity|].
  cbn [rev forallb]. rewrite forallb_app, IH. cbn [forallb].
  rewrite andb_true_r. apply andb_comm.
Qed.

Lemma trimEnd_spaces : forall s post, allSpaces post = true -> trimEnd (s ++ post) = trimEnd s.
Proof.
  intros s post H. unfold trimEnd. rewrite rev_app_distr.
  rewrite trimStart_spaces; [reflexivity|]. rewrite allSpaces_rev. exact H.
Qed.

(** [trim] does not see white space around a text. *)
Lemma trim_spaces :
  forall pre s post,
    allSpaces pre = true -> allSpaces post = true ->
    trim (pre ++ s ++ post) = trim s.
Proof.
  intros pre s post Hpre Hpost. unfold trim.
  rewrite (trimStart_spaces pre _ Hpre).
  destruct (allSpaces s) eqn:Hs.
  - rewrite (trimStart_spaces s post Hs), (trimStart_all_spaces post Hpost).
    rewrite (trimStart_all_spaces s Hs). reflexivity.
  - rewrite (trimStart_app s post Hs). apply trimEnd_spaces. exact Hpost.
Qed.

Lemma trimStart_head :
  forall s, trimStart s = [] \/ exists c r, trimStart s = c :: r /\ isWhiteSpace c = false.
Proof.
  induction s as [|c s IH]; [left; reflexivity|].
  cbn [trimStart]. destruct (isWhiteSpace c) eqn:Hc; [exact IH|].
  right. exists c, s. split; [reflexivity | exact Hc].
Qed.

Lemma trimStart_keeps_last :
  forall x c, isWhiteSpace c = false -> trimStart (x ++ [c]) = trimStart x ++ [c].
Proof.
  induction x as [|y x IH]; intros c Hc.
  - simpl. rewrite Hc. reflexivity.
  - cbn [app trimStart]. destruct (isWhiteSpace y); [apply IH; exact Hc | reflexivity].
Qed.

(** What [trim] gives is empty or solid. *)
Lemma trim_empty_or_solid : forall s, trim s = [] \/ solid (trim s).
Proof.
  intros s. unfold trim.
  destruct (trimStart_head s) as [E | [c [r [E Hc]]]]; rewrite E; [left; reflexivity|].
  right. unfold trimEnd. cbn [rev]. rewrite (trimStart_keeps_last (rev r) c Hc).
  rewrite rev_app_distr. cbn [rev app]. split.
  - exists c. eexists. split; [reflexivity | exact Hc].
  - destruct (trimStart_head (rev r)) as [E' | [y [t [E' Hy]]]]; rewrite E'.
    + exists [], c. split; [reflexivity | exact Hc].
    + cbn [rev]. exists (c :: rev t), y. split; [reflexivity | exact Hy].
Qed.

Lemma trim_idempotent : forall s, trim (trim s) = trim s.
Proof.
  intros s. destruct (trim_empty_or_solid s) as [E | H].
  - rewrite E. reflexivity.
  - apply trim_solid. exact H.
Qed.

(** X2.  White space around its input makes no difference to
    [parseJsonFromText]. *)
Theorem parseJsonFromText_ignores_outer_spaces :
  forall pre text post,
    allSpaces pre = true -> allSpaces post = true ->
    parseJsonFromText (pre ++ text ++ post) = parseJsonFromText text.
Proof.
  intros pre text post Hpre Hpost. unfold parseJsonFromText.
  rewrite (trim_spaces pre text post Hpre Hpost). reflexivity.
Qed.

Lemma parseJsonFromText_ignores_outer_spaces_witness :
  parseJsonFromText (lit "
  " ++ JSON_stringify sampleValue ++ lit "   ") =
  parseJsonFromText (JSON_stringify sampleValue).
Proof.
  apply (parseJsonFromText_ignores_outer_spaces (lit "
  ") (JSON_stringify sampleValue) (lit "   ")); reflexivity.
Defined.

Lemma exec_jsonFence_unfenced :
  forall c r, Ascii.eqb backtick c = false -> exec jsonFenceRegex (c :: r) = None.
Proof.
  intros c r H.
  change (exec (IChar (Chr backtick) :: IChar (Chr backtick) :: IChar (Chr backtick)
                :: IStar Word true :: IStar Space false :: IOptChar (Chr newline)
                :: ILazy AnyChar true :: closing) (c :: r) = None).
  rewrite exec_char. cbn [inClass]. rewrite H. reflexivity.
Qed.

(** X1.  The fence is transparent: a solid text that does not start with a
    backtick is normalized to the same result with and without a fenced
    block around it. *)
Theorem parseJsonFromText_fence_transparent :
  forall tag c r,
    forallb isWordChar tag = true ->
    solid (c :: r) ->
    Ascii.eqb backtick c = false ->
    parseJsonFromText (fenced tag (c :: r)) = parseJsonFromText (c :: r).
Proof.
  intros tag c r Htag Hsolid Hc.
  rewrite (parseJsonFromText_fenced tag (c :: r) Htag Hsolid).
  unfold parseJsonFromText.
  rewrite (trim_solid (c :: r) Hsolid), (exec_jsonFence_unfenced c r Hc).
  reflexivity.
Qed.

Lemma parseJsonFromText_fence_transparent_witness :
  parseJsonFromText (fenced (lit "json") (lit "[1, 2" ++ lit "]")) =
  parseJsonFromText (lit "[1, 2" ++ lit "]").
Proof.
  apply (parseJsonFromText_fence_transparent (lit "json") "["%char (lit "1, 2]")).
  - reflexivity.
  - split.
    + exists "["%char, (lit "1, 2]"). split; reflexivity.
    + exists (lit "[1, 2"), "]"%char. split; reflexivity.
  - reflexivity.
Defined.

(** ** Diagrams *)

Lemma wordChar_facts :
  forall c, isWordChar c = true ->
    isWhiteSpace c = false /\ Ascii.eqb newline c = false /\ Ascii.eqb backtick c = false.
Proof. intros c. each_ascii c; intros H; try discriminate H; repeat split. Qed.

Lemma space_not_backtick :
  forall c, isWhiteSpace c = false -> Ascii.eqb newline c = false.
Proof.
  intros c H. destruct (Ascii.eqb_spec newline c) as [<-|_]; [discriminate H | reflexivity].
Qed.

Lemma greedyStar_stopped :
  forall k cont c r taken,
    inClass k c = false -> greedyStar k cont (c :: r) taken = cont taken (c :: r).
Proof. intros k cont c r taken H. cbn [greedyStar]. rewrite H. reflexivity. Qed.

(** The line that ends the body of a diagram block. *)
Lemma mermaid_closing_none :
  forall b0 c2,
    isWhiteSpace c2 = false ->
    exec (IChar (Chr newline) :: IStar Space false :: fence)
      ((b0 ++ [c2]) ++ newline :: lit "```") = None.
Proof.
  intros b0 c2 Hc.
  destruct b0 as [|x b0]; cbn [app]; rewrite exec_char; cbn [inClass].
  - rewrite (space_not_backtick c2 Hc). reflexivity.
  - destruct (Ascii.eqb newline x); [|reflexivity].
    apply spaces_fence_none. intros a Ha. apply solid_end_not_spaces; assumption.
Qed.

Lemma exec_mermaidBody :
  forall body,
    solid body ->
    exec mermaidBody (body ++ newline :: lit "```") = Some [body].
Proof.
  intros body [_ [r2 [c2 [E2 H2]]]].
  unfold mermaidBody. cbn [app]. rewrite exec_lazy.
  apply lazyStar_run.
  - intros a b Hsplit Hb.
    assert (Hend : exists b0, b = b0 ++ [c2]).
    { rewrite E2 in Hsplit.
      destruct (exists_last Hb) as [b0 [x Hx]]. subst b.
      rewrite List.app_assoc in Hsplit. apply app_inj_tail in Hsplit as [_ ->].
      exists b0. reflexivity. }
    destruct Hend as [b0 ->].
    rewrite (mermaid_closing_none b0 c2 H2). reflexivity.
  - unfold withCapture. rewrite List.app_nil_r, rev_involutive. reflexivity.
Qed.

(** Behind the opening fence and the optional word: white space, a line
    feed and the body. *)
Lemma exec_mermaid_after_tag :
  forall body,
    solid body ->
    exec (IStar Space false :: IChar (Chr newline) :: mermaidBody)
      (newline :: body ++ newline :: lit "```") = Some [body].
Proof.
  intros body Hsolid.
  destruct Hsolid as [[c1 [r1 [E1 H1]]] Hlast].
  assert (Hsolid : solid body) by (split; [exists c1, r1; split; assumption | exact Hlast]).
  rewrite exec_star. cbn [greedyStar inClass].
  change (isWhiteSpace newline) with true. cbv iota.
  rewrite E1 at 1. cbn [app].
  rewrite greedyStar_stopped by exact H1.
  unfold withCapture at 1. rewrite exec_char. cbn [inClass].
  rewrite (space_not_backtick c1 H1). cbn [orElse].
  unfold withCapture. rewrite exec_char. cbn [inClass]. rewrite Ascii.eqb_refl.
  apply exec_mermaidBody. exact Hsolid.
Qed.

Lemma exec_mermaidFence_fenced :
  forall tag body,
    tag = [] \/ tag = lit "mermaid" ->
    solid body ->
    exec mermaidFenceRegex (fenced tag body) = Some [body].
Proof.
  intros tag body Htag Hsolid.
  change (exec (IChar (Chr backtick) :: IChar (Chr backtick) :: IChar (Chr backtick)
                :: IOptLit (lit "mermaid") :: IStar Space false :: IChar (Chr newline)
                :: mermaidBody)
            (backtick :: backtick :: backtick :: (tag ++ newline :: body ++ newline :: lit "```"))
          = Some [body]).
  rewrite !exec_char. cbn [inClass]. rewrite Ascii.eqb_refl.
  pose proof (exec_mermaid_after_tag body Hsolid) as Hrest.
  destruct Htag as [-> | ->].
  - cbn [app]. cbn [exec stripPrefix lit list_ascii_of_string Ascii.eqb Bool.eqb].
    exact Hrest.
  - change (lit "mermaid" ++ newline :: body ++ newline :: lit "```")
      with (lit "mermaid" ++ (newline :: body ++ newline :: lit "```")).
    assert (Hstrip : forall s, stripPrefix (lit "mermaid") (lit "mermaid" ++ s) = Some s)
      by reflexivity.
    change (exec (IOptLit (lit "mermaid") :: ?r) ?s)
      with (match stripPrefix (lit "mermaid") s with
            | Some s' => orElse (exec r s') (exec r s)
            | None => exec r s
            end).
    rewrite Hstrip, Hrest. reflexivity.
Qed.

(** X3.  A diagram in a fenced block that carries no tag or the tag
    mermaid is taken out of its block: for a solid body that starts with one
    of the two graph declarations, [parseMermaidFromText] gives the body. *)
Theorem parseMermaidFromText_fenced :
  forall tag body,
    tag = [] \/ tag = lit "mermaid" ->
    solid body ->
    startsGraph body = true ->
    parseMermaidFromText (fenced tag body) = Some body.
Proof.
  intros tag body Htag Hsolid Hgraph. unfold parseMermaidFromText.
  rewrite (trim_solid (fenced tag body) (fenced_solid tag body)).
  rewrite (exec_mermaidFence_fenced tag body Htag Hsolid).
  cbn [nth]. rewrite (solid_not_empty body Hsolid), (trim_solid body Hsolid).
  unfold startsGraph in Hgraph. rewrite Hgraph. reflexivity.
Qed.

Lemma parseMermaidFromText_fenced_witness :
  parseMermaidFromText (fenced (lit "mermaid") sampleDiagram) = Some sampleDiagram.
Proof.
  apply (parseMermaidFromText_fenced (lit "mermaid") sampleDiagram).
  - right. reflexivity.
  - split.
    + exists "g"%char. eexists. split; reflexivity.
    + exists (lit "graph TD
  A --> "), "B"%char. split; reflexivity.
  - reflexivity.
Defined.

Lemma stripPrefix_word :
  forall m tag rest s',
    forallb isWordChar m = true ->
    match rest with [] => True | x :: _ => isWordChar x = false end ->
    stripPrefix m (tag ++ rest) = Some s' ->
    exists t, tag = m ++ t /\ s' = t ++ rest.
Proof.
  induction m as [|a m IH]; intros tag rest s' Hm Hrest H.
  - simpl in H. injection H as <-. exists tag. split; reflexivity.
  - cbn [forallb] in Hm. apply andb_true_iff in Hm as [Ha Hm].
    destruct tag as [|b tag].
    + cbn [app] in H. destruct rest as [|x rest]; [discriminate H|].
      cbn [stripPrefix] in H.
      destruct (Ascii.eqb_spec a x) as [<-|_]; [|discriminate H].
      rewrite Ha in Hrest. discriminate Hrest.
    + cbn [app stripPrefix] in H.
      destruct (Ascii.eqb_spec a b) as [<-|_]; [|discriminate H].
      destruct (IH tag rest s' Hm Hrest H) as [t [-> ->]].
      exists t. split; reflexivity.
Qed.

Lemma exec_mermaid_word_ahead :
  forall c r,
    isWordChar c = true ->
    exec (IStar Space false :: IChar (Chr newline) :: mermaidBody) (c :: r) = None.
Proof.
  intros c r Hc. destruct (wordChar_facts c Hc) as [Hs [Hn _]].
  rewrite exec_star, greedyStar_stopped by exact Hs.
  unfold withCapture. rewrite exec_char. cbn [inClass]. rewrite Hn. reflexivity.
Qed.

(** A fenced block tagged with any other word is not taken for a diagram
    block. *)
Lemma exec_mermaidFence_other_tag :
  forall tag body,
    forallb isWordChar tag = true ->
    tag <> [] -> tag <> lit "mermaid" ->
    exec mermaidFenceRegex (fenced tag body) = None.
Proof.
  intros tag body Hword Hne Hnm.
  change (exec (IChar (Chr backtick) :: IChar (Chr backtick) :: IChar (Chr backtick)
                :: IOptLit (lit "mermaid") :: IStar Space false :: IChar (Chr newline)
                :: mermaidBody)
            (backtick :: backtick :: backtick :: (tag ++ newline :: body ++ newline :: lit "```"))
          = None).
  rewrite !exec_char. cbn [inClass]. rewrite Ascii.eqb_refl.
  set (rest := newline :: body ++ newline :: lit "```").
  change (exec (IOptLit (lit "mermaid") :: ?r) ?s)
    with (match stripPrefix (lit "mermaid") s with
          | Some s' => orElse (exec r s') (exec r s)
          | None => exec r s
          end).
  assert (Hskip : exec (IStar Space false :: IChar (Chr newline) :: mermaidBody)
                    (tag ++ rest) = None).
  { destruct tag as [|c tag]; [congruence|].
    cbn [forallb] in Hword. apply andb_true_iff in Hword as [Hc _].
    apply exec_mermaid_word_ahead. exact Hc. }
  destruct (stripPrefix (lit "mermaid") (tag ++ rest)) as [s'|] eqn:E; [|exact Hskip].
  rewrite Hskip.
  destruct (stripPrefix_word (lit "mermaid") tag rest s' eq_refl eq_refl E) as [t [Et ->]].
  destruct t as [|c t].
  - rewrite List.app_nil_r in Et. contradiction.
  - rewrite Et, forallb_app in Hword. apply andb_true_iff in Hword as [_ Hword].
    cbn [forallb] in Hword. apply andb_true_iff in Hword as [Hc _].
    cbn [app]. rewrite (exec_mermaid_word_ahead c _ Hc). reflexivity.
Qed.

(** What [parseMermaidFromText] gives starts with a graph declaration and
    has no white space around it. *)
Lemma parseMermaidFromText_startsGraph :
  forall text code,
    parseMermaidFromText text = Some code ->
    startsGraph code = true /\ trim code = code.
Proof.
  intros text code H. unfold parseMermaidFromText in H.
  set (chosen :=
         match exec mermaidFenceRegex (trim text) with
         | Some captures =>
             if isEmpty (nth 0 captures []) then trim text else trim (nth 0 captures [])
         | None => trim text
         end) in H.
  assert (Htrim : trim chosen = chosen).
  { unfold chosen. destruct (exec mermaidFenceRegex (trim text)) as [captures|].
    - destruct (isEmpty (nth 0 captures [])); apply trim_idempotent.
    - apply trim_idempotent. }
  fold (startsGraph chosen) in H.
  destruct (startsGraph chosen) eqn:Hg; [|discriminate H].
  injection H as <-. split; [exact Hg | exact Htrim].
Qed.

Lemma parseMermaidFromText_spaces :
  forall pre text post,
    allSpaces pre = true -> allSpaces post = true ->
    parseMermaidFromText (pre ++ text ++ post) = parseMermaidFromText text.
Proof.
  intros pre text post Hpre Hpost. unfold parseMermaidFromText.
  rewrite (trim_spaces pre text post Hpre Hpost). reflexivity.
Qed.

Lemma parseMermaidFromText_block :
  forall tag body,
    tag = [] \/ tag = lit "mermaid" ->
    solid body ->
    startsGraph body = true ->
    parseMermaidFromText (fenced tag body) = Some body.
Proof.
  intros tag body Htag Hsolid Hgraph. unfold parseMermaidFromText.
  rewrite (trim_solid (fenced tag body) (fenced_solid tag body)).
  rewrite (exec_mermaidFence_fenced tag body Htag Hsolid).
  cbn [nth]. rewrite (solid_not_empty body Hsolid), (trim_solid body Hsolid).
  unfold startsGraph in Hgraph. rewrite Hgraph. reflexivity.
Qed.

(** X4.  [parseMermaidFromText] gives a diagram only if it starts with one
    of the two graph declarations, and gives it without white space around
    it; a fenced block tagged with a word other than mermaid gives [null]
    whatever it holds. *)
Theorem parseMermaidFromText_sound :
  (forall text code,
     parseMermaidFromText text = Some code ->
     startsGraph code = true /\ trim code = code) /\
  (forall tag body,
     forallb isWordChar tag = true -> tag <> [] -> tag <> lit "mermaid" ->
     parseMermaidFromText (fenced tag body) = None).
Proof.
  split.
  - exact parseMermaidFromText_startsGraph.
  - intros tag body Hword Hne Hnm. unfold parseMermaidFromText.
    rewrite (trim_solid (fenced tag body) (fenced_solid tag body)).
    rewrite (exec_mermaidFence_other_tag tag body Hword Hne Hnm).
    reflexivity.
Qed.

(* ===================================================================== *)
(** * The retry executor: every ceiling, every operation *)
(* ===================================================================== *)

Lemma calls_app : forall a b, calls (a ++ b) = calls a + calls b.
Proof.
  induction a as [|ev a IH]; intros b; [reflexivity|].
  cbn [app calls]. rewrite IH. lia.
Qed.

Lemma sleeps_app : forall a b, sleeps (a ++ b) = sleeps a + sleeps b.
Proof.
  induction a as [|ev a IH]; intros b; [reflexivity|].
  destruct ev; cbn [app sleeps]; rewrite IH; reflexivity.
Qed.

Lemma totalSlept_app : forall a b, (totalSlept (a ++ b) = totalSlept a + totalSlept b)%Z.
Proof.
  induction a as [|ev a IH]; intros b; [reflexivity|].
  destruct ev; cbn [app totalSlept]; rewrite IH; lia.
Qed.

Lemma totalSlept_rev : forall a, totalSlept (rev a) = totalSlept a.
Proof.
  induction a as [|ev a IH]; [reflexivity|].
  cbn [rev]. rewrite totalSlept_app, IH. destruct ev; cbn [totalSlept]; lia.
Qed.

Lemma totalSlept_backoff :
  forall observed k attempt delay,
    totalSlept (backoffEvents observed attempt delay k) = (delay * (2 ^ Z.of_nat k - 1))%Z.
Proof.
  induction k as [|k IH]; intros attempt delay.
  - simpl. ring.
  - cbn [backoffEvents totalSlept]. rewrite totalSlept_app.
    cbn [totalSlept]. rewrite IH.
    rewrite Nat2Z.inj_succ, Z.pow_succ_r by lia.
    destruct observed; cbn [totalSlept]; ring.
Qed.

(** X5.  For every ceiling of at least one attempt: when the first
    [maxAttempts] invocations all fail with transiently classified errors,
    [withRetry] rejects with the error of the last of them, after
    [maxAttempts] invocations, each but the last followed by a call of the
    observer and a sleep of twice the delay before; it has slept
    [initialDelay * (2 ^ (maxAttempts - 1) - 1)] in all. *)
Theorem withRetry_exhausts :
  forall T (outcomes : nat -> Outcome T) (errs : nat -> JsError)
         maxAttempts initialDelay observed w,
    1 <= maxAttempts ->
    (forall j, j < maxAttempts ->
       outcomes (invocations w + j) = Rejected (errs j) /\
       classifiedTransient (errs j) = true) ->
    let added := EvInvoke :: rev (backoffEvents observed 0 initialDelay (maxAttempts - 1)) in
    withRetry (scripted outcomes) maxAttempts initialDelay (retryObserver observed) w =
    (Rejected (errs (maxAttempts - 1)), added ++ w) /\
    invocations added = maxAttempts /\
    totalSlept added = (initialDelay * (2 ^ Z.of_nat (maxAttempts - 1) - 1))%Z.
Proof.
  intros T outcomes errs M d observed w HM Hfail added. subst added.
  split; [|split].
  - unfold withRetry. rewrite Nat.sub_0_r.
    rewrite (retryLoop_backoff T outcomes M observed errs (M - 1) M 0 d w).
    + replace (M - (M - 1)) with 1 by lia.
      cbn [retryLoop Nat.add]. unfold scripted.
      rewrite invocations_app, invocations_rev, invocations_backoff.
      destruct (Hfail (M - 1) ltac:(lia)) as [Hlast Htr].
      rewrite (Nat.add_comm (M - 1)), Hlast.
      unfold classifiedTransient in Htr.
      destruct (JSON_stringify_error (errs (M - 1))) as [s| |] eqn:Hs; try discriminate.
      rewrite (catchClause_gives_up M (retryObserver observed) (S (M - 1)) _
                 (errs (M - 1)) s _ Hs).
      * reflexivity.
      * replace (S (M - 1) <? M) with false; [apply andb_false_r|].
        symmetry. apply Nat.ltb_ge. lia.
    + intros j Hj. apply Hfail. lia.
    + lia.
    + lia.
  - cbn [invocations]. rewrite invocations_rev, invocations_backoff. lia.
  - cbn [totalSlept]. rewrite totalSlept_rev. apply totalSlept_backoff.
Qed.

Lemma withRetry_exhausts_witness :
  withRetry (scripted (fun _ : nat => @Rejected nat rateLimited)) 5 250
    (retryObserver true) [] =
  (Rejected rateLimited,
   (EvInvoke :: rev (backoffEvents true 0 250 (5 - 1))) ++ []) /\
  invocations (EvInvoke :: rev (backoffEvents true 0 250 (5 - 1))) = 5 /\
  totalSlept (EvInvoke :: rev (backoffEvents true 0 250 (5 - 1))) =
  (250 * (2 ^ Z.of_nat (5 - 1) - 1))%Z.
Proof.
  apply (withRetry_exhausts nat (fun _ : nat => @Rejected nat rateLimited)
           (fun _ => rateLimited) 5 250 true []).
  - lia.
  - intros j Hj. split; reflexivity.
Defined.

(** The loop, started with attempts to spare, for any operation that makes
    one call each time. *)
Lemma retryLoop_effort :
  forall T (fn : Async T) maxAttempts onRetry,
    oneCall fn ->
    quietObserver onRetry ->
    forall remaining attempt delay w,
      attempt + remaining = maxAttempts ->
      1 <= remaining ->
      exists k added,
        1 <= k <= remaining /\
        snd (retryLoop fn maxAttempts onRetry remaining attempt delay w) = added ++ w /\
        calls added = k /\
        sleeps added = k - 1 /\
        totalSlept added = (delay * (2 ^ Z.of_nat (k - 1) - 1))%Z.
Proof.
  intros T fn M onRetry Hfn Hquiet.
  induction remaining as [|remaining IH]; intros attempt delay w Hsum Hrem; [lia|].
  assert (Hstop : forall ev, isCall ev = true ->
            exists k added,
              1 <= k <= S remaining /\ ev :: w = added ++ w /\ calls added = k /\
              sleeps added = k - 1 /\
              totalSlept added = (delay * (2 ^ Z.of_nat (k - 1) - 1))%Z).
  { intros ev Hev. exists 1, [ev]. repeat split; try lia.
    - cbn [calls]. rewrite Hev. reflexivity.
    - destruct ev; try discriminate Hev; reflexivity.
    - destruct ev; try discriminate Hev; simpl; ring. }
  cbn [retryLoop].
  destruct (Hfn w) as [ev [Hw Hev]].
  destruct (fn w) as [[v|err] w1]; cbn [snd] in Hw; subst w1.
  - cbn [snd]. apply Hstop. exact Hev.
  - unfold catchClause.
    destruct (JSON_stringify_error err) as [s| |]; try (cbn [throw snd]; apply Hstop; exact Hev).
    destruct (isRateLimitText s && (S attempt <? M)) eqn:Hretry;
      [|cbn [throw snd]; apply Hstop; exact Hev].
    apply andb_true_iff in Hretry as [_ Hlt]. apply Nat.ltb_lt in Hlt.
    assert (Hobs : exists seen,
              (match onRetry with
               | Some callback => callback (S attempt) delay
               | None => ret tt
               end) (ev :: w) = (Resolved tt, seen ++ ev :: w) /\
              calls seen = 0 /\ sleeps seen = 0 /\ totalSlept seen = 0%Z).
    { destruct onRetry as [callback|].
      - apply Hquiet.
      - exists []. repeat split. }
    destruct Hobs as [seen [Hseen [Hc [Hs Ht]]]].
    unfold bind at 1. rewrite Hseen. unfold sleep, emit.
    destruct (IH (S attempt) (delay * 2)%Z (EvSleep delay :: seen ++ ev :: w)
                ltac:(lia) ltac:(lia)) as [k [added [Hk [Hadded [Hcalls [Hsleeps Htotal]]]]]].
    exists (S k), (added ++ EvSleep delay :: seen ++ [ev]).
    split; [lia|]. split; [|split; [|split]].
    + rewrite Hadded. rewrite <- !List.app_assoc. cbn [app].
      rewrite <- List.app_assoc. reflexivity.
    + rewrite calls_app. cbn [calls isCall]. rewrite calls_app, Hc, Hcalls.
      cbn [calls]. rewrite Hev. lia.
    + rewrite sleeps_app. cbn [sleeps]. rewrite sleeps_app, Hs, Hsleeps.
      assert (sleeps [ev] = 0) as -> by (destruct ev; try discriminate Hev; reflexivity).
      lia.
    + rewrite totalSlept_app. cbn [totalSlept]. rewrite totalSlept_app, Ht, Htotal.
      assert (totalSlept [ev] = 0%Z) as -> by (destruct ev; try discriminate Hev; reflexivity).
      replace (S k - 1) with (S (k - 1)) by lia.
      rewrite Nat2Z.inj_succ, Z.pow_succ_r by lia. ring.
Qed.

Lemma withRetry_effort_any :
  forall T (fn : Async T) maxAttempts initialDelay onRetry w,
    1 <= maxAttempts ->
    oneCall fn ->
    quietObserver onRetry ->
    exists k added,
      1 <= k <= maxAttempts /\
      snd (withRetry fn maxAttempts initialDelay onRetry w) = added ++ w /\
      calls added = k /\
      sleeps added = k - 1 /\
      totalSlept added = (initialDelay * (2 ^ Z.of_nat (k - 1) - 1))%Z.
Proof.
  intros T fn M d onRetry w HM Hfn Hquiet. unfold withRetry. rewrite Nat.sub_0_r.
  apply retryLoop_effort; try assumption. reflexivity.
Qed.

Lemma scripted_oneCall : forall T (outcomes : nat -> Outcome T), oneCall (scripted outcomes).
Proof. intros T outcomes w. exists EvInvoke. split; reflexivity. Qed.

Lemma models_generateContent_oneCall :
  forall client request, oneCall (models_generateContent client request).
Proof. intros client request w. eexists. split; reflexivity. Qed.

Lemma models_generateImages_oneCall :
  forall client request, oneCall (models_generateImages client request).
Proof. intros client request w. eexists. split; reflexivity. Qed.

Lemma recordRetry_quiet : quietObserver (Some recordRetry).
Proof.
  intros attempt delay w. exists [EvRetry attempt delay]. repeat split.
Qed.

(** X6.  What [withRetry] costs, for every operation that makes one call
    each time it is invoked and every observer that only looks on: with a
    ceiling of at least one attempt it makes [k] calls, between one and the
    ceiling, sleeps [k - 1] times, once between two calls, and sleeps
    [initialDelay * (2 ^ (k - 1) - 1)] in all, however the calls end. *)
Theorem withRetry_effort :
  forall T (fn : Async T) maxAttempts initialDelay onRetry w,
    1 <= maxAttempts ->
    oneCall fn ->
    quietObserver onRetry ->
    exists k added,
      1 <= k <= maxAttempts /\
      snd (withRetry fn maxAttempts initialDelay onRetry w) = added ++ w /\
      calls added = k /\
      sleeps added = k - 1 /\
      totalSlept added = (initialDelay * (2 ^ Z.of_nat (k - 1) - 1))%Z.
Proof.
  intros T fn M d onRetry w HM Hfn Hquiet. unfold withRetry. rewrite Nat.sub_0_r.
  apply retryLoop_effort; [exact Hfn | exact Hquiet | reflexivity | exact HM].
Qed.

Lemma withRetry_effort_witness :
  exists k added,
    1 <= k <= 3 /\
    snd (withRetry (models_generateImages sampleImages (imagesRequest (widen (lit "a leaf"))))
           3 1000 (Some recordRetry) [EvSleep 1000]) = added ++ [EvSleep 1000] /\
    calls added = k /\
    sleeps added = k - 1 /\
    totalSlept added = (1000 * (2 ^ Z.of_nat (k - 1) - 1))%Z.
Proof.
  apply (withRetry_effort GenerateImagesResponse
           (models_generateImages sampleImages (imagesRequest (widen (lit "a leaf"))))
           3 1000 (Some recordRetry) [EvSleep 1000]).
  - lia.
  - apply models_generateImages_oneCall.
  - apply recordRetry_quiet.
Defined.

(** The loop settles as its last invocation does. *)
Lemma retryLoop_settles :
  forall T (outcomes : nat -> Outcome T) maxAttempts observed remaining attempt delay w,
    attempt + remaining = maxAttempts ->
    1 <= remaining ->
    exists k,
      1 <= k <= remaining /\
      invocations
        (snd (retryLoop (scripted outcomes) maxAttempts (retryObserver observed)
                remaining attempt delay w)) = invocations w + k /\
      (forall j, j < k - 1 ->
         exists err, outcomes (invocations w + j) = Rejected err /\
                     classifiedTransient err = true) /\
      settlesAs
        (fst (retryLoop (scripted outcomes) maxAttempts (retryObserver observed)
                remaining attempt delay w))
        (outcomes (invocations w + (k - 1))) /\
      (k < remaining ->
         forall err, outcomes (invocations w + (k - 1)) = Rejected err ->
                     classifiedTransient err = false).
Proof.
  intros T outcomes M observed.
  induction remaining as [|remaining IH]; intros attempt delay w Hsum Hrem; [lia|].
  cbn [retryLoop]. unfold scripted at 1 3.
  destruct (outcomes (invocations w)) as [v|err] eqn:Hout.
  - exists 1. cbn [snd fst invocations]. rewrite Nat.add_0_r, Hout.
    split; [lia|]. split; [lia|]. split; [intros j Hj; lia|].
    split; [reflexivity|]. intros _ err Herr. discriminate Herr.
  - destruct (classifiedTransient err && (S attempt <? M)) eqn:Hretry.
    + apply andb_true_iff in Hretry as [Htr Hlt]. apply Nat.ltb_lt in Hlt.
      rewrite (catchClause_transient M observed (S attempt) delay err
                 (EvInvoke :: w) Htr Hlt).
      set (w2 := EvSleep delay :: (if observed then [EvRetry (S attempt) delay] else [])
                   ++ EvInvoke :: w).
      assert (Hw2 : invocations w2 = S (invocations w)).
      { unfold w2. destruct observed; reflexivity. }
      destruct (IH (S attempt) (delay * 2)%Z w2 ltac:(lia) ltac:(lia))
        as [k [Hk [Hinv [Hbefore [Hsettle Hearly]]]]].
      rewrite Hw2 in Hinv, Hbefore, Hsettle, Hearly.
      exists (S k). split; [lia|]. split; [rewrite Hinv; lia|].
      replace (S k - 1) with (S (k - 1)) by lia.
      replace (invocations w + S (k - 1)) with (S (invocations w) + (k - 1)) by lia.
      split; [|split; [exact Hsettle|]].
      * intros j Hj. destruct j as [|j].
        -- exists err. rewrite Nat.add_0_r. split; assumption.
        -- replace (invocations w + S j) with (S (invocations w) + j) by lia.
           apply Hbefore. lia.
      * intros Hlt'. apply Hearly. lia.
    + exists 1. cbn [Nat.sub]. rewrite Nat.add_0_r, Hout.
      unfold catchClause, settlesAs, surfaced. unfold classifiedTransient in Hretry.
      destruct (JSON_stringify_error err) as [s| |] eqn:Hs.
      * rewrite Hretry. cbn [throw snd fst invocations].
        split; [lia|]. split; [lia|]. split; [intros j Hj; lia|].
        split; [reflexivity|]. intros Hone e He. injection He as <-.
        unfold classifiedTransient. rewrite Hs.
        apply andb_false_iff in Hretry as [H|H]; [exact H|].
        apply Nat.ltb_ge in H. lia.
      * cbn [throw snd fst invocations].
        split; [lia|]. split; [lia|]. split; [intros j Hj; lia|].
        split; [reflexivity|]. intros _ e He. injection He as <-.
        unfold classifiedTransient. rewrite Hs. reflexivity.
      * cbn [throw snd fst invocations].
        split; [lia|]. split; [lia|]. split; [intros j Hj; lia|].
        split; [reflexivity|]. intros _ e He. injection He as <-.
        unfold classifiedTransient. rewrite Hs. reflexivity.
Qed.

(** X7.  [withRetry] settles as its last invocation does.  With a ceiling
    of at least one attempt it invokes the operation [k] times, between one
    and the ceiling; the first [k - 1] of them failed with transiently
    classified errors; it resolves with the result of the last one, or
    rejects with its error (with the error of the catch clause when that
    error has no serialization), so never with the error of the exhausted
    loop; and it stops below the ceiling only on a result or on an error
    that is not classified transient. *)
Theorem withRetry_settles_as_last_invocation :
  forall T (outcomes : nat -> Outcome T) maxAttempts initialDelay observed w,
    1 <= maxAttempts ->
    exists k,
      1 <= k <= maxAttempts /\
      invocations
        (snd (withRetry (scripted outcomes) maxAttempts initialDelay
                (retryObserver observed) w)) = invocations w + k /\
      (forall j, j < k - 1 ->
         exists err, outcomes (invocations w + j) = Rejected err /\
                     classifiedTransient err = true) /\
      settlesAs
        (fst (withRetry (scripted outcomes) maxAttempts initialDelay
                (retryObserver observed) w))
        (outcomes (invocations w + (k - 1))) /\
      (k < maxAttempts ->
         forall err, outcomes (invocations w + (k - 1)) = Rejected err ->
                     classifiedTransient err = false).
Proof.
  intros T outcomes M d observed w HM. unfold withRetry. rewrite Nat.sub_0_r.
  apply retryLoop_settles; [reflexivity | exact HM].
Qed.

Lemma withRetry_settles_as_last_invocation_witness :
  exists k,
    1 <= k <= 4 /\
    invocations
      (snd (withRetry (scripted (fun i => if i <? 2 then Rejected rateLimited
                                          else @Rejected nat unauthorized))
              4 1000 (retryObserver false) [])) = invocations [] + k /\
    (forall j, j < k - 1 ->
       exists err,
         (fun i => if i <? 2 then Rejected rateLimited else @Rejected nat unauthorized)
           (invocations [] + j) = Rejected err /\
         classifiedTransient err = true) /\
    settlesAs
      (fst (withRetry (scripted (fun i => if i <? 2 then Rejected rateLimited
                                          else @Rejected nat unauthorized))
              4 1000 (retryObserver false) []))
      ((fun i => if i <? 2 then Rejected rateLimited else @Rejected nat unauthorized)
         (invocations [] + (k - 1))) /\
    (k < 4 ->
       forall err,
         (fun i => if i <? 2 then Rejected rateLimited else @Rejected nat unauthorized)
           (invocations [] + (k - 1)) = Rejected err ->
         classifiedTransient err = false).
Proof.
  apply (withRetry_settles_as_last_invocation nat
           (fun i => if i <? 2 then Rejected rateLimited else @Rejected nat unauthorized)
           4 1000 false []).
  lia.
Defined.

(* ===================================================================== *)
(** * Content generation: limits, defaults and effort *)
(* ===================================================================== *)

Lemma substring0_twice :
  forall n m s, n <= m -> substring0 n (substring0 m s) = substring0 n s.
Proof.
  intros n m s H. unfold substring0. rewrite firstn_firstn.
  rewrite Nat.min_l by exact H. reflexivity.
Qed.

Lemma substring0_short :
  forall n m s, n <= m -> (length (substring0 m s) <? n) = (length s <? n).
Proof.
  intros n m s H. unfold substring0. rewrite length_firstn.
  destruct (Nat.ltb_spec (length s) n) as [H1|H1].
  - apply Nat.ltb_lt. lia.
  - apply Nat.ltb_ge. lia.
Qed.

(** X8.  The operations read a bounded part of their input: the first 8000
    characters for the summary, the explanation, the notes and the quiz,
    the first 1000 for the feedback and the first 500 for the metadata.
    What lies behind has no effect on the request sent, on the result or on
    the choice of a placeholder. *)
Theorem content_beyond_limit_ignored :
  forall (ai : option GoogleGenAI) (content : jsstring) (w : Trace),
    generateSummary ai content w = generateSummary ai (substring0 8000 content) w /\
    generateExplanation ai content w = generateExplanation ai (substring0 8000 content) w /\
    (forall length,
       generateNotes ai content length w =
       generateNotes ai (substring0 8000 content) length w) /\
    (forall count,
       generateQuizQuestions ai content count w =
       generateQuizQuestions ai (substring0 8000 content) count w) /\
    (forall score total,
       generateFeedbackOnQuiz ai score total (Some content) w =
       generateFeedbackOnQuiz ai score total (Some (substring0 1000 content)) w) /\
    suggestMetadata ai content w = suggestMetadata ai (substring0 500 content) w.
Proof.
  intros ai content w.
  assert (Hsum : summaryRequest (substring0 8000 content) = summaryRequest content).
  { unfold summaryRequest, summaryPrompt, MAX_CONTENT_LENGTH_FOR_GENERATION.
    rewrite substring0_twice by lia. reflexivity. }
  assert (Hexp : explanationRequest (substring0 8000 content) = explanationRequest content).
  { unfold explanationRequest, explanationPrompt, MAX_CONTENT_LENGTH_FOR_GENERATION.
    rewrite substring0_twice by lia. reflexivity. }
  assert (Hnotes : forall length,
            notesRequest (substring0 8000 content) length = notesRequest content length).
  { intros length. unfold notesRequest, notesPrompt, MAX_CONTENT_LENGTH_FOR_GENERATION.
    rewrite substring0_twice by lia. reflexivity. }
  assert (Hquiz : forall count,
            quizRequest (substring0 8000 content) count = quizRequest content count).
  { intros count. unfold quizRequest, quizPrompt, MAX_CONTENT_LENGTH_FOR_GENERATION.
    rewrite substring0_twice by lia. reflexivity. }
  assert (Hfeed : forall score total,
            feedbackRequest score total (Some (substring0 1000 content)) =
            feedbackRequest score total (Some content)).
  { intros score total. unfold feedbackRequest, feedbackPrompt. cbn [option_map].
    rewrite substring0_twice by lia. reflexivity. }
  assert (Hmeta : metadataRequest (substring0 500 content) = metadataRequest content).
  { unfold metadataRequest, suggestMetadataPrompt.
    rewrite substring0_twice by lia. reflexivity. }
  assert (Hfall : metadataFallback (substring0 500 content) = metadataFallback content).
  { unfold metadataFallback, fallbackTitle.
    rewrite substring0_twice by lia. reflexivity. }
  assert (Hshort : (length (substring0 8000 content) <? MIN_CONTENT_LENGTH_FOR_GENERATION)
                   = (length content <? MIN_CONTENT_LENGTH_FOR_GENERATION)).
  { apply substring0_short. apply Nat.leb_le. reflexivity. }
  destruct ai as [client|].
  - cbn [generateSummary generateExplanation generateNotes generateQuizQuestions
         generateFeedbackOnQuiz suggestMetadata].
    rewrite Hshort, Hsum, Hexp, Hmeta, Hfall.
    repeat split.
    + intros length. rewrite Hnotes. reflexivity.
    + intros count. rewrite Hquiz. reflexivity.
    + intros score total. rewrite Hfeed. reflexivity.
  - cbn [generateSummary generateExplanation generateNotes generateQuizQuestions
         generateFeedbackOnQuiz suggestMetadata].
    rewrite Hfall. repeat split.
Qed.

Lemma orFallback_not_null :
  forall n fallback,
    truthy fallback = true ->
    orFallback n fallback <> Null /\
    (forall v, orFallback n fallback = Value v -> truthy v = true) /\
    (n = Null -> orFallback n fallback = Value fallback).
Proof.
  intros n fallback Hf. destruct n as [v| |]; cbn [orFallback].
  - destruct (truthy v) eqn:Hv.
    + split; [discriminate|]. split; [|discriminate].
      intros v' E. injection E as <-. exact Hv.
    + split; [discriminate|]. split; [|discriminate].
      intros v' E. injection E as <-. exact Hf.
  - split; [discriminate|]. split; [|reflexivity].
    intros v' E. injection E as <-. exact Hf.
  - split; [discriminate|]. split; discriminate.
Qed.

(** X9.  [suggestMetadata] always resolves with metadata: it never rejects
    and never gives [null] or another falsy value.  Without a key it gives
    the fallback without a call; when the call is rejected, or the reply is
    not JSON, it gives the fallback, whose title is made of the first 30
    characters of the content. *)
Theorem suggestMetadata_always_metadata :
  forall (ai : option GoogleGenAI) (content : jsstring) (w : Trace),
    exists r w',
      suggestMetadata ai content w = (Resolved r, w') /\
      r <> Null /\
      (forall v, r = Value v -> truthy v = true) /\
      match ai with
      | None => r = Value (metadataFallback content) /\ w' = w
      | Some client =>
          w' = EvGenerateContent (metadataRequest content) :: w /\
          match generateContent client w (metadataRequest content) with
          | Rejected _ => r = Value (metadataFallback content)
          | Resolved response =>
              parseJsonFromText (text response) = Null ->
              r = Value (metadataFallback content)
          end
      end.
Proof.
  intros ai content w. destruct ai as [client|]; cbn [suggestMetadata].
  - unfold tryCatch, bind, models_generateContent, ret.
    destruct (generateContent client w (metadataRequest content)) as [response|e].
    + destruct (orFallback_not_null (parseJsonFromText (text response))
                  (metadataFallback content) eq_refl) as [H1 [H2 H3]].
      do 2 eexists. split; [reflexivity|]. split; [exact H1|]. split; [exact H2|].
      split; [reflexivity | exact H3].
    + do 2 eexists. split; [reflexivity|]. split; [discriminate|].
      split; [|split; reflexivity].
      intros v E. injection E as <-. reflexivity.
  - do 2 eexists. split; [reflexivity|]. split; [discriminate|].
    split; [|split; reflexivity].
    intros v E. injection E as <-. reflexivity.
Qed.

(** X10.  When its call resolves, [generateQuizQuestions] resolves after
    that one call and never with [null]: a reply that is not JSON, or that
    is a falsy JSON value, gives the empty array. *)
Theorem generateQuizQuestions_never_null :
  forall (client : GoogleGenAI) (content : jsstring) (count : Z) (w : Trace) response,
    generateContent client w (quizRequest content count) = Resolved response ->
    exists r,
      generateQuizQuestions (Some client) content count w =
      (Resolved r, EvGenerateContent (quizRequest content count) :: w) /\
      r <> Null /\
      (forall v, r = Value v -> truthy v = true) /\
      (parseJsonFromText (text response) = Null -> r = Value (JArray [])) /\
      (forall v, parseJsonFromText (text response) = Value v -> truthy v = false ->
                 r = Value (JArray [])).
Proof.
  intros client content count w response Hcall.
  cbn [generateQuizQuestions]. unfold bind, models_generateContent, ret. rewrite Hcall.
  destruct (orFallback_not_null (parseJsonFromText (text response)) (JArray []) eq_refl)
    as [H1 [H2 H3]].
  eexists. split; [reflexivity|]. split; [exact H1|]. split; [exact H2|].
  split; [exact H3|].
  intros v Hv Hfalsy. rewrite Hv. cbn [orFallback]. rewrite Hfalsy. reflexivity.
Qed.

Lemma generateQuizQuestions_never_null_witness :
  exists r,
    generateQuizQuestions (Some (answering (lit "no questions today"))) sampleContent 5 [] =
    (Resolved r, [EvGenerateContent (quizRequest sampleContent 5)]) /\
    r <> Null /\
    (forall v, r = Value v -> truthy v = true) /\
    (parseJsonFromText (text {| text := lit "no questions today" |}) = Null ->
     r = Value (JArray [])) /\
    (forall v, parseJsonFromText (text {| text := lit "no questions today" |}) = Value v ->
               truthy v = false -> r = Value (JArray [])).
Proof.
  apply (generateQuizQuestions_never_null (answering (lit "no questions today"))
           sampleContent 5 [] {| text := lit "no questions today" |}).
  reflexivity.
Defined.

(** X11.  [generateBlockDiagram] takes the diagram out of the reply: when
    the reply is a fenced block, tagged mermaid or not tagged, with white
    space around it, around a solid body that starts with a graph
    declaration, the result is that body; and whatever the reply, a diagram
    that is returned starts with a graph declaration.  Without a key the
    result is [null] and no call is made. *)
Theorem generateBlockDiagram_extracts :
  (forall explanation w, generateBlockDiagram None explanation w = (Resolved None, w)) /\
  (forall client explanation w response pre tag body post,
     generateContent client w (blockDiagramRequest explanation) = Resolved response ->
     text response = pre ++ fenced tag body ++ post ->
     allSpaces pre = true -> allSpaces post = true ->
     tag = [] \/ tag = lit "mermaid" ->
     solid body -> startsGraph body = true ->
     generateBlockDiagram (Some client) explanation w =
     (Resolved (Some body), EvGenerateContent (blockDiagramRequest explanation) :: w)) /\
  (forall ai explanation w code w',
     generateBlockDiagram ai explanation w = (Resolved (Some code), w') ->
     startsGraph code = true /\ trim code = code).
Proof.
  split; [reflexivity|]. split.
  - intros client explanation w response pre tag body post Hcall Htext Hpre Hpost Htag
           Hsolid Hgraph.
    cbn [generateBlockDiagram]. unfold bind, models_generateContent, ret.
    rewrite Hcall, Htext, (parseMermaidFromText_spaces pre _ post Hpre Hpost).
    rewrite (parseMermaidFromText_block tag body Htag Hsolid Hgraph). reflexivity.
  - intros ai explanation w code w' H. destruct ai as [client|]; cbn [generateBlockDiagram] in H.
    + unfold bind, models_generateContent, ret in H.
      destruct (generateContent client w (blockDiagramRequest explanation)) as [response|e];
        [|discriminate H].
      injection H as H _. apply (parseMermaidFromText_startsGraph (text response)). exact H.
    + discriminate H.
Qed.

Lemma generateBlockDiagram_extracts_witness :
  generateBlockDiagram
    (Some (answering (lit "
" ++ fenced (lit "mermaid") sampleDiagram ++ lit " "))) sampleContent [] =
  (Resolved (Some sampleDiagram), [EvGenerateContent (blockDiagramRequest sampleContent)]).
Proof.
  apply (proj1 (proj2 generateBlockDiagram_extracts)
           (answering (lit "
" ++ fenced (lit "mermaid") sampleDiagram ++ lit " ")) sampleContent []
           {| text := lit "
" ++ fenced (lit "mermaid") sampleDiagram ++ lit " " |}
           (lit "
") (lit "mermaid") sampleDiagram (lit " ")).
  - reflexivity.
  - reflexivity.
  - reflexivity.
  - reflexivity.
  - right. reflexivity.
  - split.
    + exists "g"%char. eexists. split; reflexivity.
    + exists (lit "graph TD
  A --> "), "B"%char. split; reflexivity.
  - reflexivity.
Defined.

(** X12.  What [generatePresentationContent] costs: with a client at hand
    it sends between one and four requests, sleeps only between two of
    them, 1000, 2000 and 4000 milliseconds in turn, so 7000 at most, and
    asks for no image. *)
Theorem generatePresentationContent_effort :
  forall (client : GoogleGenAI) (explanation : jsstring) (w : Trace),
    exists k added,
      1 <= k <= 4 /\
      snd (generatePresentationContent (Some client) explanation w) = added ++ w /\
      calls added = k /\
      sleeps added = k - 1 /\
      totalSlept added = (1000 * (2 ^ Z.of_nat (k - 1) - 1))%Z /\
      (totalSlept added <= 7000)%Z.
Proof.
  intros client explanation w.
  destruct (withRetry_effort_any GenerateContentResponse
              (models_generateContent client (presentationRequest explanation))
              4 1000 None w ltac:(lia)
              (models_generateContent_oneCall client (presentationRequest explanation)) I)
    as [k [added [Hk [Hadded [Hcalls [Hsleeps Htotal]]]]]].
  exists k, added. split; [exact Hk|].
  assert (Htrace :
    snd (generatePresentationContent (Some client) explanation w) =
    snd (withRetry (models_generateContent client (presentationRequest explanation))
           4 1000 None w)).
  { cbn [generatePresentationContent]. unfold tryCatch, bind, ret.
    destruct (withRetry (models_generateContent client (presentationRequest explanation))
                4 1000 None w) as [[response|e] w1]; reflexivity. }
  rewrite Htrace. split; [exact Hadded|]. split; [exact Hcalls|]. split; [exact Hsleeps|].
  split; [exact Htotal|]. rewrite Htotal.
  assert (Hcases : k = 1 \/ k = 2 \/ k = 3 \/ k = 4) by lia.
  destruct Hcases as [E|[E|[E|E]]]; rewrite E; simpl; lia.
Qed.

(* ===================================================================== *)
(** * Media enrichment: the fallback URL and its limits *)
(* ===================================================================== *)

Lemma isFallbackUrl_wellFormed :
  forall slide url,
    isFallbackUrl slide url -> isWellFormed (SlideContent.imagePrompt slide) = true.
Proof.
  intros slide url [_ [encoded [seedSuffix [seed [He _]]]]].
  pose proof (encodeURIComponent_defined_upto
                (length (SlideContent.imagePrompt slide))
                (SlideContent.imagePrompt slide) (le_n _)) as D.
  rewrite He in D. exact D.
Qed.

Lemma providerFails_cases :
  forall ai rt onProgress presentation w,
    observerReturns onProgress ->
    providerFails ai ->
    exists o w',
      generatePresentationImages ai rt onProgress presentation w = (o, w') /\
      match o with
      | Resolved doc =>
          PresentationContent.title doc = PresentationContent.title presentation /\
          Forall2 (enrichedWith isFallbackUrl)
            (PresentationContent.slides presentation) (PresentationContent.slides doc)
      | Rejected e =>
          e = uriError /\ Exists illFormedPrompt (PresentationContent.slides presentation)
      end.
Proof.
  intros ai rt onProgress presentation w Hobs Hfail.
  apply generatePresentationImages_cases; [exact Hobs | auto |].
  intros client -> slide i updated w0. apply slideVisual_fallback_cases. exact Hfail.
Qed.

(** X13.  When every image generation attempt fails and no image prompt is
    ill-formed, the operation resolves with a document that has as many
    slides as the input, in the same order, each being the input slide with
    a non-empty URL of the fallback service: the address of the service,
    the escaped [imagePrompt] of the slide, from which the prompt can be
    read back, the fixed dimensions and an escaped seed that starts with
    the word presentation. *)
Theorem fallback_url_for_every_slide :
  forall ai rt onProgress presentation w,
    observerReturns onProgress ->
    providerFails ai ->
    wellFormedPrompts (PresentationContent.slides presentation) ->
    exists doc w',
      generatePresentationImages ai rt onProgress presentation w = (Resolved doc, w') /\
      length (PresentationContent.slides doc) =
      length (PresentationContent.slides presentation) /\
      Forall2
        (fun input output =>
           sameSlideText input output /\
           exists url encoded seedSuffix seed,
             SlideContent.imageUrl output = Some url /\
             url <> [] /\
             encodeURIComponent (SlideContent.imagePrompt input) = Some encoded /\
             readBack encoded = Some (SlideContent.imagePrompt input) /\
             encodeURIComponent (widen (lit "presentation-" ++ seedSuffix)) = Some seed /\
             url = lit "https://image.pollinations.ai/prompt/" ++ encoded ++
                   lit "?width=1280&height=720&seed=" ++ seed)
        (PresentationContent.slides presentation) (PresentationContent.slides doc).
Proof.
  intros ai rt onProgress presentation w Hobs Hfail Hwf.
  destruct (providerFails_cases ai rt onProgress presentation w Hobs Hfail)
    as [[doc|e] [w' [E H]]].
  - destruct H as [_ F]. exists doc, w'. split; [exact E|]. split.
    + symmetry. eapply Forall2_length. exact F.
    + eapply Forall2_weaken; [|exact F].
      intros a b Hab. split; [eapply enrichedWith_sameSlideText; exact Hab|].
      destruct Hab as [url [-> [Hne [encoded [seedSuffix [seed [He [Hr [Hs Hu]]]]]]]]].
      exists url, encoded, seedSuffix, seed. repeat split; assumption.
  - destruct H as [_ Hex]. exfalso. exact (wellFormed_not_illFormed _ Hwf Hex).
Qed.

Lemma fallback_url_for_every_slide_witness :
  exists doc w',
    generatePresentationImages (Some offline) sampleRuntime recordProgress
      samplePresentation [] = (Resolved doc, w') /\
    length (PresentationContent.slides doc) =
    length (PresentationContent.slides samplePresentation) /\
    Forall2
      (fun input output =>
         sameSlideText input output /\
         exists url encoded seedSuffix seed,
           SlideContent.imageUrl output = Some url /\
           url <> [] /\
           encodeURIComponent (SlideContent.imagePrompt input) = Some encoded /\
           readBack encoded = Some (SlideContent.imagePrompt input) /\
           encodeURIComponent (widen (lit "presentation-" ++ seedSuffix)) = Some seed /\
           url = lit "https://image.pollinations.ai/prompt/" ++ encoded ++
                 lit "?width=1280&height=720&seed=" ++ seed)
      (PresentationContent.slides samplePresentation) (PresentationContent.slides doc).
Proof.
  apply (fallback_url_for_every_slide (Some offline) sampleRuntime recordProgress
           samplePresentation []).
  - exact recordProgress_returns.
  - intros w request. exists unauthorized. reflexivity.
  - repeat constructor.
Defined.

(** X14.  When every image generation attempt fails and some image prompt
    is ill-formed, the operation returns no document: it rejects with the
    URIError that [encodeURIComponent] throws in the URL builder. *)
Theorem illFormed_prompt_rejects :
  forall ai rt onProgress presentation w,
    observerReturns onProgress ->
    providerFails ai ->
    Exists illFormedPrompt (PresentationContent.slides presentation) ->
    exists w',
      generatePresentationImages ai rt onProgress presentation w = (Rejected uriError, w').
Proof.
  intros ai rt onProgress presentation w Hobs Hfail Hex.
  destruct (providerFails_cases ai rt onProgress presentation w Hobs Hfail)
    as [[doc|e] [w' [E H]]].
  - destruct H as [_ F]. exfalso.
    apply (wellFormed_not_illFormed (PresentationContent.slides presentation)); [|exact Hex].
    unfold wellFormedPrompts.
    induction F as [|a b l l' Hab _ IH]; constructor.
    + destruct Hab as [url [_ Hu]]. eapply isFallbackUrl_wellFormed. exact Hu.
    + apply IH. inversion Hex as [? ? Hill | ? ? Hrest]; subst.
      * destruct Hab as [url [_ Hu]].
        pose proof (isFallbackUrl_wellFormed a url Hu) as Hwf.
        unfold illFormedPrompt in Hill. congruence.
      * exact Hrest.
  - destruct H as [-> _]. exists w'. exact E.
Qed.

Lemma illFormed_prompt_rejects_witness :
  exists w',
    generatePresentationImages None sampleRuntime recordProgress cutPresentation [] =
    (Rejected uriError, w').
Proof.
  apply (illFormed_prompt_rejects None sampleRuntime recordProgress cutPresentation []).
  - exact recordProgress_returns.
  - exact I.
  - right. left. reflexivity.
Defined.

(* ===================================================================== *)
(** * Media enrichment: the video assets *)
(* ===================================================================== *)

Lemma sceneFallbackUrl_cases :
  forall rt prompt i w,
    exists o w',
      sceneFallbackUrl rt prompt i w = (o, w') /\
      match o with
      | Resolved url => url <> []
      | Rejected e => True
      end.
Proof.
  intros rt prompt i w. unfold sceneFallbackUrl. unfold bind, Math_random_suffix.
  destruct (fallbackImageUrl_cases (lit "video-") prompt
              (natToString i ++ lit "-" ++ randomBase36 rt w) (EvRandom :: w))
    as [[url|e] [E H]]; rewrite E.
  - do 2 eexists. split; [reflexivity | apply H].
  - do 2 eexists. split; [reflexivity | exact I].
Qed.

Lemma sceneVisual_cases :
  forall rt onProgress client sceneData i generatedScenes w,
    exists o w',
      sceneVisual rt onProgress client sceneData i generatedScenes w = (o, w') /\
      match o with
      | Resolved scenes =>
          exists output,
            scenes = generatedScenes ++ [output] /\ sceneEnriched sceneData output
      | Rejected e => True
      end.
Proof.
  intros rt onProgress client sceneData i generated w.
  unfold sceneVisual, tryCatch. unfold bind at 1.
  match goal with |- context [withRetry ?f ?m ?d ?o w] =>
    destruct (withRetry f m d o w) as [[response|e] w1] end.
  - unfold bind at 1.
    destruct (dataUrl (firstImage response)) as [url|] eqn:Hurl.
    + do 2 eexists. split; [reflexivity|]. eexists. split; [reflexivity|].
      exists url. split; [reflexivity|]. eapply dataUrl_nonempty; eassumption.
    + destruct (sceneFallbackUrl_cases rt (VideoScene.imagePrompt sceneData) i w1)
        as [[url|e] [w2 [E H]]]; rewrite E.
      * do 2 eexists. split; [reflexivity|]. eexists. split; [reflexivity|].
        exists url. split; [reflexivity | exact H].
      * unfold bind at 1.
        destruct (sceneFallbackUrl_cases rt (VideoScene.imagePrompt sceneData) i w2)
          as [[url|e'] [w3 [E3 H3]]]; rewrite E3.
        -- do 2 eexists. split; [reflexivity|]. eexists. split; [reflexivity|].
           exists url. split; [reflexivity | exact H3].
        -- do 2 eexists. split; [reflexivity | exact I].
  - unfold bind at 1.
    destruct (sceneFallbackUrl_cases rt (VideoScene.imagePrompt sceneData) i w1)
      as [[url|e'] [w2 [E H]]]; rewrite E.
    + do 2 eexists. split; [reflexivity|]. eexists. split; [reflexivity|].
      exists url. split; [reflexivity | exact H].
    + do 2 eexists. split; [reflexivity | exact I].
Qed.

Lemma scenesLoop_cases :
  forall rt onProgress client,
    observerReturns onProgress ->
    forall total remaining i generatedScenes w,
      exists o w',
        scenesLoop rt onProgress client total remaining i generatedScenes w = (o, w') /\
        match o with
        | Resolved scenes =>
            exists added,
              scenes = generatedScenes ++ added /\ Forall2 sceneEnriched remaining added
        | Rejected e => True
        end.
Proof.
  intros rt onProgress client Hobs total.
  induction remaining as [|sceneData rest IH]; intros i generated w.
  - do 2 eexists. split; [reflexivity|]. exists []. split; [|constructor].
    rewrite List.app_nil_r. reflexivity.
  - cbn [scenesLoop]. unfold bind at 1.
    assert (Hsleep : exists w0, (if 0 <? i then sleep 1000 else ret tt) w = (Resolved tt, w0)).
    { destruct (0 <? i); eexists; reflexivity. }
    destruct Hsleep as [w0 E0]. rewrite E0.
    unfold bind at 1.
    match goal with |- context [onProgress ?m w0] =>
      destruct (Hobs m w0) as [w1 E1]; rewrite E1 end.
    unfold bind at 1.
    destruct (sceneVisual_cases rt onProgress client sceneData i generated w1)
      as [[scenes|e] [w2 [E2 H2]]]; rewrite E2.
    + destruct H2 as [output [-> Hout]].
      destruct (IH (S i) (generated ++ [output]) w2) as [[scenes|e] [w3 [E3 H3]]]; rewrite E3.
      * destruct H3 as [added [-> F]].
        do 2 eexists. split; [reflexivity|]. exists (output :: added). split.
        -- rewrite <- List.app_assoc. reflexivity.
        -- constructor; assumption.
      * do 2 eexists. split; [reflexivity | exact I].
    + do 2 eexists. split; [reflexivity | exact I].
Qed.

(** X15.  [generateVideoAssets] never rejects: whatever the client, the
    reply and the image provider do, it resolves, with [null] or with
    scenes.  The scenes it resolves with are those of the script the model
    replied with, which is not empty, in their order, each with its script
    and image prompt unchanged and a non-empty image URL.  Without a key it
    resolves with [null]. *)
Theorem generateVideoAssets_never_rejects :
  forall ai rt onProgress explanation w,
    observerReturns onProgress ->
    exists r w',
      generateVideoAssets ai rt onProgress explanation w = (Resolved r, w') /\
      match ai with
      | None => r = Null
      | Some client =>
          forall scenes, r = Value scenes ->
            exists w1 response script,
              generateContent client w1 (videoScriptRequest explanation) = Resolved response /\
              readAs readScenes (parseJsonFromText (text response)) = Value script /\
              script <> [] /\
              Forall2 sceneEnriched script scenes
      end.
Proof.
  intros ai rt onProgress explanation w Hobs.
  destruct ai as [client|]; cbn [generateVideoAssets].
  - unfold bind at 1.
    match goal with |- context [onProgress ?m w] =>
      destruct (Hobs m w) as [w1 E1]; rewrite E1 end.
    unfold tryCatch. unfold bind at 1. unfold models_generateContent at 1.
    destruct (generateContent client w1 (videoScriptRequest explanation))
      as [response|e] eqn:Hcall.
    + destruct (readAs readScenes (parseJsonFromText (text response)))
        as [[|first others]| |] eqn:Hread.
      * unfold bind at 1.
        match goal with |- context [onProgress ?m ?w0] =>
          destruct (Hobs m w0) as [w2 E2]; rewrite E2 end.
        do 2 eexists. split; [reflexivity|]. intros scenes H. discriminate H.
      * unfold bind at 1.
        destruct (scenesLoop_cases rt onProgress client Hobs (length (first :: others))
                    (first :: others) 0 [] (EvGenerateContent (videoScriptRequest explanation) :: w1))
          as [[generated|e] [w2 [E2 H2]]]; rewrite E2.
        -- unfold bind at 1.
           match goal with |- context [onProgress ?m w2] =>
             destruct (Hobs m w2) as [w3 E3]; rewrite E3 end.
           do 2 eexists. split; [reflexivity|].
           intros scenes H. injection H as <-.
           destruct H2 as [added [-> F]].
           exists w1, response, (first :: others).
           split; [exact Hcall|]. split; [exact Hread|]. split; [discriminate | exact F].
        -- unfold bind at 1.
           match goal with |- context [onProgress ?m w2] =>
             destruct (Hobs m w2) as [w3 E3]; rewrite E3 end.
           do 2 eexists. split; [reflexivity|]. intros scenes H. discriminate H.
      * unfold bind at 1.
        match goal with |- context [onProgress ?m ?w0] =>
          destruct (Hobs m w0) as [w2 E2]; rewrite E2 end.
        do 2 eexists. split; [reflexivity|]. intros scenes H. discriminate H.
      * do 2 eexists. split; [reflexivity|]. intros scenes H. discriminate H.
    + unfold bind at 1.
      match goal with |- context [onProgress ?m ?w0] =>
        destruct (Hobs m w0) as [w2 E2]; rewrite E2 end.
      do 2 eexists. split; [reflexivity|]. intros scenes H. discriminate H.
  - unfold bind at 1.
    match goal with |- context [onProgress ?m w] =>
      destruct (Hobs m w) as [w1 E1]; rewrite E1 end.
    do 2 eexists. split; reflexivity.
Qed.

Lemma generateVideoAssets_never_rejects_witness :
  exists r w',
    generateVideoAssets (Some scriptWriter) sampleRuntime recordProgress sampleContent [] =
    (Resolved r, w') /\
    forall scenes, r = Value scenes ->
      exists w1 response script,
        generateContent scriptWriter w1 (videoScriptRequest sampleContent) = Resolved response /\
        readAs readScenes (parseJsonFromText (text response)) = Value script /\
        script <> [] /\
        Forall2 sceneEnriched script scenes.
Proof.
  apply (generateVideoAssets_never_rejects (Some scriptWriter) sampleRuntime recordProgress
           sampleContent []).
  exact recordProgress_returns.
Defined.

(* ===================================================================== *)
(** * Media enrichment: what a run costs *)
(* ===================================================================== *)

Lemma randomFallbackUrl_trace :
  forall rt prompt i w,
    exists o, randomFallbackUrl rt prompt i w = (o, EvRandom :: w).
Proof.
  intros rt prompt i w. unfold randomFallbackUrl, getFallbackImageUrl.
  unfold bind, Math_random_suffix.
  destruct (fallbackImageUrl_cases (lit "presentation-") prompt
              (natToString i ++ lit "-" ++ randomBase36 rt w) (EvRandom :: w))
    as [o [E _]]; rewrite E.
  exists o. reflexivity.
Qed.

Lemma backoff_total_bound :
  forall k, 1 <= k <= 3 -> (0 <= 1000 * (2 ^ Z.of_nat (k - 1) - 1) <= 3000)%Z.
Proof.
  intros k Hk.
  assert (Hcases : k = 1 \/ k = 2 \/ k = 3) by lia.
  destruct Hcases as [E|[E|E]]; rewrite E; simpl; lia.
Qed.

(** One slide costs between one and three image requests and at most 3000
    milliseconds of sleep. *)
Lemma slideVisual_effort :
  forall rt onProgress client slide i updatedSlides w,
    quietProgress onProgress ->
    exists o added,
      slideVisual rt onProgress client slide i updatedSlides w = (o, added ++ w) /\
      1 <= calls added <= 3 /\
      (0 <= totalSlept added <= 3000)%Z.
Proof.
  intros rt onProgress client slide i updated w Hq.
  unfold slideVisual, tryCatch. unfold bind at 1.
  match goal with |- context [withRetry ?f ?m ?d ?o w] =>
    destruct (withRetry_effort_any _ f m d o w ltac:(lia)
                (models_generateImages_oneCall client _)
                (fun attempt delay => Hq _))
      as [k [added [Hk [Hadded [Hcalls [_ Htotal]]]]]];
    destruct (withRetry f m d o w) as [[response|e] w1]
  end; cbn [snd] in Hadded; subst w1.
  - unfold bind at 1.
    destruct (dataUrl (firstImage response)) as [url|].
    + exists (Resolved (updated ++ [slideWithImageUrl slide url])), added.
      split; [reflexivity|]. split; [lia|]. rewrite Htotal. apply backoff_total_bound. exact Hk.
    + destruct (randomFallbackUrl_trace rt (SlideContent.imagePrompt slide) i (added ++ w))
        as [[url|e] E]; rewrite E.
      * exists (Resolved (updated ++ [slideWithImageUrl slide url])), (EvRandom :: added).
        split; [reflexivity|]. cbn [calls isCall totalSlept].
        split; [lia|]. rewrite Htotal. apply backoff_total_bound. exact Hk.
      * unfold bind at 1.
        destruct (randomFallbackUrl_trace rt (SlideContent.imagePrompt slide) i
                    (EvRandom :: added ++ w)) as [[url|e'] E']; rewrite E'.
        -- exists (Resolved (updated ++ [slideWithImageUrl slide url])),
                  (EvRandom :: EvRandom :: added).
           split; [reflexivity|]. cbn [calls isCall totalSlept].
           split; [lia|]. rewrite Htotal. apply backoff_total_bound. exact Hk.
        -- exists (Rejected e'), (EvRandom :: EvRandom :: added).
           split; [reflexivity|]. cbn [calls isCall totalSlept].
           split; [lia|]. rewrite Htotal. apply backoff_total_bound. exact Hk.
  - unfold bind at 1.
    destruct (randomFallbackUrl_trace rt (SlideContent.imagePrompt slide) i (added ++ w))
      as [[url|e'] E]; rewrite E.
    + exists (Resolved (updated ++ [slideWithImageUrl slide url])), (EvRandom :: added).
      split; [reflexivity|]. cbn [calls isCall totalSlept].
      split; [lia|]. rewrite Htotal. apply backoff_total_bound. exact Hk.
    + exists (Rejected e'), (EvRandom :: added).
      split; [reflexivity|]. cbn [calls isCall totalSlept].
      split; [lia|]. rewrite Htotal. apply backoff_total_bound. exact Hk.
Qed.

Lemma slidesLoop_effort :
  forall rt onProgress client,
    quietProgress onProgress ->
    forall total remaining i updatedSlides w,
      exists o added,
        slidesLoop rt onProgress client total remaining i updatedSlides w = (o, added ++ w) /\
        calls added <= 3 * length remaining /\
        (0 <= totalSlept added <=
         1000 * Z.of_nat (pauses i (length remaining)) + 3000 * Z.of_nat (length remaining))%Z /\
        (isResolved o = true ->
         length remaining <= calls added /\
         (1000 * Z.of_nat (pauses i (length remaining)) <= totalSlept added)%Z).
Proof.
  intros rt onProgress client Hq total.
  induction remaining as [|slide rest IH]; intros i updated w.
  - exists (Resolved updated), []. split; [reflexivity|].
    unfold pauses. destruct (0 <? i); simpl; repeat split; lia.
  - cbn [slidesLoop]. unfold bind at 1.
    assert (Hsleep : exists slept,
              (if 0 <? i then sleep 1000 else ret tt) w = (Resolved tt, slept ++ w) /\
              calls slept = 0 /\
              totalSlept slept = (if (0 <? i)%nat then 1000 else 0)%Z).
    { destruct (0 <? i); [exists [EvSleep 1000] | exists []]; repeat split. }
    destruct Hsleep as [slept [E0 [Hc0 Ht0]]]. rewrite E0.
    unfold bind at 1.
    match goal with |- context [onProgress ?m (slept ++ w)] =>
      destruct (Hq m (slept ++ w)) as [q1 [E1 [Hc1 [_ Ht1]]]]; rewrite E1 end.
    unfold bind at 1.
    destruct (slideVisual_effort rt onProgress client slide i updated (q1 ++ slept ++ w) Hq)
      as [o [v [E2 [Hc2 Ht2]]]]; rewrite E2.
    assert (Hpause : (Z.of_nat (pauses i (length (slide :: rest))) =
                      (if (0 <? i)%nat then 1 else 0) + Z.of_nat (length rest))%Z).
    { unfold pauses. cbn [length]. destruct (0 <? i); lia. }
    assert (Hlen : Z.of_nat (length (slide :: rest)) = (1 + Z.of_nat (length rest))%Z).
    { cbn [length]. lia. }
    destruct o as [slides|e].
    + unfold bind at 1.
      match goal with |- context [onProgress ?m (v ++ q1 ++ slept ++ w)] =>
        destruct (Hq m (v ++ q1 ++ slept ++ w)) as [q2 [E3 [Hc3 [_ Ht3]]]]; rewrite E3 end.
      destruct (IH (S i) slides (q2 ++ v ++ q1 ++ slept ++ w))
        as [o [added [E4 [Hc4 [Ht4 Hres]]]]].
      rewrite E4.
      exists o, (added ++ q2 ++ v ++ q1 ++ slept).
      split; [rewrite <- !List.app_assoc; reflexivity|].
      rewrite !calls_app, !totalSlept_app, Hc0, Hc1, Hc3, Ht0, Ht1, Ht3, Hpause, Hlen.
      assert (Hp : pauses (S i) (length rest) = length rest) by reflexivity.
      rewrite Hp in Ht4, Hres.
      split; [cbn [length]; lia|]. split.
      * destruct (0 <? i); lia.
      * intros Ho. destruct (Hres Ho) as [H1 H2]. split; [cbn [length]; lia|].
        destruct (0 <? i); lia.
    + exists (Rejected e), (v ++ q1 ++ slept).
      split; [rewrite <- !List.app_assoc; reflexivity|].
      rewrite !calls_app, !totalSlept_app, Hc0, Hc1, Ht0, Ht1, Hpause, Hlen.
      split; [cbn [length]; lia|]. split.
      * destruct (0 <? i); lia.
      * intros Ho. discriminate Ho.
Qed.

Lemma fallbackSlides_effort :
  forall rt slides idx w,
    exists o added,
      fallbackSlides rt slides idx w = (o, added ++ w) /\
      calls added = 0 /\ sleeps added = 0 /\ totalSlept added = 0%Z.
Proof.
  intros rt. induction slides as [|slide rest IH]; intros idx w.
  - exists (Resolved []), []. repeat split.
  - cbn [fallbackSlides]. unfold bind at 1. unfold Date_now at 1.
    unfold bind at 1. unfold getFallbackImageUrl.
    destruct (fallbackImageUrl_cases (lit "presentation-") (SlideContent.imagePrompt slide)
                (natToString idx ++ lit "-" ++ numberToString (clock rt w)) (EvDateNow :: w))
      as [[url|e] [E _]]; rewrite E.
    + unfold bind at 1.
      destruct (IH (S idx) (EvDateNow :: w)) as [o [added [E' [Hc [Hs Ht]]]]]. rewrite E'.
      destruct o as [others|e].
      * exists (Resolved (slideWithImageUrl slide url :: others)), (added ++ [EvDateNow]).
        split; [rewrite <- List.app_assoc; reflexivity|].
        rewrite calls_app, sleeps_app, totalSlept_app, Hc, Hs, Ht. repeat split.
      * exists (Rejected e), (added ++ [EvDateNow]).
        split; [rewrite <- List.app_assoc; reflexivity|].
        rewrite calls_app, sleeps_app, totalSlept_app, Hc, Hs, Ht. repeat split.
    + exists (Rejected e), [EvDateNow]. repeat split.
Qed.

(** X16.  What [generatePresentationImages] costs for [n] slides, with an
    observer that only looks on.  Without a client it makes no request and
    does not sleep.  With a client it makes at most three image requests
    for each slide and sleeps at most 1000 milliseconds between two slides
    and 3000 for the retries of each slide; when it returns a document it
    has made at least one request for each slide and has slept 1000
    milliseconds between any two slides. *)
Theorem generatePresentationImages_effort :
  forall ai rt onProgress presentation w,
    quietProgress onProgress ->
    exists o added,
      generatePresentationImages ai rt onProgress presentation w = (o, added ++ w) /\
      match ai with
      | None => calls added = 0 /\ sleeps added = 0
      | Some _ =>
          let n := length (PresentationContent.slides presentation) in
          calls added <= 3 * n /\
          (0 <= totalSlept added <= 1000 * Z.of_nat (n - 1) + 3000 * Z.of_nat n)%Z /\
          (isResolved o = true ->
           n <= calls added /\ (1000 * Z.of_nat (n - 1) <= totalSlept added)%Z)
      end.
Proof.
  intros ai rt onProgress presentation w Hq.
  destruct ai as [client|]; cbn [generatePresentationImages].
  - unfold bind at 1.
    match goal with |- context [onProgress ?m w] =>
      destruct (Hq m w) as [q1 [E1 [Hc1 [_ Ht1]]]]; rewrite E1 end.
    unfold bind at 1.
    destruct (slidesLoop_effort rt onProgress client Hq
                (length (PresentationContent.slides presentation))
                (PresentationContent.slides presentation) 0 [] (q1 ++ w))
      as [o [added [E2 [Hc2 [Ht2 Hres]]]]].
    rewrite E2.
    change (pauses 0 (length (PresentationContent.slides presentation)))
      with (length (PresentationContent.slides presentation) - 1) in Ht2, Hres.
    destruct o as [slides|e].
    + unfold bind at 1.
      match goal with |- context [onProgress ?m (added ++ q1 ++ w)] =>
        destruct (Hq m (added ++ q1 ++ w)) as [q2 [E3 [Hc3 [_ Ht3]]]]; rewrite E3 end.
      exists (Resolved (presentationWithSlides presentation slides)), (q2 ++ added ++ q1).
      split; [rewrite <- !List.app_assoc; reflexivity|].
      cbv zeta. rewrite !calls_app, !totalSlept_app, Hc1, Hc3, Ht1, Ht3.
      split; [lia|]. split; [lia|].
      intros _. destruct (Hres eq_refl) as [H1 H2]. split; lia.
    + exists (Rejected e), (added ++ q1).
      split; [rewrite <- !List.app_assoc; reflexivity|].
      cbv zeta. rewrite !calls_app, !totalSlept_app, Hc1, Ht1.
      split; [lia|]. split; [lia|]. intros Ho. discriminate Ho.
  - unfold bind at 1.
    destruct (fallbackSlides_effort rt (PresentationContent.slides presentation) 0 w)
      as [o [added [E1 [Hc [Hs _]]]]]. rewrite E1.
    destruct o as [slides|e].
    + unfold bind at 1.
      match goal with |- context [onProgress ?m (added ++ w)] =>
        destruct (Hq m (added ++ w)) as [q [E2 [Hc2 [Hs2 _]]]]; rewrite E2 end.
      exists (Resolved (presentationWithSlides presentation slides)), (q ++ added).
      split; [rewrite <- List.app_assoc; reflexivity|].
      rewrite calls_app, sleeps_app, Hc, Hs, Hc2, Hs2. split; reflexivity.
    + exists (Rejected e), added. split; [reflexivity|]. split; assumption.
Qed.

Lemma recordProgress_quiet : quietProgress recordProgress.
Proof. intros message w. exists [EvProgress message]. repeat split. Qed.

Lemma generatePresentationImages_effort_witness :
  exists o added,
    generatePresentationImages (Some sampleImages) sampleRuntime recordProgress
      samplePresentation [] = (o, added ++ []) /\
    let n := length (PresentationContent.slides samplePresentation) in
    calls added <= 3 * n /\
    (0 <= totalSlept added <= 1000 * Z.of_nat (n - 1) + 3000 * Z.of_nat n)%Z /\
    (isResolved o = true ->
     n <= calls added /\ (1000 * Z.of_nat (n - 1) <= totalSlept added)%Z).
Proof.
  apply (generatePresentationImages_effort (Some sampleImages) sampleRuntime recordProgress
           samplePresentation []).
  exact recordProgress_quiet.
Defined.

(* ===================================================================== *)
(** * The fallback URL: what the prompt cannot do to it *)
(* ===================================================================== *)

(** X17.  A URL that the URL builder returns is the address of the image
    service, a path, the fixed query and a seed, where the path and the
    seed hold nothing but unreserved characters and percent signs: no
    question mark, ampersand, equals sign, slash, number sign or white
    space of the prompt reaches the URL, so the prompt cannot change the
    address or the query. *)
Theorem fallbackImageUrl_is_safe :
  forall kind prompt seedSuffix w url w',
    fallbackImageUrl kind prompt seedSuffix w = (Resolved url, w') ->
    exists path seed,
      url = lit "https://image.pollinations.ai/prompt/" ++ path ++
            lit "?width=1280&height=720&seed=" ++ seed /\
      forallb urlSafe path = true /\
      forallb urlSafe seed = true /\
      existsb urlSafe (lit "?&=/# ") = false.
Proof.
  intros kind prompt seedSuffix w url w' H.
  destruct (fallbackImageUrl_cases kind prompt seedSuffix w) as [o [E Ho]].
  rewrite E in H. injection H as -> _.
  destruct Ho as [_ [_ [encoded [suffix [seed [He [_ [Hs ->]]]]]]]].
  exists encoded, seed. split; [reflexivity|].
  split; [exact (encodeURIComponent_safe _ _ He)|].
  split; [exact (encodeURIComponent_safe _ _ Hs) | reflexivity].
Qed.

Lemma fallbackImageUrl_is_safe_witness :
  exists path seed,
    lit "https://image.pollinations.ai/prompt/a%20leaf%3F%26x%3D1?width=1280&height=720&seed=video-0-k3" =
    lit "https://image.pollinations.ai/prompt/" ++ path ++
    lit "?width=1280&height=720&seed=" ++ seed /\
    forallb urlSafe path = true /\
    forallb urlSafe seed = true /\
    existsb urlSafe (lit "?&=/# ") = false.
Proof.
  apply (fallbackImageUrl_is_safe (lit "video-") (widen (lit "a leaf?&x=1")) (lit "0-k3") []
           _ []).
  reflexivity.
Defined.

(* ===================================================================== *)
(** * The fallback URL: the prompt can be read back *)
(* ===================================================================== *)

Lemma split_at_question_mark :
  forall a b x y,
    forallb urlSafe a = true -> forallb urlSafe b = true ->
    a ++ "?"%char :: x = b ++ "?"%char :: y ->
    a = b /\ x = y.
Proof.
  induction a as [|c a IH]; intros [|d b] x y Ha Hb H.
  - injection H as H. split; [reflexivity | exact H].
  - cbn [app] in H. injection H as <- _. cbn [forallb] in Hb.
    apply andb_true_iff in Hb as [Hd _]. discriminate Hd.
  - cbn [app] in H. injection H as -> _. cbn [forallb] in Ha.
    apply andb_true_iff in Ha as [Hc _]. discriminate Hc.
  - cbn [app] in H. injection H as -> H.
    cbn [forallb] in Ha, Hb.
    apply andb_true_iff in Ha as [_ Ha]. apply andb_true_iff in Hb as [_ Hb].
    destruct (IH b x y Ha Hb H) as [-> ->]. split; reflexivity.
Qed.

Lemma fallbackImageUrl_resolved :
  forall kind prompt seedSuffix w url w',
    fallbackImageUrl kind prompt seedSuffix w = (Resolved url, w') ->
    exists encoded seed,
      encodeURIComponent prompt = Some encoded /\
      encodeURIComponent (widen (kind ++ seedSuffix)) = Some seed /\
      url = lit "https://image.pollinations.ai/prompt/" ++ encoded ++
            lit "?width=1280&height=720&seed=" ++ seed.
Proof.
  intros kind prompt seedSuffix w url w' H. unfold fallbackImageUrl, bind, orThrow in H.
  destruct (encodeURIComponent prompt) as [encoded|]; [|discriminate H].
  destruct (encodeURIComponent (widen (kind ++ seedSuffix))) as [seed|]; [|discriminate H].
  injection H as <- _. exists encoded, seed. repeat split.
Qed.

(** X22.  The fallback URL holds its prompt and its seed: the escaped
    prompt in it reads back as the prompt, and two calls of the URL builder
    that give the same URL were given the same prompt and the same seed
    suffix.  So slides with different prompts never share a fallback
    URL. *)
Theorem fallbackImageUrl_determines_prompt :
  forall kind prompt1 seedSuffix1 w1 prompt2 seedSuffix2 w2 url w1' w2',
    fallbackImageUrl kind prompt1 seedSuffix1 w1 = (Resolved url, w1') ->
    fallbackImageUrl kind prompt2 seedSuffix2 w2 = (Resolved url, w2') ->
    prompt1 = prompt2 /\ seedSuffix1 = seedSuffix2 /\
    exists path seed,
      url = lit "https://image.pollinations.ai/prompt/" ++ path ++
            lit "?width=1280&height=720&seed=" ++ seed /\
      readBack path = Some prompt1 /\
      readBack seed = Some (widen (kind ++ seedSuffix1)).
Proof.
  intros kind p1 s1 w1 p2 s2 w2 url w1' w2' H1 H2.
  destruct (fallbackImageUrl_resolved _ _ _ _ _ _ H1) as [e1 [d1 [He1 [Hd1 Hu1]]]].
  destruct (fallbackImageUrl_resolved _ _ _ _ _ _ H2) as [e2 [d2 [He2 [Hd2 Hu2]]]].
  rewrite Hu1 in Hu2. apply app_inv_head in Hu2.
  change (lit "?width=1280&height=720&seed=" ++ d1)
    with ("?"%char :: lit "width=1280&height=720&seed=" ++ d1) in Hu2.
  change (lit "?width=1280&height=720&seed=" ++ d2)
    with ("?"%char :: lit "width=1280&height=720&seed=" ++ d2) in Hu2.
  destruct (split_at_question_mark e1 e2 _ _
              (encodeURIComponent_safe _ _ He1) (encodeURIComponent_safe _ _ He2) Hu2)
    as [Hpath Hseed].
  apply app_inv_head in Hseed. subst e2 d2.
  pose proof (readBack_encodeURIComponent _ _ He1) as R1.
  pose proof (readBack_encodeURIComponent _ _ He2) as R2.
  pose proof (readBack_encodeURIComponent _ _ Hd1) as S1.
  pose proof (readBack_encodeURIComponent _ _ Hd2) as S2.
  rewrite R1 in R2. injection R2 as R2.
  rewrite S1 in S2. injection S2 as S2.
  apply widen_injective, app_inv_head in S2.
  split; [exact R2|]. split; [exact S2|].
  exists e1, d1. split; [exact Hu1|]. split; assumption.
Qed.

Lemma fallbackImageUrl_determines_prompt_witness :
  widen (lit "a leaf & its cell") = widen (lit "a leaf & its cell") /\
  lit "0-k3" = lit "0-k3" /\
  exists path seed,
    lit "https://image.pollinations.ai/prompt/a%20leaf%20%26%20its%20cell?width=1280&height=720&seed=presentation-0-k3" =
    lit "https://image.pollinations.ai/prompt/" ++ path ++
    lit "?width=1280&height=720&seed=" ++ seed /\
    readBack path = Some (widen (lit "a leaf & its cell")) /\
    readBack seed = Some (widen (lit "presentation-" ++ lit "0-k3")).
Proof.
  apply (fallbackImageUrl_determines_prompt (lit "presentation-")
           (widen (lit "a leaf & its cell")) (lit "0-k3") []
           (widen (lit "a leaf & its cell")) (lit "0-k3") [EvRandom] _ [] [EvRandom]);
    reflexivity.
Defined.

(* ===================================================================== *)
(** * The store of study materials: properties *)
(* ===================================================================== *)

Lemma jsEqb_eq : forall a b, jsEqb a b = true -> a = b.
Proof.
  induction a as [|x a IH]; intros [|y b] H; try discriminate H; [reflexivity|].
  cbn [jsEqb] in H. apply andb_true_iff in H as [Hxy H].
  apply Ascii.eqb_eq in Hxy. rewrite Hxy, (IH b H). reflexivity.
Qed.

Lemma jsEqb_sym : forall a b, jsEqb a b = jsEqb b a.
Proof.
  induction a as [|x a IH]; intros [|y b]; try reflexivity.
  cbn [jsEqb]. rewrite IH, Ascii.eqb_sym. reflexivity.
Qed.

Lemma jsEqb_neq : forall a b, a <> b -> jsEqb a b = false.
Proof.
  intros a b H. destruct (jsEqb a b) eqn:E; [|reflexivity].
  elim H. apply jsEqb_eq. exact E.
Qed.

(** ** Objects *)

Lemma lookupMember_defineProperty :
  forall m k v k',
    lookupMember k' (defineProperty m k v) =
    if jsEqb k k' then Some v else lookupMember k' m.
Proof.
  induction m as [|[k0 v0] m IH]; intros k v k'.
  - cbn [defineProperty lookupMember]. reflexivity.
  - cbn [defineProperty]. destruct (jsEqb k0 k) eqn:E0.
    + apply jsEqb_eq in E0. subst k0. cbn [lookupMember].
      destruct (jsEqb k k'); reflexivity.
    + cbn [lookupMember]. rewrite IH.
      destruct (jsEqb k0 k') eqn:E1; [|reflexivity].
      apply jsEqb_eq in E1. subst k0. rewrite jsEqb_sym, E0. reflexivity.
Qed.

Lemma lookupMember_absent :
  forall k m, existsb (jsEqb k) (map fst m) = false -> lookupMember k m = None.
Proof.
  intros k. induction m as [|[k0 v0] m IH]; intros H; [reflexivity|].
  cbn [map fst existsb] in H. apply orb_false_iff in H as [H0 H].
  cbn [lookupMember]. rewrite jsEqb_sym, H0. apply IH. exact H.
Qed.

(** A property after a spread: the value of the source when the source
    has the property, the value of the target otherwise. *)
Lemma lookupMember_assign :
  forall source target k,
    distinctKeys (map fst source) = true ->
    lookupMember k (assign target source) =
    match lookupMember k source with
    | Some v => Some v
    | None => lookupMember k target
    end.
Proof.
  unfold assign.
  induction source as [|[k1 v1] source IH]; intros target k Hkeys; [reflexivity|].
  cbn [map fst distinctKeys] in Hkeys. apply andb_true_iff in Hkeys as [Hfresh Hkeys].
  apply negb_true_iff in Hfresh.
  cbn [fold_left fst snd]. rewrite (IH _ k Hkeys), lookupMember_defineProperty.
  cbn [lookupMember]. destruct (jsEqb k1 k) eqn:E; [|reflexivity].
  apply jsEqb_eq in E. subst k1.
  rewrite (lookupMember_absent k source Hfresh). reflexivity.
Qed.

Lemma keys_defineProperty :
  forall m k v,
    map fst (defineProperty m k v) =
    if existsb (fun k' => jsEqb k' k) (map fst m) then map fst m else map fst m ++ [k].
Proof.
  induction m as [|[k0 v0] m IH]; intros k v; [reflexivity|].
  cbn [defineProperty map fst existsb]. destruct (jsEqb k0 k); [reflexivity|].
  cbn [map fst orb]. rewrite IH.
  destruct (existsb (fun k' => jsEqb k' k) (map fst m)); reflexivity.
Qed.

Lemma distinctKeys_snoc :
  forall l k,
    distinctKeys l = true ->
    existsb (fun k' => jsEqb k' k) l = false ->
    distinctKeys (l ++ [k]) = true.
Proof.
  induction l as [|a l IH]; intros k Hd Hf; [reflexivity|].
  cbn [distinctKeys] in Hd. apply andb_true_iff in Hd as [Ha Hd].
  cbn [existsb] in Hf. apply orb_false_iff in Hf as [Hak Hf].
  cbn [app distinctKeys]. rewrite (IH k Hd Hf), andb_true_r.
  apply negb_true_iff in Ha. rewrite existsb_app, Ha. cbn [existsb].
  rewrite Hak. reflexivity.
Qed.

Lemma values_defineProperty :
  forall m k v,
    forallb wellFormedMember m = true ->
    wellFormed v = true ->
    forallb wellFormedMember (defineProperty m k v) = true.
Proof.
  induction m as [|[k0 v0] m IH]; intros k v Hm Hv.
  - cbn [defineProperty forallb]. unfold wellFormedMember at 1. cbn [snd].
    rewrite Hv. reflexivity.
  - cbn [forallb] in Hm. apply andb_true_iff in Hm as [H0 Hm].
    cbn [defineProperty]. destruct (jsEqb k0 k); cbn [forallb].
    + rewrite Hm. unfold wellFormedMember at 1. cbn [snd]. rewrite Hv. reflexivity.
    + rewrite H0, (IH k v Hm Hv). reflexivity.
Qed.

Lemma wellFormed_defineProperty :
  forall m k v,
    wellFormed (JObject m) = true ->
    wellFormed v = true ->
    wellFormed (JObject (defineProperty m k v)) = true.
Proof.
  intros m k v Hm Hv. cbn [wellFormed] in *. apply andb_true_iff in Hm as [Hkeys Hvals].
  apply andb_true_iff. split.
  - rewrite keys_defineProperty.
    destruct (existsb (fun k' => jsEqb k' k) (map fst m)) eqn:E; [exact Hkeys|].
    apply distinctKeys_snoc; assumption.
  - apply (values_defineProperty m k v Hvals Hv).
Qed.

Lemma wellFormed_assign :
  forall source target,
    wellFormed (JObject target) = true ->
    forallb wellFormedMember source = true ->
    wellFormed (JObject (assign target source)) = true.
Proof.
  unfold assign.
  induction source as [|[k v] source IH]; intros target Ht Hs; [exact Ht|].
  cbn [forallb] in Hs. apply andb_true_iff in Hs as [Hv Hs].
  cbn [fold_left fst snd]. apply IH; [|exact Hs].
  apply wellFormed_defineProperty; assumption.
Qed.

Lemma persistable_forall :
  forall state,
    persistable state <-> Forall (fun object => wellFormed (JObject object) = true) state.
Proof.
  unfold persistable. intros state. cbn [wellFormed].
  induction state as [|object state IH].
  - split; [constructor | reflexivity].
  - cbn [map forallb]. rewrite andb_true_iff, IH. split.
    + intros [H1 H2]. constructor; assumption.
    + intros H. inversion H; subst. split; assumption.
Qed.

(** ** What is saved is what is read *)

Lemma savedText_not_empty : forall state, savedText state <> [].
Proof.
  intros state. unfold savedText. rewrite JSON_stringify_array.
  destruct (map JObject state); discriminate.
Qed.

(** X18.  The provider reads back what it saved: when the storage holds,
    under the key of a piece of state, the text that the effect wrote for a
    state of objects with distinct keys, the initializer gives that state
    and leaves the storage as it is.  The operations of the provider keep
    the state one that can be saved: adding a material, updating one with
    well-formed values and adding a quiz leave all keys distinct. *)
Theorem saved_state_is_restored :
  forall key (localStorage : Storage) (state : list JsObject),
    persistable state ->
    localStorage key = Some (savedText state) ->
    initialState key localStorage = (Value (JArray (map JObject state)), localStorage) /\
    (forall content,
       wellFormed (JObject content) = true -> persistable (addContent content state)) /\
    (forall materialId updates,
       forallb wellFormedMember updates = true ->
       persistable (updateStudyMaterial materialId updates state)) /\
    (forall contentId quizResult,
       wellFormed (JObject quizResult) = true ->
       persistable (addQuizResult contentId quizResult state)).
Proof.
  intros key localStorage state Hstate Hsaved.
  split; [|split; [|split]].
  - unfold initialState. rewrite Hsaved.
    destruct (savedText state) as [|c saved] eqn:Etext;
      [elim (savedText_not_empty state Etext)|].
    rewrite <- Etext. unfold savedText.
    rewrite (JSON_parse_stringify _ Hstate). reflexivity.
  - intros content Hc. apply persistable_forall. unfold addContent.
    apply Forall_app. split; [apply persistable_forall; exact Hstate|].
    constructor; [|constructor].
    apply wellFormed_defineProperty; [exact Hc | reflexivity].
  - intros materialId updates Hu. apply persistable_forall.
    apply persistable_forall in Hstate. unfold updateStudyMaterial. clear Hsaved.
    induction Hstate as [|material rest Hm _ IH]; [constructor|].
    cbn [map]. constructor; [|exact IH].
    destruct (propertyIs (lit "id") materialId material); [|exact Hm].
    apply wellFormed_assign; assumption.
  - intros contentId quizResult Hq. apply persistable_forall. unfold addQuizResult.
    apply Forall_app. split; [apply persistable_forall; exact Hstate|].
    constructor; [exact Hq | constructor].
Qed.

Lemma saved_state_is_restored_witness :
  initialState LOCAL_STORAGE_CONTENT_KEY
    (fun key =>
       if jsEqb key LOCAL_STORAGE_CONTENT_KEY
       then Some (savedText [sampleMaterial "content_1" "Light"; sampleMaterial "content_2" "Shade"])
       else None) =
  (Value (JArray (map JObject
            [sampleMaterial "content_1" "Light"; sampleMaterial "content_2" "Shade"])),
   fun key =>
     if jsEqb key LOCAL_STORAGE_CONTENT_KEY
     then Some (savedText [sampleMaterial "content_1" "Light"; sampleMaterial "content_2" "Shade"])
     else None).
Proof.
  apply (saved_state_is_restored LOCAL_STORAGE_CONTENT_KEY
           (fun key =>
              if jsEqb key LOCAL_STORAGE_CONTENT_KEY
              then Some (savedText [sampleMaterial "content_1" "Light";
                                    sampleMaterial "content_2" "Shade"])
              else None)
           [sampleMaterial "content_1" "Light"; sampleMaterial "content_2" "Shade"]);
    reflexivity.
Defined.

(** ** Finding and updating a material *)

Lemma propertyIs_assign :
  forall name value material updates,
    lookupMember name updates = None ->
    distinctKeys (map fst updates) = true ->
    propertyIs name value (assign material updates) = propertyIs name value material.
Proof.
  intros name value material updates Hname Hkeys. unfold propertyIs.
  rewrite (lookupMember_assign updates material name Hkeys), Hname. reflexivity.
Qed.

Lemma propertyIs_other :
  forall name a b object,
    a <> b -> propertyIs name a object = true -> propertyIs name b object = false.
Proof.
  intros name a b object Hab H. unfold propertyIs in *.
  destruct (lookupMember name object) as [[| | |s| |]|]; try discriminate H.
  apply jsEqb_eq in H. subst s. apply jsEqb_neq. exact Hab.
Qed.

(** X19.  [updateStudyMaterial], for updates that do not name the [id]:
    the state keeps its length; the material found under the updated id is
    the one found before, with the updates spread over it; the material
    found under any other id is the one found before; and in a spread, a
    property the updates name takes their value while every other property
    keeps its own. *)
Theorem updateStudyMaterial_updates_one :
  forall materialId updates prev,
    distinctKeys (map fst updates) = true ->
    lookupMember (lit "id") updates = None ->
    length (updateStudyMaterial materialId updates prev) = length prev /\
    getStudyMaterialById (updateStudyMaterial materialId updates prev) materialId =
      option_map (fun material => assign material updates)
        (getStudyMaterialById prev materialId) /\
    (forall id, id <> materialId ->
       getStudyMaterialById (updateStudyMaterial materialId updates prev) id =
       getStudyMaterialById prev id) /\
    (forall material name,
       lookupMember name (assign material updates) =
       match lookupMember name updates with
       | Some v => Some v
       | None => lookupMember name material
       end).
Proof.
  intros materialId updates prev Hkeys Hid.
  split; [apply length_map|]. split; [|split].
  - unfold getStudyMaterialById, updateStudyMaterial.
    induction prev as [|material rest IH]; [reflexivity|].
    cbn [map find]. destruct (propertyIs (lit "id") materialId material) eqn:E.
    + rewrite (propertyIs_assign _ _ _ _ Hid Hkeys), E. reflexivity.
    + rewrite E. exact IH.
  - intros id Hne. unfold getStudyMaterialById, updateStudyMaterial.
    induction prev as [|material rest IH]; [reflexivity|].
    cbn [map find]. destruct (propertyIs (lit "id") materialId material) eqn:E.
    + rewrite (propertyIs_assign _ _ _ _ Hid Hkeys).
      assert (Hother : propertyIs (lit "id") id material = false).
      { apply (propertyIs_other _ materialId id material); [congruence | exact E]. }
      rewrite Hother. exact IH.
    + rewrite IH. reflexivity.
  - intros material name. apply lookupMember_assign. exact Hkeys.
Qed.

Lemma updateStudyMaterial_updates_one_witness :
  length (updateStudyMaterial (lit "content_2") [(lit "aiSummary", JString (lit "Short"))]
            [sampleMaterial "content_1" "Light"; sampleMaterial "content_2" "Shade"]) =
  length [sampleMaterial "content_1" "Light"; sampleMaterial "content_2" "Shade"] /\
  getStudyMaterialById
    (updateStudyMaterial (lit "content_2") [(lit "aiSummary", JString (lit "Short"))]
       [sampleMaterial "content_1" "Light"; sampleMaterial "content_2" "Shade"])
    (lit "content_2") =
  option_map (fun material => assign material [(lit "aiSummary", JString (lit "Short"))])
    (getStudyMaterialById
       [sampleMaterial "content_1" "Light"; sampleMaterial "content_2" "Shade"]
       (lit "content_2")) /\
  (forall id, id <> lit "content_2" ->
     getStudyMaterialById
       (updateStudyMaterial (lit "content_2") [(lit "aiSummary", JString (lit "Short"))]
          [sampleMaterial "content_1" "Light"; sampleMaterial "content_2" "Shade"]) id =
     getStudyMaterialById
       [sampleMaterial "content_1" "Light"; sampleMaterial "content_2" "Shade"] id) /\
  (forall material name,
     lookupMember name (assign material [(lit "aiSummary", JString (lit "Short"))]) =
     match lookupMember name [(lit "aiSummary", JString (lit "Short"))] with
     | Some v => Some v
     | None => lookupMember name material
     end).
Proof.
  apply (updateStudyMaterial_updates_one (lit "content_2")
           [(lit "aiSummary", JString (lit "Short"))]
           [sampleMaterial "content_1" "Light"; sampleMaterial "content_2" "Shade"]);
    reflexivity.
Defined.

Lemma find_app :
  forall A (f : A -> bool) l l',
    find f (l ++ l') = match find f l with Some a => Some a | None => find f l' end.
Proof.
  intros A f. induction l as [|a l IH]; intros l'; [reflexivity|].
  cbn [app find]. destruct (f a); [reflexivity | apply IH].
Qed.

(** X20.  Adding a material never hides one: a material found under an id
    before [addContent] is found under it afterwards; the new material is
    found under its own id exactly when no earlier material has that id;
    and the new material starts with an empty chat history, whatever the
    content brought along. *)
Theorem addContent_keeps_materials :
  forall content prev id,
    getStudyMaterialById (addContent content prev) id =
    match getStudyMaterialById prev id with
    | Some material => Some material
    | None =>
        if propertyIs (lit "id") id content
        then Some (defineProperty content (lit "chatHistory") (JArray []))
        else None
    end /\
    lookupMember (lit "chatHistory")
      (defineProperty content (lit "chatHistory") (JArray [])) = Some (JArray []).
Proof.
  intros content prev id. split.
  - unfold getStudyMaterialById, addContent. rewrite find_app.
    destruct (find (propertyIs (lit "id") id) prev); [reflexivity|].
    cbn [find].
    assert (Hid : propertyIs (lit "id") id
                    (defineProperty content (lit "chatHistory") (JArray [])) =
                  propertyIs (lit "id") id content).
    { unfold propertyIs. rewrite lookupMember_defineProperty. reflexivity. }
    rewrite Hid. destruct (propertyIs (lit "id") id content); reflexivity.
  - rewrite lookupMember_defineProperty, jsEqb_refl. reflexivity.
Qed.

(** X21.  A quiz is filed under the [contentId] it carries: the first
    argument of [addQuizResult] plays no part.  After a quiz is added, the
    quizzes of a content are those it had, followed by the new quiz if its
    own [contentId] is that content. *)
Theorem quiz_filed_under_its_own_content :
  forall contentId quizResult prevQuizzes wanted,
    getQuizzesForContent (addQuizResult contentId quizResult prevQuizzes) wanted =
    getQuizzesForContent prevQuizzes wanted ++
    (if propertyIs (lit "contentId") wanted quizResult then [quizResult] else []).
Proof.
  intros contentId quizResult prevQuizzes wanted.
  unfold getQuizzesForContent, addQuizResult. rewrite filter_app. reflexivity.
Qed.
